(** * goresize: the caching, fetching and resizing pipeline of [img.go]

    A shallow embedding of [img.go] and the properties of its pipeline.

    - Go strings and byte slices are byte sequences: [string] and
      [list byte].
    - Go's [int] is the 64-bit integer of the amd64 port, [int64] values are
      [Z] within their range, [float64] is IEEE-754 binary64, embedded as
      [spec_float] with precision 53 and maximal exponent 1024.
    - Redis, the cache directory, the clock and the origin servers form the
      [World] a request runs in; the handlers are functions in a state monad
      over it, in which a Go run-time panic is an outcome of its own.
    - A goroutine started with [go func() {...}()] is a [Task] queued in the
      world; running it is a separate step.  *)

From Stdlib Require Import ZArith String Ascii List Lia Bool.
From Stdlib.Strings Require Import Byte.
From Stdlib Require Import DecimalString DecimalPos SpecFloat.
From Stdlib Require Import Reals Lra Psatz.
From stdpp Require Import gmap strings list fin_maps.

Open Scope Z_scope.

(** ** crypto/sha1 *)

Module Sha1.
Definition w32 (x : Z) : Z := Z.land x 0xffffffff.
Definition add32 (x y : Z) : Z := w32 (x + y).
Definition rotl (n x : Z) : Z :=
  w32 (Z.lor (Z.shiftl x n) (Z.shiftr x (32 - n))).

Definition bytes_of_string (s : string) : list Z :=
  map (fun c => Z.of_N (N_of_ascii c)) (list_ascii_of_string s).

(** the [n] low bytes of [x], most significant first *)
Fixpoint be_bytes (n : nat) (x : Z) : list Z :=
  match n with
  | O => []
  | S k => Z.land (Z.shiftr x (8 * Z.of_nat k)) 0xff :: be_bytes k x
  end.

Definition pad (msg : list Z) : list Z :=
  let len := Z.of_nat (length msg) in
  let zeros := Z.to_nat ((55 - len) mod 64) in
  msg ++ 0x80 :: repeat 0 zeros ++ be_bytes 8 (8 * len).

Fixpoint words (n : nat) (bs : list Z) : list Z :=
  match n with
  | O => []
  | S k =>
      match bs with
      | b0 :: b1 :: b2 :: b3 :: rest =>
          (Z.shiftl b0 24 + Z.shiftl b1 16 + Z.shiftl b2 8 + b3) :: words k rest
      | _ => []
      end
  end.

(** the message schedule, most recent word first *)
Fixpoint expand (n : nat) (ws : list Z) : list Z :=
  match n with
  | O => ws
  | S k =>
      let w := rotl 1 (Z.lxor (Z.lxor (nth 2 ws 0) (nth 7 ws 0))
                              (Z.lxor (nth 13 ws 0) (nth 15 ws 0))) in
      expand k (w :: ws)
  end.

Definition schedule (blk : list Z) : list Z :=
  rev (expand 64 (rev (words 16 blk))).

Definition f (t : nat) (b c d : Z) : Z :=
  if (t <? 20)%nat then Z.lor (Z.land b c) (Z.land (Z.lxor b 0xffffffff) d)
  else if (t <? 40)%nat then Z.lxor (Z.lxor b c) d
  else if (t <? 60)%nat then Z.lor (Z.lor (Z.land b c) (Z.land b d)) (Z.land c d)
  else Z.lxor (Z.lxor b c) d.

Definition K (t : nat) : Z :=
  if (t <? 20)%nat then 0x5A827999
  else if (t <? 40)%nat then 0x6ED9EBA1
  else if (t <? 60)%nat then 0x8F1BBCDC
  else 0xCA62C1D6.

Definition digest_state : Type := Z * Z * Z * Z * Z.

Fixpoint rounds (t : nat) (ws : list Z) (s : digest_state) : digest_state :=
  match ws with
  | [] => s
  | w :: ws' =>
      let '(a, b, c, d, e) := s in
      let tmp := add32 (add32 (add32 (add32 (rotl 5 a) (f t b c d)) e) w) (K t) in
      rounds (S t) ws' (tmp, a, rotl 30 b, c, d)
  end.

Definition block (h : digest_state) (blk : list Z) : digest_state :=
  let '(h0, h1, h2, h3, h4) := h in
  let '(a, b, c, d, e) := rounds 0 (schedule blk) h in
  (add32 h0 a, add32 h1 b, add32 h2 c, add32 h3 d, add32 h4 e).

Fixpoint blocks (n : nat) (h : digest_state) (bs : list Z) : digest_state :=
  match n with
  | O => h
  | S k => blocks k (block h (firstn 64 bs)) (skipn 64 bs)
  end.

Definition init : digest_state :=
  (0x67452301, 0xEFCDAB89, 0x98BADCFE, 0x10325476, 0xC3D2E1F0).

(** [h := sha1.New(); io.WriteString(h, s); h.Sum(nil)]: the 20 bytes *)
Definition sum (s : string) : list Z :=
  let p := pad (bytes_of_string s) in
  let '(h0, h1, h2, h3, h4) := blocks (length p / 64) init p in
  be_bytes 4 h0 ++ be_bytes 4 h1 ++ be_bytes 4 h2 ++ be_bytes 4 h3 ++ be_bytes 4 h4.
End Sha1.

(** ** fmt, strconv, encoding/hex *)

Definition hex_digit (d : Z) : ascii :=
  ascii_of_N (Z.to_N (if d <? 10 then 48 + d else 87 + d)).

(** the verb [%x] on a byte slice: two lower-case digits per byte *)
Fixpoint fmt_x (bs : list Z) : string :=
  match bs with
  | [] => EmptyString
  | b :: r => String (hex_digit (b / 16)) (String (hex_digit (b mod 16)) (fmt_x r))
  end.

(** the verb [%d] on an integer *)
Definition fmt_d (n : Z) : string := NilZero.string_of_int (Z.to_int n).

Definition digit_val (c : ascii) : option Z :=
  let n := Z.of_N (N_of_ascii c) in
  if (48 <=? n) && (n <=? 57) then Some (n - 48) else None.

(** the digits of [strconv.ParseUint(s, 10, _)]: [None] is ErrSyntax *)
Fixpoint parse_digits (acc : Z) (s : string) : option Z :=
  match s with
  | EmptyString => Some acc
  | String c r =>
      match digit_val c with
      | Some d => parse_digits (10 * acc + d) r
      | None => None
      end
  end.

(** the two failures of [strconv.ParseInt] *)
Inductive NumError := ErrSyntax | ErrRange.

(** [strconv.ParseInt(s, 10, bitSize)].  An unsigned magnitude that does not
    fit 64 bits is ErrRange in [ParseUint] already; it is beyond the cutoff
    of every [bitSize <= 64] as well, so the one range test covers both. *)
Definition ParseInt (s : string) (bitSize : Z) : Z + NumError :=
  match s with
  | EmptyString => inr ErrSyntax
  | String c r =>
      let neg := Ascii.eqb c "-" in
      let digits := if Ascii.eqb c "+" || neg then r else s in
      match digits with
      | EmptyString => inr ErrSyntax
      | _ =>
          match parse_digits 0 digits with
          | None => inr ErrSyntax
          | Some un =>
              let cutoff := 2 ^ (bitSize - 1) in
              if negb neg && (cutoff <=? un) then inr ErrRange
              else if neg && (cutoff <? un) then inr ErrRange
              else inl (if neg then - un else un)
          end
      end
  end.

(** [reverseHexTable] of encoding/hex: both cases of the letters *)
Definition fromHexChar (c : ascii) : option Z :=
  let n := Z.of_N (N_of_ascii c) in
  if (48 <=? n) && (n <=? 57) then Some (n - 48)
  else if (97 <=? n) && (n <=? 102) then Some (n - 87)
  else if (65 <=? n) && (n <=? 70) then Some (n - 55)
  else None.

Definition byte_char (n : Z) : ascii := ascii_of_N (Z.to_N n).

(** [hex.DecodeString]: [None] is InvalidByteError or ErrLength *)
Fixpoint hex_DecodeString (s : string) : option string :=
  match s with
  | EmptyString => Some EmptyString
  | String _ EmptyString => None
  | String p (String q r) =>
      match fromHexChar p, fromHexChar q with
      | Some a, Some b =>
          match hex_DecodeString r with
          | Some t => Some (String (byte_char (16 * a + b)) t)
          | None => None
          end
      | _, _ => None
      end
  end.

(** [s[lo:hi]] on a string: [None] is the run-time panic
    "slice bounds out of range" *)
Definition slice (s : string) (lo hi : nat) : option string :=
  if (lo <=? hi)%nat && (hi <=? String.length s)%nat
  then Some (substring lo (hi - lo) s)
  else None.

(** ** float64 and package math *)

Module Float64.
Definition prec : Z := 53.
Definition emax : Z := 1024.

Abbreviation float64 := spec_float.

(** the conversion [float64(n)] of an integer: round to nearest even *)
Definition of_int (n : Z) : float64 := binary_normalize prec emax n 0 false.

(** [x / y] *)
Definition div (x y : float64) : float64 := SFdiv prec emax x y.

Definition is_nan (x : float64) : bool :=
  match x with S754_nan => true | _ => false end.

Definition is_inf (x : float64) (sign : Z) : bool :=
  match x with
  | S754_infinity s => if s then sign <=? 0 else 0 <=? sign
  | _ => false
  end.

Definition signbit (x : float64) : bool :=
  match x with
  | S754_zero s | S754_infinity s | S754_finite s _ _ => s
  | S754_nan => false
  end.

(** [math.Max], with its special cases in their order *)
Definition Max (x y : float64) : float64 :=
  if is_inf x 1 || is_inf y 1 then S754_infinity false
  else if is_nan x || is_nan y then S754_nan
  else if SFeqb x (S754_zero false) && SFeqb x y then
    (if signbit x then y else x)
  else if SFltb y x then x else y.

(** [math.Min] *)
Definition Min (x y : float64) : float64 :=
  if is_inf x (-1) || is_inf y (-1) then S754_infinity true
  else if is_nan x || is_nan y then S754_nan
  else if SFeqb x (S754_zero false) && SFeqb x y then
    (if signbit x then x else y)
  else if SFltb x y then x else y.

(** [math.Floor]: zeros, infinities and NaN are returned as they are *)
Definition Floor (x : float64) : float64 :=
  match x with
  | S754_finite s m e =>
      if 0 <=? e then x
      else
        let q := Z.shiftr (Z.pos m) (- e) in
        if s then
          (if Z.pos m =? Z.shiftl q (- e) then binary_normalize prec emax (- q) 0 true
           else binary_normalize prec emax (- (q + 1)) 0 true)
        else binary_normalize prec emax q 0 false
  | _ => x
  end.

(** the integer a finite float truncates to *)
Definition trunc (x : float64) : option Z :=
  match x with
  | S754_zero _ => Some 0
  | S754_finite s m e =>
      let a := if 0 <=? e then Z.shiftl (Z.pos m) e else Z.shiftr (Z.pos m) (- e) in
      Some (if s then - a else a)
  | _ => None
  end.
End Float64.

(** ** The world a request runs in *)

(** HTTP headers struct *)
Record Headers := mkHeaders {
  contentType : string;
  lastModified : string;
  cacheControl : string
}.

Definition zeroHeaders : Headers := mkHeaders "" "" "".

(** The maximal size for an image is 5MB *)
Definition maxSize : Z := 5 * Z.shiftl 1 20.

(** Redis: one key space; a key holds a string or a hash and may carry the
    second at which it expires *)
Inductive RedisValue :=
| RString (s : string)
| RHash (fields : gmap string string).

Record RedisEntry := mkEntry {
  rvalue : RedisValue;
  rexpiry : option Z
}.

(** what a Redis command answers, and [Reply.Str()] on it *)
Inductive Reply :=
| NilReply
| StringReply (s : string)
| IntegerReply (n : Z)
| ErrorReply (e : string).

Definition Str (r : Reply) : string * option string :=
  match r with
  | StringReply s => (s, None)
  | ErrorReply e => (EmptyString, Some e)
  | _ => (EmptyString, Some "string value is not available for this reply type")
  end.

(** a file of the cache directory *)
Record File := mkFile {
  fdata : list byte;
  fmtime : Z;
  freadable : bool
}.

(** what [client.Get] and [ioutil.ReadAll(res.Body)] give *)
Inductive BodyRead :=
| ReadOk (data : list byte)
| ReadErr (partial : list byte) (e : string).

Record HttpResponse := mkResponse {
  StatusCode : Z;
  ContentLength : Z;
  HeaderContentType : string;
  Body : BodyRead
}.

Inductive GetResult :=
| GetErr (e : string)
| GetOk (res : HttpResponse).

(** a Go [error]: made in [img.go] by [errors.New], or handed over by one
    of the libraries (net/http, io, image, image/png); [Error] is its text *)
Inductive error :=
| errors_New (text : string)
| foreign (text : string).

Definition Error (e : error) : string :=
  match e with errors_New text | foreign text => text end.

(** the bodies of the two goroutines of [img.go] *)
Inductive Task :=
| SaveImage (uri variation : string) (headers : Headers) (body : list byte)
| SaveError (uri : string) (err : error).

(** what a request does outside the process, most recent first *)
Inductive Event :=
| EvRedis (cmd key : string)
| EvStat (path : string)
| EvReadFile (path : string)
| EvMkdirAll (path : string)
| EvWriteFile (path : string)
| EvHttpGet (uri : string)
| EvDecode
| EvResample (width height : Z)
| EvEncode.

Record World := mkWorld {
  now : Z;
  redis : gmap string RedisEntry;
  files : gmap string File;
  origin : string -> GetResult;
  disk_fault : string -> bool;
  pending : list Task;
  trace : list Event
}.

Definition set_redis (r : gmap string RedisEntry) (w : World) : World :=
  mkWorld (now w) r (files w) (origin w) (disk_fault w) (pending w) (trace w).
Definition set_files (f : gmap string File) (w : World) : World :=
  mkWorld (now w) (redis w) f (origin w) (disk_fault w) (pending w) (trace w).
Definition set_pending (p : list Task) (w : World) : World :=
  mkWorld (now w) (redis w) (files w) (origin w) (disk_fault w) p (trace w).
Definition set_trace (t : list Event) (w : World) : World :=
  mkWorld (now w) (redis w) (files w) (origin w) (disk_fault w) (pending w) t.
(** the clock moves on to second [t] *)
Definition set_now (t : Z) (w : World) : World :=
  mkWorld t (redis w) (files w) (origin w) (disk_fault w) (pending w) (trace w).

(** ** The monad of handlers: state, and panic as an outcome *)

Inductive Outcome (A : Type) :=
| Done (a : A) (w : World)
| Panicked (msg : string) (w : World).
Arguments Done {A} a w.
Arguments Panicked {A} msg w.

Definition M (A : Type) : Type := World -> Outcome A.

#[export] Instance M_ret : MRet M := fun A a w => Done a w.
#[export] Instance M_bind : MBind M := fun A B k m w =>
  match m w with
  | Done a w' => k a w'
  | Panicked msg w' => Panicked msg w'
  end.

Definition panic {A} (msg : string) : M A := fun w => Panicked msg w.
Definition gets {A} (f : World -> A) : M A := fun w => Done (f w) w.
Definition modify (f : World -> World) : M unit := fun w => Done tt (f w).
Definition emit (e : Event) : M unit := modify (fun w => set_trace (e :: trace w) w).

(** [go func() {...}()]: the body is queued, the caller goes on *)
Definition spawn (t : Task) : M unit :=
  modify (fun w => set_pending (pending w ++ [t]) w).

Definition world_of {A} (o : Outcome A) : World :=
  match o with Done _ w | Panicked _ w => w end.

(** *** Redis commands *)

Definition live (t : Z) (e : RedisEntry) : bool :=
  match rexpiry e with
  | None => true
  | Some x => t <? x
  end.

Definition redis_lookup (w : World) (key : string) : option RedisEntry :=
  match redis w !! key with
  | Some e => if live (now w) e then Some e else None
  | None => None
  end.

Definition wrongtype : string :=
  "WRONGTYPE Operation against a key holding the wrong kind of value".

Definition redis_Get (key : string) : M Reply :=
  _ ← emit (EvRedis "GET" key);
  gets (fun w =>
    match redis_lookup w key with
    | None => NilReply
    | Some e =>
        match rvalue e with
        | RString s => StringReply s
        | RHash _ => ErrorReply wrongtype
        end
    end).

Definition redis_Hget (key field : string) : M Reply :=
  _ ← emit (EvRedis "HGET" key);
  gets (fun w =>
    match redis_lookup w key with
    | None => NilReply
    | Some e =>
        match rvalue e with
        | RString _ => ErrorReply wrongtype
        | RHash h =>
            match h !! field with
            | Some v => StringReply v
            | None => NilReply
            end
        end
    end).

Definition redis_Set (key value : string) : M unit :=
  _ ← emit (EvRedis "SET" key);
  modify (fun w => set_redis (<[key := mkEntry (RString value) None]> (redis w)) w).

Definition redis_Expire (key : string) (seconds : Z) : M unit :=
  _ ← emit (EvRedis "EXPIRE" key);
  modify (fun w =>
    match redis_lookup w key with
    | Some e => set_redis (<[key := mkEntry (rvalue e) (Some (now w + seconds))]> (redis w)) w
    | None => w
    end).

Definition redis_Hset (key field value : string) : M unit :=
  _ ← emit (EvRedis "HSET" key);
  modify (fun w =>
    match redis_lookup w key with
    | None => set_redis (<[key := mkEntry (RHash {[field := value]}) None]> (redis w)) w
    | Some e =>
        match rvalue e with
        | RHash h => set_redis (<[key := mkEntry (RHash (<[field := value]> h)) (rexpiry e)]> (redis w)) w
        | RString _ => w
        end
    end).

(** *** The cache directory *)

(** [os.Stat]: the modification time of the file, if there is one *)
Definition os_Stat (path : string) : M (option Z) :=
  _ ← emit (EvStat path);
  gets (fun w => fmtime <$> files w !! path).

Definition ioutil_ReadFile (path : string) : M (option (list byte)) :=
  _ ← emit (EvReadFile path);
  gets (fun w =>
    match files w !! path with
    | Some f => if freadable f then Some (fdata f) else None
    | None => None
    end).

(** [os.MkdirAll]: [true] when err is nil *)
Definition os_MkdirAll (path : string) : M bool :=
  _ ← emit (EvMkdirAll path);
  gets (fun w => negb (disk_fault w path)).

Definition ioutil_WriteFile (path : string) (data : list byte) : M bool :=
  _ ← emit (EvWriteFile path);
  failed ← gets (fun w => disk_fault w path);
  if failed : bool then mret false
  else
    _ ← modify (fun w => set_files (<[path := mkFile data (now w) true]> (files w)) w);
    mret true.

(** *** The origin and the clock *)

Definition http_Get (uri : string) : M GetResult :=
  _ ← emit (EvHttpGet uri);
  gets (fun w => origin w uri).

Definition ioutil_ReadAll (b : BodyRead) : list byte * option error :=
  match b with
  | ReadOk data => (data, None)
  | ReadErr partial e => (partial, Some (foreign e))
  end.

Definition time_Now : M Z := gets now.

(** ** Packages image and net/http, as far as [img.go] uses them *)

Module image.
Record Point := mkPoint { X : Z; Y : Z }.
Record Rectangle := mkRect { Min : Point; Max : Point }.

(** arithmetic of [int] wraps around at 64 bits *)
Definition wrap (n : Z) : Z := (n + 2 ^ 63) mod 2 ^ 64 - 2 ^ 63.

Definition Dx (r : Rectangle) : Z := wrap (X (Max r) - X (Min r)).
Definition Dy (r : Rectangle) : Z := wrap (Y (Max r) - Y (Min r)).
End image.

(** What the process is started with and the libraries it links: the cache
    directory of flag [-d], the date format, [path.Dir], the codecs of
    package image, the resampler of the repository ([Resample], not part of
    [img.go]) and the integer that the platform gives [int(x)] for an [x]
    that no [int] represents. *)
Class Platform := {
  directory : string;
  RFC1123 : Z -> string;
  path_Dir : string -> string;
  Picture : Type;
  Bounds : Picture -> image.Rectangle;
  image_Decode : string -> Picture + string;
  Resample : Picture -> image.Rectangle -> Z -> Z -> Picture;
  png_Encode : Picture -> string + string;
  int_unrepresentable : spec_float -> Z
}.

(** the conversion [int(x)] of a float *)
Definition int_of_float `{Platform} (x : spec_float) : Z :=
  match Float64.trunc x with
  | Some n => if (- 2 ^ 63 <=? n) && (n <? 2 ^ 63) then n else int_unrepresentable x
  | None => int_unrepresentable x
  end.

Record Request := mkRequest {
  encoded_url : string;
  strWidth : string;
  strHeight : string;
  IfModifiedSince : string
}.

(** an [http.ResponseWriter]: the status once written, the header map in
    the order of its additions, the body written so far *)
Record ResponseWriter := mkWriter {
  status : option Z;
  header : list (string * string);
  written : list byte
}.

Definition newWriter : ResponseWriter := mkWriter None [] [].

Definition Header_Set (k v : string) (w : ResponseWriter) : ResponseWriter :=
  mkWriter (status w) (List.filter (fun kv => negb (String.eqb (fst kv) k)) (header w) ++ [(k, v)])
           (written w).

Definition Header_Add (k v : string) (w : ResponseWriter) : ResponseWriter :=
  mkWriter (status w) (header w ++ [(k, v)]) (written w).

Definition WriteHeader (code : Z) (w : ResponseWriter) : ResponseWriter :=
  match status w with
  | Some _ => w
  | None => mkWriter (Some code) (header w) (written w)
  end.

(** [w.Write]: the first write sends status 200 when none was sent *)
Definition Write (data : list byte) (w : ResponseWriter) : ResponseWriter :=
  let w' := WriteHeader 200 w in
  mkWriter (status w') (header w') (written w' ++ data).

Definition newline : string := String (ascii_of_N 10) EmptyString.

Definition http_Error (msg : string) (code : Z) (w : ResponseWriter) : ResponseWriter :=
  Write (list_byte_of_string (msg +:+ newline))
    (WriteHeader code
      (Header_Set "X-Content-Type-Options" "nosniff"
        (Header_Set "Content-Type" "text/plain; charset=utf-8" w))).

Definition http_NotFound (w : ResponseWriter) : ResponseWriter :=
  http_Error "404 page not found" 404 w.

(** ** [img.go]

    The functions below follow the source line by line.  What is left out:
    the calls of [log.Printf], which write the process log only, and
    [defer res.Body.Close()].  [Status] and the Redis configuration of
    [main], which the pipeline does not call, follow further down.  A named
    result that the source returns without assigning is the zero value of
    its type. *)

Section Pipeline.
Context `{Platform}.

(** Check if an URL is valid and not temporary in error *)
Definition urlStatus (uri : string) : M (option error) :=
  r ← redis_Get ("img/err/" +:+ uri);
  match Str r with
  | (str, None) => mret (Some (errors_New str))
  | (_, Some _) => mret None
  end.

(** Generate a key for cache from a string *)
Definition generateKeyForCache (s : string) : string :=
  let key := Sha1.sum s in
  directory +:+ "/" +:+ fmt_x (take 1 key) +:+ "/" +:+ fmt_x (take 1 (drop 1 key))
    +:+ "/" +:+ fmt_x (take 1 (drop 2 key)) +:+ "/" +:+ fmt_x (drop 3 key).

(** Fetch image from cache *)
Definition fetchImageFromCache (uri variation : string)
  : M (Headers * list byte * bool) :=
  r ← redis_Hget ("img/" +:+ variation +:+ "/" +:+ uri) "type";
  match Str r with
  | (_, Some _) => mret (zeroHeaders, [], false)
  | (contentType, None) =>
      let filename := generateKeyForCache uri in
      stat ← os_Stat filename;
      match stat with
      | None => mret (zeroHeaders, [], false)
      | Some modTime =>
          let headers := mkHeaders contentType (RFC1123 modTime) "" in
          rd ← ioutil_ReadFile filename;
          match rd with
          | Some body => mret (headers, body, true)
          | None => mret (headers, [], false)
          end
      end
  end.

(** the goroutine of [saveImageInCache] *)
Definition saveImageInCache_go (uri variation : string) (headers : Headers)
    (body : list byte) : M unit :=
  let filename := generateKeyForCache (variation +:+ ":" +:+ uri) in
  let dirname := path_Dir filename in
  made ← os_MkdirAll dirname;
  if made : bool then
    (* Save the body on disk *)
    wrote ← ioutil_WriteFile filename body;
    if wrote : bool then
      (* And other infos in redis *)
      redis_Hset ("img/" +:+ variation +:+ "/" +:+ uri) "type" (contentType headers)
    else mret tt
  else mret tt.

(** Save the body and the content-type header in cache *)
Definition saveImageInCache (uri variation : string) (headers : Headers)
    (body : list byte) : M unit :=
  spawn (SaveImage uri variation headers body).

(** the goroutine of [saveErrorInCache] *)
Definition saveErrorInCache_go (uri : string) (err : error) : M unit :=
  _ ← redis_Set ("img/err/" +:+ uri) (Error err);
  redis_Expire ("img/err/" +:+ uri) 600.

(** Save the error in redis for 10 minutes *)
Definition saveErrorInCache (uri : string) (err : error) : M unit :=
  spawn (SaveError uri err).

(** one queued goroutine runs to its end *)
Definition run_task (t : Task) : M unit :=
  match t with
  | SaveImage uri variation headers body => saveImageInCache_go uri variation headers body
  | SaveError uri err => saveErrorInCache_go uri err
  end.

(** the queued goroutines run, in the order they were started *)
Fixpoint run_tasks (ts : list Task) (w : World) : World :=
  match ts with
  | [] => w
  | t :: r => run_tasks r (world_of (run_task t w))
  end.

Definition settle (w : World) : World :=
  run_tasks (pending w) (set_pending [] w).

(** Fetch the image from the distant server *)
Definition fetchImageFromServer (uri : string)
  : M (Headers * list byte * option error) :=
  got ← http_Get uri;
  match got with
  | GetErr e => mret (zeroHeaders, [], Some (foreign e))
  | GetOk res =>
      if negb (StatusCode res =? 200) then
        let err := errors_New "Unexpected status code" in
        _ ← saveErrorInCache uri err;
        mret (zeroHeaders, [], Some err)
      else
        match ioutil_ReadAll (Body res) with
        | (body, Some e) => mret (zeroHeaders, body, Some e)
        | (body, None) =>
            if ContentLength res >? maxSize then
              let err := errors_New "Exceeded max size" in
              _ ← saveErrorInCache uri err;
              mret (zeroHeaders, body, Some err)
            else
              let contentType := HeaderContentType res in
              match slice contentType 0 5 with
              | None => panic "runtime error: slice bounds out of range"
              | Some prefix =>
                  if negb (String.eqb prefix "image") then
                    let err := errors_New "Invalid content-type" in
                    _ ← saveErrorInCache uri err;
                    mret (zeroHeaders, body, Some err)
                  else
                    t ← time_Now;
                    let headers := mkHeaders contentType (RFC1123 t) "" in
                    st ← urlStatus uri;
                    _ ← (if st is None
                         then saveImageInCache uri "orig" headers body
                         else mret tt);
                    mret (headers, body, None)
              end
        end
  end.

(** Fetch image from cache if available, or from the server *)
Definition fetchImage (uri : string) : M (Headers * list byte * option error) :=
  err ← urlStatus uri;
  match err with
  | Some _ => mret (zeroHeaders, [], err)
  | None =>
      '(headers, body, ok) ← fetchImageFromCache uri "orig";
      '(headers, body, err) ←
        (if ok : bool then mret (headers, body, None)
         else fetchImageFromServer uri);
      mret (mkHeaders (contentType headers) (lastModified headers) "public, max-age=600",
            body, err)
  end.

Definition resizeImage (uri origBody : string) (origHeaders : Headers)
    (width height : Z) : M (Headers * list byte * option error) :=
  _ ← emit EvDecode;
  match image_Decode origBody with
  | inr e => mret (zeroHeaders, [], Some (foreign e))
  | inl m =>
      let bounds := Bounds m in
      let origWidth := image.Dx bounds in
      let origHeight := image.Dy bounds in
      if (width >=? origWidth) && (height >=? origHeight) then
        mret (origHeaders, list_byte_of_string origBody, None)
      else
        let ratio :=
          Float64.div
            (Float64.Max (Float64.of_int origWidth) (Float64.of_int origHeight))
            (Float64.Min (Float64.of_int width) (Float64.of_int height)) in
        let newWidth :=
          int_of_float (Float64.Floor (Float64.div (Float64.of_int origWidth) ratio)) in
        let newHeight :=
          int_of_float (Float64.Floor (Float64.div (Float64.of_int origHeight) ratio)) in
        _ ← emit (EvResample newWidth newHeight);
        let m' := Resample m (Bounds m) newWidth newHeight in
        _ ← emit EvEncode;
        match png_Encode m' with
        | inr e => mret (zeroHeaders, [], Some (foreign e))
        | inl out =>
            mret (mkHeaders "image/png" (lastModified origHeaders) (cacheControl origHeaders),
                  list_byte_of_string out, None)
        end
  end.

(** the test [if err != nil] that follows the computation of [variation]
    in the source reads the named result [err], which is still nil: it
    never returns *)
Definition fetchResizedImage (uri : string) (width height : Z)
  : M (Headers * list byte * option error) :=
  let variation := "resize/" +:+ fmt_d width +:+ "/" +:+ fmt_d height in
  '(headers, body, ok) ← fetchImageFromCache uri variation;
  if ok : bool then mret (headers, body, None)
  else
    '(headers, body, err) ← fetchImage uri;
    match err with
    | Some _ => mret (headers, body, err)
    | None =>
        '(headers, body, err) ←
          resizeImage uri (string_of_list_byte body) headers width height;
        match err with
        | Some _ => mret (headers, body, err)
        | None =>
            _ ← saveImageInCache uri variation headers body;
            mret (headers, body, None)
        end
    end.

(** Receive an HTTP request, fetch the image and respond with it *)
Definition Image (w : ResponseWriter) (r : Request)
    (fn : ResponseWriter -> ResponseWriter) : M ResponseWriter :=
  match ParseInt (strWidth r) 32 with
  | inr _ => mret (http_Error "Invalid parameters" 400 w)
  | inl width =>
      match ParseInt (strHeight r) 32 with
      | inr _ => mret (http_Error "Invalid parameters" 400 w)
      | inl height =>
          if width * height >? maxSize then
            mret (http_Error "Requested resized image exceeds max size" 400 w)
          else
            match hex_DecodeString (encoded_url r) with
            | None => mret (http_Error "Invalid parameters" 400 w)
            | Some uri =>
                '(headers, body, err) ← fetchResizedImage uri width height;
                match err with
                | Some _ => mret (fn w)
                | None =>
                    if String.eqb (lastModified headers) (IfModifiedSince r) then
                      mret (WriteHeader 304 w)
                    else
                      mret (Write body
                             (Header_Add "Cache-Control" (cacheControl headers)
                               (Header_Add "Last-Modified" (lastModified headers)
                                 (Header_Add "Content-Type" (contentType headers) w))))
                end
            end
      end
  end.

(** Receive an HTTP request for an image and respond with it *)
Definition Img (w : ResponseWriter) (r : Request) : M ResponseWriter :=
  Image w r http_NotFound.
End Pipeline.

(** ** Notions of the specification, to state the properties with *)

Definition code (c : ascii) : Z := Z.of_N (N_of_ascii c).

Definition is_digit (c : ascii) : Prop := 48 <= code c <= 57.

Definition is_hex_char (c : ascii) : Prop :=
  48 <= code c <= 57 \/ 97 <= code c <= 102 \/ 65 <= code c <= 70.

(** the number a sequence of decimal digits writes *)
Definition decimal (ds : list ascii) : Z :=
  fold_left (fun acc c => 10 * acc + (code c - 48)) ds 0.

(** [denotes s n]: the string [s] is a base-10 integer and writes [n] *)
Inductive denotes : string -> Z -> Prop :=
| denotes_plain ds :
    ds <> [] -> Forall is_digit ds ->
    denotes (string_of_list_ascii ds) (decimal ds)
| denotes_plus ds :
    ds <> [] -> Forall is_digit ds ->
    denotes (String "+" (string_of_list_ascii ds)) (decimal ds)
| denotes_minus ds :
    ds <> [] -> Forall is_digit ds ->
    denotes (String "-" (string_of_list_ascii ds)) (- decimal ds).

Definition base10_integer (s : string) : Prop := exists n, denotes s n.

(** [after w w']: [w'] has the clock, the stores, the origins and the disk
    faults of [w]; its trace and its queue extend those of [w] *)
Record after (w w' : World) : Prop := mkAfter {
  after_now : now w' = now w;
  after_redis : redis w' = redis w;
  after_files : files w' = files w;
  after_origin : origin w' = origin w;
  after_disk : disk_fault w' = disk_fault w;
  after_pending : exists ts, pending w' = pending w ++ ts;
  after_trace : exists evs, trace w' = evs ++ trace w
}.

(** a computation of the request path *)
Definition reads {A} (m : M A) : Prop := forall w, after w (world_of (m w)).

(** the first thing a computation does outside the process is [e] *)
Definition starts_with {A} (e : Event) (m : M A) : Prop :=
  forall w, exists evs, trace (world_of (m w)) = evs ++ e :: trace w.

(** how often an origin was asked, and how often a picture was resampled *)
Definition origin_fetches (evs : list Event) : nat :=
  length (List.filter (fun e => match e with EvHttpGet _ => true | _ => false end) evs).

Definition resamplings (evs : list Event) : nat :=
  length (List.filter (fun e => match e with EvResample _ _ => true | _ => false end) evs).

(** the reason of the live ErrorRecord of [uri], if there is one *)
Definition live_error (w : World) (uri : string) : option string :=
  match redis_lookup w ("img/err/" +:+ uri) with
  | Some e =>
      match rvalue e with
      | RString reason => Some reason
      | RHash _ => None
      end
  | None => None
  end.

(** the three failure kinds that [fetchImageFromServer] makes itself *)
Definition negatively_cached (e : error) : bool :=
  match e with
  | errors_New text =>
      String.eqb text "Unexpected status code"
      || String.eqb text "Exceeded max size"
      || String.eqb text "Invalid content-type"
  | foreign _ => false
  end.

Definition is_SaveError (t : Task) : bool :=
  match t with SaveError _ _ => true | SaveImage _ _ _ _ => false end.

(** what a [location] says of the remainder [r] of a division by [D] *)
Definition loc_rel (D r : Z) (l : location) : Prop :=
  match l with
  | loc_Exact => r = 0
  | loc_Inexact Lt => 0 < 2 * r < D
  | loc_Inexact Eq => 0 < r /\ 2 * r = D
  | loc_Inexact Gt => D < 2 * r
  end.

(** a mantissa of 53 bits *)
Definition canonical (m : positive) : Prop := 2 ^ 52 <= Z.pos m < 2 ^ 53.

(** the real number that a positive finite float [m * 2^e] is *)
Definition F2R (m : positive) (e : Z) : R := (IZR (Z.pos m) * powerRZ 2 e)%R.

(** ** A platform and worlds to run the handlers in *)

Module Testbed.
Definition two_digits (n : Z) : string :=
  (if n <? 10 then "0" else "") +:+ fmt_d n.

Definition day_name (d : Z) : string :=
  nth (Z.to_nat d) ["Sun"; "Mon"; "Tue"; "Wed"; "Thu"; "Fri"; "Sat"] "".

Definition month_name (m : Z) : string :=
  nth (Z.to_nat (m - 1))
    ["Jan"; "Feb"; "Mar"; "Apr"; "May"; "Jun"; "Jul"; "Aug"; "Sep"; "Oct"; "Nov"; "Dec"] "".

(** [time.Unix(t, 0).UTC().Format(time.RFC1123)] *)
Definition rfc1123_utc (t : Z) : string :=
  let days := t / 86400 in
  let secs := t mod 86400 in
  let z := days + 719468 in
  let era := z / 146097 in
  let doe := z - era * 146097 in
  let yoe := (doe - doe / 1460 + doe / 36524 - doe / 146096) / 365 in
  let doy := doe - (365 * yoe + yoe / 4 - yoe / 100) in
  let mp := (5 * doy + 2) / 153 in
  let d := doy - (153 * mp + 2) / 5 + 1 in
  let m := if mp <? 10 then mp + 3 else mp - 9 in
  let y := yoe + era * 400 + (if m <=? 2 then 1 else 0) in
  day_name ((days + 4) mod 7) +:+ ", " +:+ two_digits d +:+ " " +:+ month_name m
    +:+ " " +:+ fmt_d y +:+ " " +:+ two_digits (secs / 3600) +:+ ":"
    +:+ two_digits (secs mod 3600 / 60) +:+ ":" +:+ two_digits (secs mod 60) +:+ " UTC".

(** the index after the last ["/"] of [s], searched from position [i] *)
Fixpoint last_slash (s : string) (i : nat) (found : option nat) : option nat :=
  match s with
  | EmptyString => found
  | String c r => last_slash r (S i) (if Ascii.eqb c "/" then Some i else found)
  end.

(** [path.Dir] on a path that [path.Clean] leaves as it is *)
Definition dir (p : string) : string :=
  match last_slash p 0 None with
  | Some i => substring 0 i p
  | None => "."
  end.

(** a decoder that reads the size of a GIF from its header and keeps
    nothing else of the picture *)
Definition gif_size (s : string) : option (Z * Z) :=
  match slice s 0 6, list_byte_of_string s with
  | Some magic, _ :: _ :: _ :: _ :: _ :: _ :: w0 :: w1 :: h0 :: h1 :: _ =>
      if String.eqb magic "GIF89a" then
        Some (Z.of_N (Byte.to_N w0) + 256 * Z.of_N (Byte.to_N w1),
              Z.of_N (Byte.to_N h0) + 256 * Z.of_N (Byte.to_N h1))
      else None
  | _, _ => None
  end.

#[global] Instance platform : Platform := {|
  directory := "cache";
  RFC1123 := rfc1123_utc;
  path_Dir := dir;
  Picture := Z * Z;
  Bounds := fun m => image.mkRect (image.mkPoint 0 0) (image.mkPoint (fst m) (snd m));
  image_Decode := fun s =>
    match gif_size s with
    | Some m => inl m
    | None => inr "image: unknown format"
    end;
  Resample := fun _ _ w h => (w, h);
  png_Encode := fun m => inl ("PNG " +:+ fmt_d (fst m) +:+ "x" +:+ fmt_d (snd m));
  int_unrepresentable := fun _ => - 2 ^ 63
|}.

(** the header of a GIF of the given size *)
Definition gif (w h : Z) : list byte :=
  list_byte_of_string "GIF89a" ++
  map (fun n => default x00 (Byte.of_N (Z.to_N n))) [w mod 256; w / 256; h mod 256; h / 256].

Definition url : string := "http://a/b.gif".

(** an origin that serves a 200x100 GIF at [url] *)
Definition srv (uri : string) : GetResult :=
  if String.eqb uri url
  then GetOk (mkResponse 200 10 "image/gif" (ReadOk (gif 200 100)))
  else GetErr "dial tcp: lookup failed".

(** nothing cached, no goroutine queued, the disk in order *)
Definition fresh (o : string -> GetResult) : World :=
  mkWorld 1000 ∅ ∅ o (fun _ => false) [] [].

(** Redis and the cache directory as another writer left them: a failure
    of [url] recorded at second 1000, and a resized variant of it cached
    under the key that [fetchImageFromCache] reads *)
Definition stale : World :=
  mkWorld 1000
    (<["img/err/http://a/b.gif" := mkEntry (RString "Unexpected status code") (Some 1600)]>
       {["img/resize/50/50/http://a/b.gif" := mkEntry (RHash {["type" := "image/png"]}) None]})
    {["cache/e1/4a/1c/eb51eb71e8ccb668bb5127041d4f8f97ca"
        := mkFile (list_byte_of_string "PNG 50x25") 900 true]}
    srv (fun _ => false) [] [].

(** the request [/resize/<hex of url>/<width>/<height>] *)
Definition request (width height : string) : Request :=
  mkRequest "687474703a2f2f612f622e676966" width height "".
End Testbed.

(** ** [main]: the Redis client that flag [-r] configures

    Of [main], the lines that build the configuration of the Redis client
    from the value of flag [-r] are embedded; parsing of the command line,
    the redirection of the log, the router and the listener are calls of
    libraries and of the system. *)






(** ** Further notions to state properties with *)

(** a digit of the verb [%x] *)
Definition is_lower_hex (c : ascii) : Prop :=
  48 <= code c <= 57 \/ 97 <= code c <= 102.

(** a value of Go's [int32] *)
Definition int32 (n : Z) : Prop := - 2 ^ 31 <= n < 2 ^ 31.


(** the requests that [Image] hands to the pipeline: a width and a height
    that are base-10 integers of 32 bits with a product of at most
    [5 * 2^20], and an even number of hex digits for the URL *)
Definition valid_request (r : Request) : Prop :=
  exists a b,
    denotes (strWidth r) a /\ denotes (strHeight r) b
    /\ int32 a /\ int32 b /\ a * b <= 5 * 2 ^ 20
    /\ Nat.even (String.length (encoded_url r)) = true
    /\ Forall is_hex_char (list_ascii_of_string (encoded_url r)).

(** the Redis key of the metadata of a variation, and the string whose
    digest names its file *)
Definition metadata_key (variation uri : string) : string :=
  "img/" +:+ variation +:+ "/" +:+ uri.

Definition digest_input (variation uri : string) : string :=
  variation +:+ ":" +:+ uri.

(** the variation that [fetchResizedImage] computes *)
Definition resize_variation (width height : Z) : string :=
  "resize/" +:+ fmt_d width +:+ "/" +:+ fmt_d height.

Definition is_SaveImage_of (uri variation : string) (t : Task) : bool :=
  match t with
  | SaveImage u v _ _ => String.eqb u uri && String.eqb v variation
  | SaveError _ _ => false
  end.

(** the content type that Redis holds for a variation of [uri] *)
Definition metadata_type (w : World) (variation uri : string) : option string :=
  match redis_lookup w (metadata_key variation uri) with
  | Some e =>
      match rvalue e with
      | RHash fields => fields !! "type"
      | RString _ => None
      end
  | None => None
  end.

Section Outcomes.
Context `{Platform}.

(** the ways in which a call of [fetchImageFromServer] ends: every one has
    asked the origin once; a failure of the transport leaves nothing
    else, a failure that [img.go] makes itself queues its record, a
    Content-Type of less than five bytes ends in a panic, and an image
    comes back with the headers made for it, queued for the cache of
    originals unless a failure of the URL is on record *)
Inductive server_outcome (uri : string) (w : World)
  : Outcome (Headers * list byte * option error) -> Prop :=
| server_foreign headers body e :
    server_outcome uri w
      (Done (headers, body, Some (foreign e)) (set_trace (EvHttpGet uri :: trace w) w))
| server_refused headers body text :
    negatively_cached (errors_New text) = true ->
    server_outcome uri w
      (Done (headers, body, Some (errors_New text))
         (set_pending (pending w ++ [SaveError uri (errors_New text)])
            (set_trace (EvHttpGet uri :: trace w) w)))
| server_panic res body :
    origin w uri = GetOk res -> StatusCode res = 200 -> Body res = ReadOk body ->
    ContentLength res <= maxSize -> (String.length (HeaderContentType res) < 5)%nat ->
    server_outcome uri w
      (Panicked "runtime error: slice bounds out of range"
         (set_trace (EvHttpGet uri :: trace w) w))
| server_image res body :
    origin w uri = GetOk res -> StatusCode res = 200 -> Body res = ReadOk body ->
    ContentLength res <= maxSize -> slice (HeaderContentType res) 0 5 = Some "image" ->
    let headers := mkHeaders (HeaderContentType res) (RFC1123 (now w)) "" in
    server_outcome uri w
      (Done (headers, body, None)
         (set_pending
            (pending w ++
               (if live_error w uri is Some _ then []
                else [SaveImage uri "orig" headers body]))
            (set_trace (EvRedis "GET" ("img/err/" +:+ uri) :: EvHttpGet uri :: trace w) w))).
End Outcomes.

(** ** The states of a running proxy *)

(** the variations that [img.go] makes: [orig] and [resize/<w>/<h>] *)
Definition is_variation (v : string) : Prop :=
  v = "orig" \/ exists width height, v = resize_variation width height.

(** a content type that passes the test of [fetchImageFromServer] *)
Definition image_type (type : string) : Prop := slice type 0 5 = Some "image".

(** the goroutines that [img.go] starts *)
Definition task_ok (t : Task) : Prop :=
  match t with
  | SaveError _ e => negatively_cached e = true
  | SaveImage _ v headers _ => is_variation v /\ image_type (contentType headers)
  end.

(** Returns 200 OK if the server is running (for monitoring) *)
Definition Status (w : ResponseWriter) (r : Request) : M ResponseWriter :=
  mret (Write (list_byte_of_string "OK") w).

Section Reachable.
Context `{Platform}.

(** the worlds that a proxy started on an empty Redis and an empty cache
    directory can be in: requests are handled, the goroutines they start
    run in any order and at any later moment, each without interruption,
    the clock moves on, origins and the disk change their ways; nobody
    else writes to Redis or to the cache directory *)
Inductive reachable : World -> Prop :=
| reach_start t o d : reachable (mkWorld t ∅ ∅ o d [] [])
| reach_request w r : reachable w -> reachable (world_of (Img newWriter r w))
| reach_status w r : reachable w -> reachable (world_of (Status newWriter r w))
| reach_goroutine w before t after :
    reachable w -> pending w = before ++ t :: after ->
    reachable (world_of (run_task t (set_pending (before ++ after) w)))
| reach_clock w t : reachable w -> now w <= t -> reachable (set_now t w)
| reach_world w o d :
    reachable w ->
    reachable (mkWorld (now w) (redis w) (files w) o d (pending w) (trace w)).

(** the goroutine that was started first runs *)
Definition step_goroutine (w : World) : World :=
  match pending w with
  | [] => w
  | t :: rest => world_of (run_task t (set_pending rest w))
  end.

(** what holds of the caches in all these worlds *)
Record cache_invariant (w : World) : Prop := mkInvariant {
  inv_pending : Forall task_ok (pending w);
  inv_errors :
    forall key e reason,
      redis w !! key = Some e -> rvalue e = RString reason ->
      exists uri x,
        key = "img/err/" +:+ uri /\ negatively_cached (errors_New reason) = true
        /\ rexpiry e = Some x /\ x <= now w + 600;
  inv_metadata :
    forall key e fields,
      redis w !! key = Some e -> rvalue e = RHash fields ->
      exists v uri type,
        key = metadata_key v uri /\ is_variation v
        /\ fields = {["type" := type]} /\ image_type type /\ rexpiry e = None
        /\ is_Some (files w !! generateKeyForCache (digest_input v uri));
  inv_files :
    forall path f,
      files w !! path = Some f ->
      exists v uri, is_variation v /\ path = generateKeyForCache (digest_input v uri)
}.
End Reachable.

(** * Properties *)

(** ** The request path reads the stores and only adds to the trace and to
       the queue of goroutines *)

Lemma after_refl w : after w w.
Proof. split; try done; [exists []; by rewrite app_nil_r | by exists []]. Qed.

Lemma after_trans w1 w2 w3 : after w1 w2 -> after w2 w3 -> after w1 w3.
Proof.
  intros [? ? ? ? ? [ts1 Hp1] [ev1 Ht1]] [? ? ? ? ? [ts2 Hp2] [ev2 Ht2]].
  split; try congruence.
  - exists (ts1 ++ ts2). rewrite Hp2, Hp1. by rewrite <- app_assoc.
  - exists (ev2 ++ ev1). rewrite Ht2, Ht1. by rewrite <- app_assoc.
Qed.

Lemma reads_ret {A} (a : A) : reads (mret a).
Proof. intros w. apply after_refl. Qed.

Lemma reads_bind {A B} (m : M A) (k : A -> M B) :
  reads m -> (forall a, reads (k a)) -> reads (m ≫= k).
Proof.
  intros Hm Hk w. unfold mbind, M_bind. specialize (Hm w).
  destruct (m w) as [a w'|msg w']; simpl in *; [|done].
  eapply after_trans; [exact Hm | apply Hk].
Qed.

Lemma reads_panic {A} msg : reads (@panic A msg).
Proof. intros w. apply after_refl. Qed.

Lemma reads_gets {A} (f : World -> A) : reads (gets f).
Proof. intros w. apply after_refl. Qed.

Lemma reads_emit e : reads (emit e).
Proof. intros w. split; try done; simpl; [exists []; by rewrite app_nil_r | by exists [e]]. Qed.

Lemma reads_spawn t : reads (spawn t).
Proof. intros w. split; try done; simpl; [by exists [t] | by exists []]. Qed.

Create HintDb reads.
#[export] Hint Resolve reads_ret reads_panic reads_gets reads_emit reads_spawn : reads.

Ltac reads_step :=
  first
    [ solve [eauto with reads]
    | progress cbv zeta
    | match goal with
      | |- reads (match ?x with _ => _ end) => destruct x
      end
    | apply reads_bind; [|intros] ].

Ltac prove_reads := repeat reads_step.

Section ReadsPipeline.
Context `{Platform}.

Lemma reads_redis_Get key : reads (redis_Get key).
Proof. unfold redis_Get. prove_reads. Qed.

Lemma reads_redis_Hget key field : reads (redis_Hget key field).
Proof. unfold redis_Hget. prove_reads. Qed.

Lemma reads_os_Stat path : reads (os_Stat path).
Proof. unfold os_Stat. prove_reads. Qed.

Lemma reads_ReadFile path : reads (ioutil_ReadFile path).
Proof. unfold ioutil_ReadFile. prove_reads. Qed.

Lemma reads_http_Get uri : reads (http_Get uri).
Proof. unfold http_Get. prove_reads. Qed.

Hint Resolve reads_redis_Get reads_redis_Hget reads_os_Stat reads_ReadFile
  reads_http_Get : reads.

Lemma reads_urlStatus uri : reads (urlStatus uri).
Proof. unfold urlStatus. prove_reads. Qed.

Lemma reads_fetchImageFromCache uri variation :
  reads (fetchImageFromCache uri variation).
Proof. unfold fetchImageFromCache. prove_reads. Qed.

Hint Resolve reads_urlStatus reads_fetchImageFromCache : reads.

Lemma reads_fetchImageFromServer uri : reads (fetchImageFromServer uri).
Proof.
  unfold fetchImageFromServer, saveErrorInCache, saveImageInCache, time_Now.
  prove_reads.
Qed.

Hint Resolve reads_fetchImageFromServer : reads.

Lemma reads_fetchImage uri : reads (fetchImage uri).
Proof. unfold fetchImage. prove_reads. Qed.

Lemma reads_resizeImage uri origBody origHeaders width height :
  reads (resizeImage uri origBody origHeaders width height).
Proof. unfold resizeImage. prove_reads. Qed.

Hint Resolve reads_fetchImage reads_resizeImage : reads.

Lemma reads_fetchResizedImage uri width height :
  reads (fetchResizedImage uri width height).
Proof. unfold fetchResizedImage, saveImageInCache. prove_reads. Qed.

Hint Resolve reads_fetchResizedImage : reads.

Lemma reads_Image w r fn : reads (Image w r fn).
Proof. unfold Image. prove_reads. Qed.
End ReadsPipeline.

#[export] Hint Resolve reads_redis_Get reads_redis_Hget reads_os_Stat reads_ReadFile
  reads_http_Get reads_urlStatus reads_fetchImageFromCache reads_fetchImageFromServer
  reads_fetchImage reads_resizeImage reads_fetchResizedImage reads_Image : reads.

Lemma starts_with_emit {A B} e (f : World -> A) (k : A -> M B) :
  (forall a, reads (k a)) -> starts_with e ((emit e ≫= λ _, gets f) ≫= k).
Proof.
  intros Hk w. unfold mbind, M_bind, emit, modify, gets. simpl.
  destruct (Hk (f (set_trace (e :: trace w) w)) (set_trace (e :: trace w) w))
    as [_ _ _ _ _ _ [evs Ht]].
  exists evs. exact Ht.
Qed.

Lemma starts_with_bind {A B} e (m : M A) (k : A -> M B) :
  starts_with e m -> (forall a, reads (k a)) -> starts_with e (m ≫= k).
Proof.
  intros Hm Hk w. unfold mbind, M_bind. destruct (Hm w) as [evs Ht].
  destruct (m w) as [a w'|msg w']; simpl in *; [|by exists evs].
  destruct (Hk a w') as [_ _ _ _ _ _ [evs' Ht']].
  exists (evs' ++ evs). by rewrite Ht', Ht, <- app_assoc.
Qed.

Section StartsPipeline.
Context `{Platform}.

Lemma starts_fetchImageFromCache uri variation :
  starts_with (EvRedis "HGET" ("img/" +:+ variation +:+ "/" +:+ uri))
    (fetchImageFromCache uri variation).
Proof.
  unfold fetchImageFromCache, redis_Hget.
  apply starts_with_emit. intros r. prove_reads.
Qed.

Lemma starts_fetchResizedImage uri width height :
  starts_with
    (EvRedis "HGET" ("img/" +:+ ("resize/" +:+ fmt_d width +:+ "/" +:+ fmt_d height)
                       +:+ "/" +:+ uri))
    (fetchResizedImage uri width height).
Proof.
  unfold fetchResizedImage. apply starts_with_bind.
  - apply starts_fetchImageFromCache.
  - intros a. unfold saveImageInCache. prove_reads.
Qed.
End StartsPipeline.

(** ** The steps of the pipeline, evaluated *)

#[global] Arguments generateKeyForCache : simpl never.

Ltac run :=
  unfold mbind, M_bind, mret, M_ret, emit, spawn, modify, gets, panic, time_Now,
    set_trace, set_pending, set_redis, set_files; simpl.

Section Steps.
Context `{Platform}.

Lemma urlStatus_eq uri w :
  urlStatus uri w
    = Done (errors_New <$> live_error w uri)
           (set_trace (EvRedis "GET" ("img/err/" +:+ uri) :: trace w) w).
Proof.
  unfold urlStatus, redis_Get, live_error, redis_lookup. run.
  destruct (redis w !! _) as [e|]; [|reflexivity].
  destruct (live (now w) e); [|reflexivity].
  by destruct (rvalue e).
Qed.

Lemma fetchImageFromServer_transport uri w e :
  origin w uri = GetErr e ->
  fetchImageFromServer uri w
    = Done (zeroHeaders, [], Some (foreign e)) (set_trace (EvHttpGet uri :: trace w) w).
Proof. intros E. unfold fetchImageFromServer, http_Get. run. by rewrite E. Qed.

Lemma fetchImageFromServer_status uri w res :
  origin w uri = GetOk res -> StatusCode res <> 200 ->
  fetchImageFromServer uri w
    = Done (zeroHeaders, [], Some (errors_New "Unexpected status code"))
           (set_pending (pending w ++ [SaveError uri (errors_New "Unexpected status code")])
              (set_trace (EvHttpGet uri :: trace w) w)).
Proof.
  intros E Hs. unfold fetchImageFromServer, http_Get, saveErrorInCache. run. rewrite E.
  apply Z.eqb_neq in Hs. by rewrite Hs.
Qed.

Lemma fetchImageFromServer_read uri w res partial e :
  origin w uri = GetOk res -> StatusCode res = 200 -> Body res = ReadErr partial e ->
  fetchImageFromServer uri w
    = Done (zeroHeaders, partial, Some (foreign e)) (set_trace (EvHttpGet uri :: trace w) w).
Proof.
  intros E Hs Hb. unfold fetchImageFromServer, http_Get. run. rewrite E, Hs, Hb.
  reflexivity.
Qed.

Lemma fetchImageFromServer_size uri w res body :
  origin w uri = GetOk res -> StatusCode res = 200 -> Body res = ReadOk body ->
  ContentLength res > maxSize ->
  fetchImageFromServer uri w
    = Done (zeroHeaders, body, Some (errors_New "Exceeded max size"))
           (set_pending (pending w ++ [SaveError uri (errors_New "Exceeded max size")])
              (set_trace (EvHttpGet uri :: trace w) w)).
Proof.
  intros E Hs Hb Hl. unfold fetchImageFromServer, http_Get, saveErrorInCache. run.
  rewrite E, Hs, Hb. simpl.
  replace (ContentLength res >? maxSize) with true by (symmetry; rewrite Z.gtb_ltb; lia).
  reflexivity.
Qed.

Lemma fetchImageFromServer_short uri w res body :
  origin w uri = GetOk res -> StatusCode res = 200 -> Body res = ReadOk body ->
  ContentLength res <= maxSize ->
  (String.length (HeaderContentType res) < 5)%nat ->
  fetchImageFromServer uri w
    = Panicked "runtime error: slice bounds out of range"
               (set_trace (EvHttpGet uri :: trace w) w).
Proof.
  intros E Hs Hb Hl Hc. unfold fetchImageFromServer, http_Get. run.
  rewrite E, Hs, Hb. simpl.
  replace (ContentLength res >? maxSize) with false by (symmetry; rewrite Z.gtb_ltb; lia).
  unfold slice.
  replace (5 <=? String.length (HeaderContentType res))%nat with false
    by (symmetry; apply Nat.leb_gt; lia).
  reflexivity.
Qed.

Lemma fetchImageFromServer_type uri w res body prefix :
  origin w uri = GetOk res -> StatusCode res = 200 -> Body res = ReadOk body ->
  ContentLength res <= maxSize ->
  slice (HeaderContentType res) 0 5 = Some prefix -> prefix <> "image" ->
  fetchImageFromServer uri w
    = Done (zeroHeaders, body, Some (errors_New "Invalid content-type"))
           (set_pending (pending w ++ [SaveError uri (errors_New "Invalid content-type")])
              (set_trace (EvHttpGet uri :: trace w) w)).
Proof.
  intros E Hs Hb Hl Hc Hp. unfold fetchImageFromServer, http_Get, saveErrorInCache. run.
  rewrite E, Hs, Hb. simpl.
  replace (ContentLength res >? maxSize) with false by (symmetry; rewrite Z.gtb_ltb; lia).
  rewrite Hc. apply String.eqb_neq in Hp. by rewrite Hp.
Qed.

Lemma fetchImageFromServer_ok uri w res body :
  origin w uri = GetOk res -> StatusCode res = 200 -> Body res = ReadOk body ->
  ContentLength res <= maxSize ->
  slice (HeaderContentType res) 0 5 = Some "image" ->
  let headers := mkHeaders (HeaderContentType res) (RFC1123 (now w)) "" in
  fetchImageFromServer uri w
    = Done (headers, body, None)
           (set_pending
              (pending w ++
                 (if live_error w uri is Some _ then []
                  else [SaveImage uri "orig" headers body]))
              (set_trace (EvRedis "GET" ("img/err/" +:+ uri) :: EvHttpGet uri :: trace w) w)).
Proof.
  intros E Hs Hb Hl Hc headers.
  unfold fetchImageFromServer, http_Get, saveImageInCache.
  unfold mbind at 1 2, M_bind at 1 2, emit, modify, gets. simpl. rewrite E, Hs, Hb. simpl.
  replace (ContentLength res >? maxSize) with false by (symmetry; rewrite Z.gtb_ltb; lia).
  rewrite Hc. simpl. unfold time_Now, gets.
  unfold mbind at 1, M_bind at 1. unfold mbind at 1, M_bind at 1.
  rewrite urlStatus_eq.
  change (live_error (set_trace _ w) uri) with (live_error w uri) at 1.
  destruct (live_error w uri); run; [|reflexivity].
  by rewrite app_nil_r.
Qed.
End Steps.

(** ** IEEE-754 binary64: conversion, division and floor on the values the
       resize engine meets *)

Lemma digits2_pos_size p : digits2_pos p = Pos.size p.
Proof. induction p; simpl; congruence. Qed.

Lemma digits2_pos_bounds p :
  2 ^ (Z.pos (digits2_pos p) - 1) <= Z.pos p < 2 ^ Z.pos (digits2_pos p).
Proof.
  rewrite digits2_pos_size. split.
  - pose proof (Pos.size_le p) as Hle.
    assert (H2 : 2 ^ Z.pos (Pos.size p) <= 2 * Z.pos p).
    { change (2 * Z.pos p) with (Z.pos p~0). rewrite <- Pos2Z.inj_pow. by apply Pos2Z.pos_le_pos. }
    replace (Z.pos (Pos.size p)) with (Z.pos (Pos.size p) - 1 + 1) in H2 by lia.
    rewrite Z.pow_add_r in H2 by lia. lia.
  - pose proof (Pos.size_gt p) as Hgt.
    change 2 with (Z.pos 2). rewrite <- Pos2Z.inj_pow. by apply Pos2Z.pos_lt_pos.
Qed.

Lemma Zdigits2_unique z d :
  0 < d -> 2 ^ (d - 1) <= z < 2 ^ d -> Zdigits2 z = d.
Proof.
  intros Hd [Hlo Hhi].
  assert (Hz : 0 < z) by (pose proof (Z.pow_pos_nonneg 2 (d - 1)); lia).
  destruct z as [|p|p]; try lia. simpl.
  pose proof (digits2_pos_bounds p) as [Hl Hu].
  set (d' := Z.pos (digits2_pos p)) in *.
  destruct (Z.lt_trichotomy d' d) as [Hlt | [Heq | Hgt]]; [|done|].
  - assert (2 ^ d' <= 2 ^ (d - 1)) by (apply Z.pow_le_mono_r; lia). lia.
  - assert (2 ^ d <= 2 ^ (d' - 1)) by (apply Z.pow_le_mono_r; lia). lia.
Qed.

Lemma new_location_rel D r : 0 < D -> 0 <= r < D -> loc_rel D r (new_location D r).
Proof.
  intros HD Hr. unfold new_location, new_location_even, new_location_odd.
  destruct (Z.even D) eqn:Ev; destruct (Z.eqb_spec r 0) as [->|Hne]; simpl; try done.
  - destruct (Z.compare_spec (2 * r) D); simpl; lia.
  - assert (Hodd : Z.odd D = true) by (rewrite <- Z.negb_even, Ev; done).
    apply Z.odd_spec in Hodd as [c Hc].
    destruct (Z.compare_spec (2 * r + 1) D); simpl; lia.
Qed.

Lemma shr_1_pos m r s :
  0 < m -> shr_1 (Build_shr_record m r s) = Build_shr_record (m / 2) (Z.odd m) (r || s).
Proof.
  intros Hm. destruct m as [|[p|p|]|]; try lia; simpl.
  - f_equal. rewrite Pos2Z.inj_xI. apply (Z.div_unique_pos _ _ _ 1); lia.
  - f_equal. rewrite Pos2Z.inj_xO. apply (Z.div_unique_pos _ _ _ 0); lia.
  - reflexivity.
Qed.

Lemma fexp_normal z : -1021 <= z -> fexp 53 1024 z = z - 53.
Proof. intros Hz. unfold fexp, emin. lia. Qed.

(** the second normalisation of [binary_round_aux]: a mantissa that the
    rounding carried to [2^53] is shifted once *)
Lemma shr_fexp_exact m e :
  2 ^ 52 <= m <= 2 ^ 53 -> -1074 <= e ->
  exists m3 c,
    shr_fexp 53 1024 m e loc_Exact = (Build_shr_record (Z.pos m3) false false, e + c)
    /\ (c = 0 \/ c = 1) /\ 2 ^ 52 <= Z.pos m3 < 2 ^ 53 /\ m = 2 ^ c * Z.pos m3.
Proof.
  intros Hm He. unfold shr_fexp.
  destruct (Z.eq_dec m (2 ^ 53)) as [->|Hne].
  - rewrite (Zdigits2_unique (2 ^ 53) 54) by lia.
    rewrite fexp_normal by lia.
    replace (54 + e - 53 - e) with 1 by lia.
    exists (2 ^ 52)%positive, 1. simpl. split; [reflexivity|]. lia.
  - rewrite (Zdigits2_unique m 53) by lia.
    rewrite fexp_normal by lia.
    replace (53 + e - 53 - e) with 0 by lia.
    destruct m as [|p|p]; try lia.
    exists p, 0. simpl. rewrite Z.add_0_r. split; [reflexivity|]. lia.
Qed.

Lemma binary_round_aux_finish m e :
  2 ^ 52 <= m <= 2 ^ 53 -> -1074 <= e -> e + 1 <= 971 ->
  exists m3 c,
    (let '(mrs, e') := shr_fexp 53 1024 m e loc_Exact in
     match shr_m mrs with
     | Z0 => S754_zero false
     | Zpos m' => if Z.leb e' (1024 - 53) then S754_finite false m' e' else S754_infinity false
     | Zneg _ => S754_nan
     end) = S754_finite false m3 (e + c)
    /\ (c = 0 \/ c = 1) /\ 2 ^ 52 <= Z.pos m3 < 2 ^ 53 /\ m = 2 ^ c * Z.pos m3.
Proof.
  intros Hm He Hmax.
  destruct (shr_fexp_exact m e Hm He) as (m3 & c & -> & Hc & Hm3 & Hval).
  exists m3, c. simpl.
  replace (e + c <=? 1024 - 53) with true by (symmetry; apply Z.leb_le; lia).
  done.
Qed.

Lemma binary_round_aux_spec q e l D r N :
  0 < D -> 0 <= r < D -> N = q * D + r -> loc_rel D r l ->
  2 ^ 52 <= q < 2 ^ 54 -> -1074 <= e -> e + 2 <= 971 ->
  exists m3 k,
    binary_round_aux 53 1024 false q e l = S754_finite false m3 (e + k)
    /\ 0 <= k <= 2
    /\ 2 ^ 52 <= Z.pos m3 < 2 ^ 53
    /\ 2 * Z.abs (2 ^ k * Z.pos m3 * D - N) <= 2 ^ k * D.
Proof.
  intros HD Hr HN Hl Hq He Hmax. unfold binary_round_aux.
  destruct (Z_lt_le_dec q (2 ^ 53)) as [Hlt|Hge].
  - (* the quotient has 53 digits: no shift *)
    assert (E1 : shr_fexp 53 1024 q e l = (shr_record_of_loc q l, e)).
    { unfold shr_fexp. rewrite (Zdigits2_unique q 53) by lia.
      rewrite fexp_normal by lia. replace (53 + e - 53 - e) with 0 by lia. reflexivity. }
    rewrite E1.
    assert (E2 : loc_of_shr_record (shr_record_of_loc q l) = l) by (by destruct l as [|[]]).
    assert (E3 : shr_m (shr_record_of_loc q l) = q) by (by destruct l as [|[]]).
    rewrite E2, E3.
    set (mr := round_nearest_even q l).
    assert (Hmr : (mr = q \/ mr = q + 1) /\ 2 * Z.abs (mr * D - N) <= D).
    { subst mr. destruct l as [|[]]; simpl in *.
      - split; [by left|]. lia.
      - destruct Hl. destruct (Z.even q); (split; [auto|]); lia.
      - split; [by left|]. lia.
      - split; [by right|]. lia. }
    destruct Hmr as [Hmr Herr].
    destruct (binary_round_aux_finish mr e) as (m3 & c & -> & Hc & Hm3 & Hval); try lia.
    exists m3, c. split; [reflexivity|]. split; [lia|]. split; [lia|].
    rewrite <- Z.mul_assoc, (Z.mul_assoc (2 ^ c)), <- Hval.
    destruct Hc as [-> | ->]; lia.
  - (* the quotient has 54 digits: one shift *)
    assert (E1 : shr_fexp 53 1024 q e l
                 = (Build_shr_record (q / 2) (Z.odd q)
                      (match l with loc_Exact => false | _ => true end), e + 1)).
    { unfold shr_fexp. rewrite (Zdigits2_unique q 54) by lia.
      rewrite fexp_normal by lia. replace (54 + e - 53 - e) with 1 by lia.
      unfold shr. simpl iter_pos.
      destruct l as [|[]]; simpl shr_record_of_loc; rewrite shr_1_pos by lia; reflexivity. }
    rewrite E1. simpl shr_m.
    pose proof (Z.div_mod q 2 ltac:(lia)) as Hdm.
    rewrite Zmod_odd in Hdm.
    set (h := q / 2) in *.
    assert (Hh : 2 ^ 52 <= h < 2 ^ 53) by (destruct (Z.odd q); lia).
    set (l' := loc_of_shr_record _).
    set (mr := round_nearest_even h l').
    assert (Hmr : (mr = h \/ mr = h + 1) /\ 2 * Z.abs (2 * mr * D - N) <= 2 * D).
    { subst mr l'. destruct (Z.odd q); destruct l as [|[]]; simpl in *;
        try (destruct (Z.even h));
        first [ split; [by left|]; lia | split; [by right|]; lia ]. }
    destruct Hmr as [Hmr Herr].
    destruct (binary_round_aux_finish mr (e + 1)) as (m3 & c & -> & Hc & Hm3 & Hval); try lia.
    exists m3, (1 + c). split; [f_equal; lia|]. split; [lia|]. split; [lia|].
    rewrite Z.pow_add_r by lia. change (2 ^ 1) with 2.
    replace (2 * 2 ^ c * Z.pos m3 * D) with (2 * (2 ^ c * Z.pos m3) * D) by ring.
    rewrite <- Hval.
    destruct Hc as [-> | ->]; lia.
Qed.

Lemma SFdiv_canonical m1 e1 m2 e2 :
  canonical m1 -> canonical m2 ->
  -1074 <= e1 - e2 - 53 -> e1 - e2 - 53 + 2 <= 971 ->
  exists m3 k,
    SFdiv 53 1024 (S754_finite false m1 e1) (S754_finite false m2 e2)
      = S754_finite false m3 (e1 - e2 - 53 + k)
    /\ 0 <= k <= 2
    /\ canonical m3
    /\ 2 * Z.abs (2 ^ k * Z.pos m3 * Z.pos m2 - Z.pos m1 * 2 ^ 53) <= 2 ^ k * Z.pos m2.
Proof.
  unfold canonical. intros H1 H2 Hlo Hhi.
  unfold SFdiv, SFdiv_core_binary.
  rewrite (Zdigits2_unique (Z.pos m1) 53), (Zdigits2_unique (Z.pos m2) 53) by lia.
  rewrite fexp_normal by lia.
  replace (Z.min (53 + e1 - (53 + e2) - 53) (e1 - e2)) with (e1 - e2 - 53) by lia.
  replace (e1 - e2 - (e1 - e2 - 53)) with 53 by lia.
  cbv zeta beta iota.
  rewrite Z.shiftl_mul_pow2 by lia.
  pose proof (Z_div_mod (Z.pos m1 * 2 ^ 53) (Z.pos m2) ltac:(lia)) as Hdm.
  destruct (Z.div_eucl (Z.pos m1 * 2 ^ 53) (Z.pos m2)) as [q r].
  destruct Hdm as [HN Hr].
  assert (Hq : 2 ^ 52 <= q < 2 ^ 54).
  { split.
    - destruct (Z_lt_le_dec q (2 ^ 52)) as [Hlt|]; [exfalso|done].
      assert (Z.pos m2 * (q + 1) <= Z.pos m2 * 2 ^ 52)
        by (apply Z.mul_le_mono_nonneg_l; lia).
      assert (2 ^ 52 * 2 ^ 53 <= Z.pos m1 * 2 ^ 53)
        by (apply Z.mul_le_mono_nonneg_r; lia).
      assert (Z.pos m2 * 2 ^ 52 < 2 ^ 53 * 2 ^ 52)
        by (apply Z.mul_lt_mono_pos_r; lia).
      lia.
    - destruct (Z_lt_le_dec q (2 ^ 54)) as [|Hge]; [done|exfalso].
      assert (Z.pos m2 * 2 ^ 54 <= Z.pos m2 * q)
        by (apply Z.mul_le_mono_nonneg_l; lia).
      assert (2 ^ 52 * 2 ^ 54 <= Z.pos m2 * 2 ^ 54)
        by (apply Z.mul_le_mono_nonneg_r; lia).
      assert (Z.pos m1 * 2 ^ 53 < 2 ^ 53 * 2 ^ 53)
        by (apply Z.mul_lt_mono_pos_r; lia).
      lia. }
  destruct (binary_round_aux_spec q (e1 - e2 - 53) (new_location (Z.pos m2) r)
              (Z.pos m2) r (Z.pos m1 * 2 ^ 53))
    as (m3 & k & E & Hk & Hm3 & Herr); try lia.
  { by apply new_location_rel. }
  exists m3, k. simpl xorb. by rewrite E.
Qed.

Lemma binary_round_aux_exact m e :
  canonical m -> -1074 <= e <= 971 ->
  binary_round_aux 53 1024 false (Z.pos m) e loc_Exact = S754_finite false m e.
Proof.
  unfold canonical. intros Hm He.
  assert (E : shr_fexp 53 1024 (Z.pos m) e loc_Exact
              = (Build_shr_record (Z.pos m) false false, e)).
  { unfold shr_fexp. rewrite (Zdigits2_unique (Z.pos m) 53) by lia.
    rewrite fexp_normal by lia. replace (53 + e - 53 - e) with 0 by lia. reflexivity. }
  unfold binary_round_aux. rewrite E. simpl. rewrite E. simpl.
  replace (e <=? 1024 - 53) with true by (symmetry; apply Z.leb_le; lia).
  reflexivity.
Qed.

Lemma iter_xO p k : Z.pos (Pos.iter xO p k) = Z.pos p * 2 ^ Z.pos k.
Proof.
  induction k as [|k IH] using Pos.peano_ind.
  - simpl. lia.
  - rewrite Pos.iter_succ, Pos2Z.inj_xO, IH, Pos2Z.inj_succ, Z.pow_succ_r by lia. ring.
Qed.

Lemma of_int_pos p :
  0 < p < 2 ^ 53 ->
  exists m s,
    binary_normalize 53 1024 p 0 false = S754_finite false m (- s)
    /\ 0 <= s <= 52 /\ canonical m /\ Z.pos m = p * 2 ^ s.
Proof.
  intros Hp. destruct p as [|p|p]; try lia.
  unfold binary_normalize, binary_round.
  pose proof (digits2_pos_bounds p) as [Hl Hu].
  set (d := Z.pos (digits2_pos p)) in *.
  assert (Hd : 1 <= d <= 53).
  { split; [lia|]. destruct (Z_le_gt_dec d 53) as [|Hgt]; [done|exfalso].
    assert (2 ^ 53 <= 2 ^ (d - 1)) by (apply Z.pow_le_mono_r; lia). lia. }
  rewrite fexp_normal by lia. unfold shl_align.
  assert (Hshift : exists m s,
    (match d + 0 - 53 - 0 with
     | Z.neg k => (Pos.iter xO p k, d + 0 - 53)
     | _ => (p, 0)
     end) = (m, - s) /\ 0 <= s <= 52 /\ Z.pos m = Z.pos p * 2 ^ s /\ s = 53 - d).
  { destruct (d + 0 - 53 - 0) as [|k|k] eqn:Ek; try lia.
    - exists p, 0. split; [done|]. lia.
    - exists (Pos.iter xO p k), (Z.pos k). split; [f_equal; lia|].
      split; [lia|]. split; [apply iter_xO | lia]. }
  destruct Hshift as (m & s & -> & Hs & Hm & Hsd).
  assert (Hc : canonical m).
  { unfold canonical. rewrite Hm. subst s. split.
    - replace 52 with (d - 1 + (53 - d)) by lia. rewrite Z.pow_add_r by lia.
      apply Z.mul_le_mono_nonneg_r; lia.
    - replace 53 with (d + (53 - d)) at 2 by lia. rewrite Z.pow_add_r by lia.
      apply Z.mul_lt_mono_pos_r; [apply Z.pow_pos_nonneg|]; lia. }
  exists m, s. rewrite binary_round_aux_exact by (done || lia). done.
Qed.

Lemma of_int_ltb a b :
  0 < a < 2 ^ 53 -> 0 < b < 2 ^ 53 ->
  SFltb (Float64.of_int a) (Float64.of_int b) = (a <? b).
Proof.
  intros Ha Hb. unfold Float64.of_int, Float64.prec, Float64.emax.
  destruct (of_int_pos a Ha) as (ma & sa & -> & Hsa & Hca & Hma).
  destruct (of_int_pos b Hb) as (mb & sb & -> & Hsb & Hcb & Hmb).
  unfold canonical in *. unfold SFltb, SFcompare.
  destruct (Z.compare_spec (- sa) (- sb)) as [Heq|Hlt|Hgt].
  - assert (sa = sb) by lia. subst sb.
    rewrite Pos.compare_cont_spec. simpl.
    rewrite Pos2Z.inj_compare, Hma, Hmb.
    rewrite <- (Zmult_compare_compat_r a b (2 ^ sa))
      by (apply Z.lt_gt, Z.pow_pos_nonneg; lia).
    unfold Z.ltb. by destruct (a ?= b).
  - symmetry. apply Z.ltb_lt.
    assert (Hp : 2 * 2 ^ sb <= 2 ^ sa).
    { replace sa with (sa - sb - 1 + 1 + sb) by lia.
      rewrite !Z.pow_add_r by lia. change (2 ^ 1) with 2.
      assert (0 < 2 ^ (sa - sb - 1)) by (apply Z.pow_pos_nonneg; lia).
      assert (0 < 2 ^ sb) by (apply Z.pow_pos_nonneg; lia). nia. }
    assert (0 < 2 ^ sb) by (apply Z.pow_pos_nonneg; lia). nia.
  - symmetry. apply Z.ltb_ge.
    assert (Hp : 2 * 2 ^ sa <= 2 ^ sb).
    { replace sb with (sb - sa - 1 + 1 + sa) by lia.
      rewrite !Z.pow_add_r by lia. change (2 ^ 1) with 2.
      assert (0 < 2 ^ (sb - sa - 1)) by (apply Z.pow_pos_nonneg; lia).
      assert (0 < 2 ^ sa) by (apply Z.pow_pos_nonneg; lia). nia. }
    assert (0 < 2 ^ sa) by (apply Z.pow_pos_nonneg; lia). nia.
Qed.

Lemma Max_of_int a b :
  0 < a < 2 ^ 53 -> 0 < b < 2 ^ 53 ->
  Float64.Max (Float64.of_int a) (Float64.of_int b) = Float64.of_int (Z.max a b).
Proof.
  intros Ha Hb. unfold Float64.Max. rewrite (of_int_ltb b a Hb Ha).
  unfold Float64.of_int, Float64.prec, Float64.emax.
  destruct (of_int_pos a Ha) as (ma & sa & Ea & _).
  destruct (of_int_pos b Hb) as (mb & sb & Eb & _).
  rewrite Ea, Eb. simpl.
  destruct (Z.ltb_spec b a).
  - by rewrite Z.max_l, Ea by lia.
  - by rewrite Z.max_r, Eb by lia.
Qed.

Lemma Min_of_int a b :
  0 < a < 2 ^ 53 -> 0 < b < 2 ^ 53 ->
  Float64.Min (Float64.of_int a) (Float64.of_int b) = Float64.of_int (Z.min a b).
Proof.
  intros Ha Hb. unfold Float64.Min. rewrite (of_int_ltb a b Ha Hb).
  unfold Float64.of_int, Float64.prec, Float64.emax.
  destruct (of_int_pos a Ha) as (ma & sa & Ea & _).
  destruct (of_int_pos b Hb) as (mb & sb & Eb & _).
  rewrite Ea, Eb. simpl.
  destruct (Z.ltb_spec a b).
  - by rewrite Z.min_l, Ea by lia.
  - by rewrite Z.min_r, Eb by lia.
Qed.

Lemma int_of_float_Floor `{Platform} m e :
  canonical m -> -1074 <= e < 0 ->
  int_of_float (Float64.Floor (S754_finite false m e)) = Z.pos m / 2 ^ (- e).
Proof.
  unfold canonical. intros Hm He. unfold Float64.Floor.
  replace (0 <=? e) with false by (symmetry; apply Z.leb_gt; lia).
  rewrite Z.shiftr_div_pow2 by lia.
  assert (Hpow : 0 < 2 ^ (- e)) by (apply Z.pow_pos_nonneg; lia).
  set (q := Z.pos m / 2 ^ (- e)).
  assert (Hq : 0 <= q < 2 ^ 53).
  { split; [apply Z.div_pos; lia|].
    apply Z.div_lt_upper_bound; [lia|]. 
    assert (2 ^ 53 * 1 <= 2 ^ (- e) * 2 ^ 53) by nia. lia. }
  clearbody q.
  destruct (Z.eq_dec q 0) as [->|Hne]; [reflexivity|].
  unfold Float64.prec, Float64.emax.
  destruct (of_int_pos q ltac:(lia)) as (mq & s & -> & Hs & Hc & Hmq).
  unfold int_of_float, Float64.trunc.
  assert (Hv : (if 0 <=? - s then Z.shiftl (Z.pos mq) (- s) else Z.shiftr (Z.pos mq) (- - s)) = q).
  { destruct (Z.leb_spec 0 (- s)).
    - assert (s = 0) by lia. subst s. rewrite Z.shiftl_0_r, Hmq. change (2 ^ 0) with 1. lia.
    - rewrite Z.shiftr_div_pow2 by lia. rewrite Hmq, Z.opp_involutive.
      apply Z.div_mul. apply Z.pow_nonzero; lia. }
  rewrite Hv.
  replace ((- 2 ^ 63 <=? q) && (q <? 2 ^ 63)) with true; [done|].
  symmetry. apply andb_true_iff. split; [apply Z.leb_le | apply Z.ltb_lt]; lia.
Qed.

Lemma pow2_IZR s : 0 <= s -> IZR (2 ^ s) = powerRZ 2 s.
Proof.
  intros Hs. rewrite <- (Z2Nat.id s Hs), <- pow_powerRZ, pow_IZR. reflexivity.
Qed.

Lemma pow2_pos e : (0 < powerRZ 2 e)%R.
Proof. apply powerRZ_lt. lra. Qed.

Lemma F2R_pos m e : (0 < F2R m e)%R.
Proof.
  unfold F2R. apply Rmult_lt_0_compat; [|apply pow2_pos].
  apply IZR_lt. lia.
Qed.

Lemma F2R_int m p s : Z.pos m = p * 2 ^ s -> 0 <= s -> F2R m (- s) = IZR p.
Proof.
  intros Hm Hs. unfold F2R. rewrite Hm, mult_IZR, pow2_IZR, powerRZ_neg' by done.
  field. apply powerRZ_NOR. lra.
Qed.

(** the quotient of two floats is within half a unit in the last place of
    the float that [SFdiv] gives: relative to it, within [2^-53] *)
Lemma F2R_div_error m1 e1 m2 e2 m3 k :
  canonical m3 -> 0 <= k ->
  2 * Z.abs (2 ^ k * Z.pos m3 * Z.pos m2 - Z.pos m1 * 2 ^ 53) <= 2 ^ k * Z.pos m2 ->
  let X := F2R m1 e1 in
  let Y := F2R m2 e2 in
  let Q := F2R m3 (e1 - e2 - 53 + k) in
  ((IZR (2 ^ 53) - 1) * (Q * Y) <= IZR (2 ^ 53) * X
   /\ IZR (2 ^ 53) * X <= (IZR (2 ^ 53) + 1) * (Q * Y))%R.
Proof.
  intros Hm3 Hk Herr X Y Q. unfold canonical in Hm3.
  set (T := 2 ^ k * Z.pos m3 * Z.pos m2 - Z.pos m1 * 2 ^ 53) in *.
  assert (Hpk : 0 < 2 ^ k) by (apply Z.pow_pos_nonneg; lia).
  assert (HT : - (2 ^ k * Z.pos m2) <= 2 * T <= 2 ^ k * Z.pos m2) by lia.
  assert (Hbig : 2 ^ 52 * (2 ^ k * Z.pos m2) <= 2 ^ k * Z.pos m3 * Z.pos m2) by nia.
  (* c = 2^e1 / 2^53 *)
  set (A := powerRZ 2 e1). set (B := powerRZ 2 e2).
  assert (HA : (0 < A)%R) by apply pow2_pos.
  assert (HB : (0 < B)%R) by apply pow2_pos.
  assert (HQ : (Q * IZR (2 ^ 53) * B = IZR (Z.pos m3) * IZR (2 ^ k) * A)%R).
  { unfold Q, F2R. replace (e1 - e2 - 53 + k) with (e1 + (- e2 + (- (53) + k))) by lia.
    rewrite !powerRZ_add by lra. rewrite !powerRZ_neg'.
    rewrite <- (pow2_IZR 53), <- (pow2_IZR k) by lia.
    fold A B. field. split; [apply not_0_IZR; lia | lra]. }
  assert (HQY : (Q * Y * IZR (2 ^ 53) = IZR (2 ^ k * Z.pos m3 * Z.pos m2) * A)%R).
  { unfold Y, F2R. fold B. rewrite !mult_IZR.
    transitivity (Q * IZR (2 ^ 53) * B * IZR (Z.pos m2))%R; [ring|].
    rewrite HQ. ring. }
  assert (HX : (X * IZR (2 ^ 53) = IZR (Z.pos m1 * 2 ^ 53) * A)%R).
  { unfold X, F2R. fold A. rewrite mult_IZR. ring. }
  assert (HD : (Q * Y * IZR (2 ^ 53) - X * IZR (2 ^ 53) = IZR T * A)%R).
  { rewrite HQY, HX. unfold T. rewrite minus_IZR. ring. }
  assert (HT1 : (- IZR (2 ^ k * Z.pos m2) <= 2 * IZR T)%R).
  { rewrite <- opp_IZR. change 2%R with (IZR 2). rewrite <- mult_IZR. apply IZR_le. lia. }
  assert (HT2 : (2 * IZR T <= IZR (2 ^ k * Z.pos m2))%R).
  { change 2%R with (IZR 2). rewrite <- mult_IZR. apply IZR_le. lia. }
  assert (Hb : (IZR (2 ^ 52) * IZR (2 ^ k * Z.pos m2) <= IZR (2 ^ k * Z.pos m3 * Z.pos m2))%R).
  { rewrite <- mult_IZR. apply IZR_le. lia. }
  assert (H53 : IZR (2 ^ 53) = (2 * IZR (2 ^ 52))%R).
  { change 2%R with (IZR 2) at 1. rewrite <- mult_IZR. reflexivity. }
  assert (H52 : (0 < IZR (2 ^ 52))%R) by (apply IZR_lt; lia).
  set (W := IZR (2 ^ k * Z.pos m2)) in *.
  set (V := IZR (2 ^ k * Z.pos m3 * Z.pos m2)) in *.
  set (U := IZR (2 ^ 53)) in *. set (U2 := IZR (2 ^ 52)) in *.
  assert (HW : (0 < W)%R) by (apply IZR_lt; nia).
  (* Q*Y*U = V*A,  X*U = V*A - T*A,  |T| <= W/2,  U2*W <= V *)
  assert (E1 : (U * (Q * Y) = V * A)%R) by (rewrite <- HQY; ring).
  assert (E2 : (U * X = V * A - IZR T * A)%R) by lra.
  split.
  - (* (U-1) Q Y <= U X  <=>  T*A*U <= V*A  *)
    apply (Rmult_le_reg_l U); [lra|].
    replace (U * ((U - 1) * (Q * Y)))%R with ((U - 1) * (U * (Q * Y)))%R by ring.
    rewrite E1, E2. 
    assert (2 * IZR T * A * U <= 2 * V * A)%R; [|lra].
    assert (2 * IZR T * (A * U) <= W * (A * U))%R
      by (apply Rmult_le_compat_r; [apply Rmult_le_pos; lra | done]).
    assert (W * (A * U) = 2 * (U2 * W) * A)%R by (rewrite H53; ring).
    assert (2 * (U2 * W) * A <= 2 * V * A)%R.
    { apply Rmult_le_compat_r; [lra|]. lra. }
    lra.
  - apply (Rmult_le_reg_l U); [lra|].
    replace (U * ((U + 1) * (Q * Y)))%R with ((U + 1) * (U * (Q * Y)))%R by ring.
    rewrite E1, E2.
    assert (- (2 * IZR T) * (A * U) <= W * (A * U))%R
      by (apply Rmult_le_compat_r; [apply Rmult_le_pos; lra | lra]).
    assert (W * (A * U) = 2 * (U2 * W) * A)%R by (rewrite H53; ring).
    assert (2 * (U2 * W) * A <= 2 * V * A)%R.
    { apply Rmult_le_compat_r; [lra|]. lra. }
    lra.
Qed.

Lemma F2R_floor m e n :
  e < 0 -> n = Z.pos m / 2 ^ (- e) -> (IZR n <= F2R m e < IZR n + 1)%R.
Proof.
  intros He Hn.
  assert (HD : 0 < 2 ^ (- e)) by (apply Z.pow_pos_nonneg; lia).
  pose proof (Z.div_mod (Z.pos m) (2 ^ (- e)) ltac:(lia)) as Hdm.
  pose proof (Z.mod_pos_bound (Z.pos m) (2 ^ (- e)) HD) as Hmod.
  rewrite <- Hn in Hdm.
  set (D := IZR (2 ^ (- e))).
  assert (HDpos : (0 < D)%R) by (apply IZR_lt; lia).
  assert (HF : (F2R m e * D = IZR (Z.pos m))%R).
  { unfold F2R, D. rewrite pow2_IZR by lia. rewrite powerRZ_neg'.
    field. apply powerRZ_NOR. lra. }
  assert (H1 : (D * IZR n <= IZR (Z.pos m))%R).
  { unfold D. rewrite <- mult_IZR. apply IZR_le. lia. }
  assert (H2 : (IZR (Z.pos m) < D * (IZR n + 1))%R).
  { unfold D. change 1%R with (IZR 1). rewrite <- plus_IZR, <- mult_IZR. apply IZR_lt. lia. }
  split.
  - apply (Rmult_le_reg_l D); [done|]. lra.
  - apply (Rmult_lt_reg_l D); [done|]. lra.
Qed.

Lemma F2R_small_exponent m e : canonical m -> (F2R m e < IZR (2 ^ 52))%R -> e < 0.
Proof.
  unfold canonical. intros Hm Hlt.
  destruct (Z_lt_le_dec e 0) as [|He]; [done|exfalso].
  assert (H1 : (1 <= powerRZ 2 e)%R).
  { rewrite <- pow2_IZR by done. apply IZR_le.
    assert (0 < 2 ^ e) by (apply Z.pow_pos_nonneg; lia). lia. }
  assert (H2 : (IZR (2 ^ 52) <= IZR (Z.pos m))%R) by (apply IZR_le; lia).
  assert (H3 : (0 < IZR (2 ^ 52))%R) by (apply IZR_lt; lia).
  unfold F2R in Hlt.
  assert (IZR (Z.pos m) * 1 <= IZR (Z.pos m) * powerRZ 2 e)%R
    by (apply Rmult_le_compat_l; lra).
  lra.
Qed.

(** the dimension that [resizeImage] computes from [a], one of the two
    original dimensions, [M] the larger of them and [m] the smaller of the
    two target dimensions: the floor of [a * m / M], or one less when [M]
    divides [a * m] *)
Lemma downscale_dimension `{Platform} a M m :
  0 < a <= M -> 0 < m -> M * m <= 2 ^ 50 ->
  let ratio := Float64.div (Float64.of_int M) (Float64.of_int m) in
  let n := int_of_float (Float64.Floor (Float64.div (Float64.of_int a) ratio)) in
  n = a * m / M \/ (n = a * m / M - 1 /\ (a * m) mod M = 0).
Proof.
  intros Ha Hm Hbound ratio n.
  assert (HMm : M * 1 <= M * m) by (apply Z.mul_le_mono_nonneg_l; lia).
  assert (Hmm : 1 * m <= M * m) by (apply Z.mul_le_mono_nonneg_r; lia).
  assert (Ham : a * m <= M * m) by (apply Z.mul_le_mono_nonneg_r; lia).
  assert (Ham0 : 0 < a * m) by (apply Z.mul_pos_pos; lia).
  destruct (of_int_pos M ltac:(lia)) as (mM & sM & EM & HsM & HcM & HvM).
  destruct (of_int_pos m ltac:(lia)) as (mm & sm & Em & Hsm & Hcm & Hvm).
  destruct (of_int_pos a ltac:(lia)) as (ma & sa & Ea & Hsa & Hca & Hva).
  destruct (SFdiv_canonical mM (- sM) mm (- sm) HcM Hcm ltac:(lia) ltac:(lia))
    as (m3 & k1 & E3 & Hk1 & Hc3 & Herr1).
  destruct (SFdiv_canonical ma (- sa) m3 (- sM - - sm - 53 + k1) Hca Hc3 ltac:(lia) ltac:(lia))
    as (m4 & k2 & E4 & Hk2 & Hc4 & Herr2).
  set (e3 := - sM - - sm - 53 + k1) in *.
  set (e4 := - sa - e3 - 53 + k2) in *.
  assert (Hratio : ratio = S754_finite false m3 e3).
  { unfold ratio, Float64.div, Float64.of_int, Float64.prec, Float64.emax.
    by rewrite EM, Em, E3. }
  assert (Hq : Float64.div (Float64.of_int a) ratio = S754_finite false m4 e4).
  { rewrite Hratio. unfold Float64.div, Float64.of_int, Float64.prec, Float64.emax.
    by rewrite Ea, E4. }
  (* the two quotients as real numbers *)
  pose proof (F2R_div_error mM (- sM) mm (- sm) m3 k1 Hc3 ltac:(lia) Herr1) as HR1.
  pose proof (F2R_div_error ma (- sa) m3 e3 m4 k2 Hc4 ltac:(lia) Herr2) as HR2.
  cbv zeta in HR1, HR2. fold e3 in HR1. fold e4 in HR2.
  rewrite (F2R_int mM M sM HvM ltac:(lia)), (F2R_int mm m sm Hvm ltac:(lia)) in HR1.
  rewrite (F2R_int ma a sa Hva ltac:(lia)) in HR2.
  set (r := F2R m3 e3) in *. set (q := F2R m4 e4) in *.
  set (U := IZR (2 ^ 53)) in *.
  assert (HU : U = 9007199254740992%R) by reflexivity.
  assert (Hr : (0 < r)%R) by apply F2R_pos.
  assert (Hqpos : (0 < q)%R) by apply F2R_pos.
  assert (HaR : (1 <= IZR a)%R) by (apply IZR_le; lia).
  assert (HmR : (1 <= IZR m)%R) by (apply IZR_le; lia).
  assert (HMR : (1 <= IZR M)%R) by (apply IZR_le; lia).
  assert (HaM : (IZR a <= IZR M)%R) by (apply IZR_le; lia).
  destruct HR1 as [HR1a HR1b]. destruct HR2 as [HR2a HR2b].
  (* (A): (U-1) q M <= (U+1) a m   and   (B): (U-1) a m <= (U+1) q M *)
  assert (HA : ((U - 1) * (q * IZR M) <= (U + 1) * (IZR a * IZR m))%R).
  { apply (Rmult_le_reg_l U); [lra|].
    assert (((U - 1) * q) * (U * IZR M) <= ((U - 1) * q) * ((U + 1) * (r * IZR m)))%R
      by (apply Rmult_le_compat_l; [apply Rmult_le_pos; lra | done]).
    assert (((U + 1) * IZR m) * ((U - 1) * (q * r)) <= ((U + 1) * IZR m) * (U * IZR a))%R
      by (apply Rmult_le_compat_l; [apply Rmult_le_pos; lra | done]).
    lra. }
  assert (HB : ((U - 1) * (IZR a * IZR m) <= (U + 1) * (q * IZR M))%R).
  { apply (Rmult_le_reg_l U); [lra|].
    assert (((U - 1) * IZR m) * (U * IZR a) <= ((U - 1) * IZR m) * ((U + 1) * (q * r)))%R
      by (apply Rmult_le_compat_l; [apply Rmult_le_pos; lra | done]).
    assert (((U + 1) * q) * ((U - 1) * (r * IZR m)) <= ((U + 1) * q) * (U * IZR M))%R
      by (apply Rmult_le_compat_l; [apply Rmult_le_pos; lra | done]).
    lra. }
  (* q < 2^52, hence a negative exponent *)
  assert (Hqsmall : (q < IZR (2 ^ 52))%R).
  { assert (HmB : (IZR m <= IZR (2 ^ 50))%R) by (apply IZR_le; lia).
    assert (H50 : IZR (2 ^ 50) = 1125899906842624%R) by reflexivity.
    assert (H52 : IZR (2 ^ 52) = 4503599627370496%R) by reflexivity.
    assert (Hqm : ((U - 1) * q <= (U + 1) * IZR m)%R).
    { apply (Rmult_le_reg_l (IZR M)); [lra|].
      assert ((U + 1) * IZR m * IZR a <= (U + 1) * IZR m * IZR M)%R
        by (apply Rmult_le_compat_l; [apply Rmult_le_pos; lra | done]).
      lra. }
    rewrite H52. rewrite H50 in HmB. rewrite HU in Hqm.
    lra. }
  assert (He4 : e4 < 0) by exact (F2R_small_exponent m4 e4 Hc4 Hqsmall).
  assert (Hn : n = Z.pos m4 / 2 ^ (- e4)).
  { unfold n. rewrite Hq. apply int_of_float_Floor; [done|]. unfold e4, e3. lia. }
  destruct (F2R_floor m4 e4 n He4 Hn) as [Hn1 Hn2]. fold q in Hn1, Hn2.
  assert (Hn0 : 0 <= n).
  { rewrite Hn. apply Z.div_pos; [lia|]. apply Z.pow_pos_nonneg; lia. }
  clearbody n. clear Hn.
  (* back to the integers *)
  assert (P1 : (2 ^ 53 - 1) * (n * M) <= (2 ^ 53 + 1) * (a * m)).
  { apply le_IZR. rewrite !mult_IZR, minus_IZR, plus_IZR. fold U.
    assert ((U - 1) * IZR M * IZR n <= (U - 1) * IZR M * q)%R
      by (apply Rmult_le_compat_l; [apply Rmult_le_pos; lra | done]).
    lra. }
  assert (P2 : (2 ^ 53 - 1) * (a * m) < (2 ^ 53 + 1) * ((n + 1) * M)).
  { apply lt_IZR. rewrite !mult_IZR, minus_IZR, !plus_IZR. fold U.
    assert ((U + 1) * IZR M * q < (U + 1) * IZR M * (IZR n + 1))%R
      by (apply Rmult_lt_compat_l; [apply Rmult_lt_0_compat; lra | done]).
    lra. }
  clear - Ha Hm Hbound Ham Ham0 Hn0 P1 P2.
  pose proof (Z.div_mod (a * m) M ltac:(lia)) as Hdm.
  pose proof (Z.mod_pos_bound (a * m) M ltac:(lia)) as Hmod.
  set (E := a * m / M) in *. set (rho := (a * m) mod M) in *.
  assert (HE0 : 0 <= E) by (apply Z.div_pos; lia).
  assert (Hle : n <= E).
  { destruct (Z_le_gt_dec n E) as [|Hgt]; [done|exfalso].
    assert ((E + 1) * M <= n * M) by (apply Z.mul_le_mono_nonneg_r; lia).
    lia. }
  destruct (Z.eq_dec n E) as [|Hne]; [by left|right].
  assert (Hlow : E - 1 <= n).
  { destruct (Z_le_gt_dec (E - 1) n) as [|Hgt]; [done|exfalso].
    assert ((n + 1) * M <= (E - 1) * M) by (apply Z.mul_le_mono_nonneg_r; lia).
    lia. }
  split; [lia|].
  destruct (Z.eq_dec rho 0) as [|Hrho]; [done|exfalso].
  assert ((n + 1) * M <= E * M) by (apply Z.mul_le_mono_nonneg_r; lia).
  lia.
Qed.

(** ** The cache: what is put and what is got *)

Section PutGet.
Context `{Platform}.

(** the file that a completed put leaves is not the file that get reads:
    unless the two keys collide, a get after a put into an empty slot
    misses *)
Lemma put_then_get_misses (uri variation : string) (headers : Headers)
    (body : list byte) (w : World) :
  generateKeyForCache (variation +:+ ":" +:+ uri) <> generateKeyForCache uri ->
  files w !! generateKeyForCache uri = None ->
  exists w',
    fetchImageFromCache uri variation
        (world_of (saveImageInCache_go uri variation headers body w))
      = Done (zeroHeaders, [], false) w'.
Proof.
  intros Hne Hnone.
  assert (Hf : files (world_of (saveImageInCache_go uri variation headers body w))
                 !! generateKeyForCache uri = None).
  { unfold saveImageInCache_go, os_MkdirAll, ioutil_WriteFile, redis_Hset. run.
    destruct (disk_fault w (path_Dir _)); simpl; [done|].
    destruct (disk_fault w (generateKeyForCache _)); simpl; [done|].
    destruct (redis_lookup _ _) as [e|]; simpl.
    - destruct (rvalue e); simpl; by rewrite lookup_insert_ne.
    - by rewrite lookup_insert_ne. }
  revert Hf. generalize (world_of (saveImageInCache_go uri variation headers body w)).
  intros w1 Hf. unfold fetchImageFromCache, redis_Hget, os_Stat. run.
  destruct (Str _) as [contentType [e|]]; [by eexists|].
  simpl. rewrite Hf. by eexists.
Qed.
End PutGet.

(** C1 on the code: the first request for [(url, 50, 50)] is served and its
    two goroutines have run; the resized bytes lie under the key of
    ["resize/50/50:" + url] and their content type is in Redis, but
    [fetchImageFromCache] looks under the key of [url] alone, where there is
    no file, and misses; the second, identical request asks the origin
    again and resamples again. *)
Theorem second_request_misses_the_cache :
  let w0 := Testbed.fresh Testbed.srv in
  let r := Testbed.request "50" "50" in
  let w1 := settle (world_of (Img newWriter r w0)) in
  let w2 := world_of (Img newWriter r w1) in
  pending w1 = []
  /\ fdata <$> files w1 !! generateKeyForCache ("resize/50/50" +:+ ":" +:+ Testbed.url)
       = Some (list_byte_of_string "PNG 50x25")
  /\ (rvalue <$> redis w1 !! "img/resize/50/50/http://a/b.gif")
       = Some (RHash {["type" := "image/png"]})
  /\ files w1 !! generateKeyForCache Testbed.url = None
  /\ fetchImageFromCache Testbed.url "resize/50/50" w1
       = Done (zeroHeaders, [], false)
              (set_trace (EvStat (generateKeyForCache Testbed.url)
                            :: EvRedis "HGET" "img/resize/50/50/http://a/b.gif" :: trace w1) w1)
  /\ exists evs,
       trace w2 = evs ++ trace w1 /\ origin_fetches evs = 1%nat /\ resamplings evs = 1%nat.
Proof.
  intros w0 r w1 w2.
  split; [by vm_compute|]. split; [by vm_compute|]. split; [by vm_compute|].
  split; [by vm_compute|]. split; [by vm_compute|].
  exists [EvEncode; EvResample 50 25; EvDecode;
          EvRedis "GET" "img/err/http://a/b.gif"; EvHttpGet "http://a/b.gif";
          EvStat "cache/e1/4a/1c/eb51eb71e8ccb668bb5127041d4f8f97ca";
          EvRedis "HGET" "img/orig/http://a/b.gif";
          EvRedis "GET" "img/err/http://a/b.gif";
          EvStat "cache/e1/4a/1c/eb51eb71e8ccb668bb5127041d4f8f97ca";
          EvRedis "HGET" "img/resize/50/50/http://a/b.gif"].
  split; [by vm_compute|]. split; reflexivity.
Qed.

(** ** The orchestrator *)

Section NegativeFirst.
Context `{Platform}.

Lemma fetchImage_live_error uri reason w :
  live_error w uri = Some reason ->
  fetchImage uri w
    = Done (zeroHeaders, [], Some (errors_New reason))
           (set_trace (EvRedis "GET" ("img/err/" +:+ uri) :: trace w) w).
Proof.
  intros Hl. unfold fetchImage. unfold mbind at 1, M_bind at 1.
  by rewrite urlStatus_eq, Hl.
Qed.

(** a cache lookup asks no origin, resamples nothing and queues nothing *)
Lemma fetchImageFromCache_quiet uri variation w :
  exists headers body ok evs,
    fetchImageFromCache uri variation w
      = Done (headers, body, ok) (set_trace (evs ++ trace w) w)
    /\ origin_fetches evs = 0%nat /\ resamplings evs = 0%nat.
Proof.
  unfold fetchImageFromCache, redis_Hget, os_Stat, ioutil_ReadFile. run.
  destruct (Str _) as [contentType [e|]]; simpl.
  { eexists _, _, _, [_]. by split. }
  destruct (files w !! generateKeyForCache uri) as [f|] eqn:Ef; simpl.
  2:{ eexists _, _, _, [_; _]. by split. }
  rewrite Ef. destruct (freadable f); eexists _, _, _, [_; _; _]; by split.
Qed.

(** C2, as the code has it: with a live ErrorRecord for the URL,
    [fetchResizedImage] first looks the resized variant up in the cache,
    which asks no origin and resamples nothing; on a hit it returns the
    cached variant, on a miss it asks for the ErrorRecord next and fails
    with the recorded reason, with nothing else done and nothing queued. *)
Theorem fetchResizedImage_negative_cache (uri reason : string) (width height : Z)
    (w : World) :
  live_error w uri = Some reason ->
  exists headers body ok evs,
    let w1 := set_trace (evs ++ trace w) w in
    fetchImageFromCache uri ("resize/" +:+ fmt_d width +:+ "/" +:+ fmt_d height) w
      = Done (headers, body, ok) w1
    /\ origin_fetches evs = 0%nat /\ resamplings evs = 0%nat
    /\ fetchResizedImage uri width height w
         = (if ok : bool then Done (headers, body, None) w1
            else Done (zeroHeaders, [], Some (errors_New reason))
                      (set_trace (EvRedis "GET" ("img/err/" +:+ uri) :: trace w1) w1)).
Proof.
  intros Hl.
  destruct (fetchImageFromCache_quiet uri
              ("resize/" +:+ fmt_d width +:+ "/" +:+ fmt_d height) w)
    as (headers & body & ok & evs & Hc & Ho & Hr).
  exists headers, body, ok, evs. cbv zeta.
  split; [exact Hc|]. split; [exact Ho|]. split; [exact Hr|].
  unfold fetchResizedImage. unfold mbind at 1, M_bind at 1. rewrite Hc.
  destruct ok; [reflexivity|].
  unfold mbind at 1, M_bind at 1.
  by rewrite (fetchImage_live_error uri reason (set_trace (evs ++ trace w) w) Hl).
Qed.
End NegativeFirst.

Lemma fetchResizedImage_negative_cache_witness :
  let w := set_redis
             {["img/err/http://a/b.gif" := mkEntry (RString "Exceeded max size") (Some 1600)]}
             (Testbed.fresh Testbed.srv) in
  live_error w Testbed.url = Some "Exceeded max size"
  /\ exists headers body ok evs,
       let w1 := set_trace (evs ++ trace w) w in
       fetchImageFromCache Testbed.url ("resize/" +:+ fmt_d 50 +:+ "/" +:+ fmt_d 50) w
         = Done (headers, body, ok) w1
       /\ origin_fetches evs = 0%nat /\ resamplings evs = 0%nat
       /\ fetchResizedImage Testbed.url 50 50 w
            = (if ok : bool then Done (headers, body, None) w1
               else Done (zeroHeaders, [], Some (errors_New "Exceeded max size"))
                         (set_trace (EvRedis "GET" ("img/err/" +:+ Testbed.url) :: trace w1) w1)).
Proof.
  intros w. split; [reflexivity|].
  apply (fetchResizedImage_negative_cache Testbed.url "Exceeded max size" 50 50 w).
  reflexivity.
Defined.

(** C2, as it is stated, fails: Redis holds a live ErrorRecord for the URL
    (expiring at second 1600, read at second 1000) and the metadata of its
    variant [resize/50/50], the cache directory holds a file under the key
    that [fetchImageFromCache] reads.  [fetchResizedImage] does not fail
    with the recorded reason: it never asks for [img/err/<url>] and returns
    the cached variant. *)
Lemma cached_variant_returned_despite_live_error :
  live_error Testbed.stale Testbed.url = Some "Unexpected status code"
  /\ fetchResizedImage Testbed.url 50 50 Testbed.stale
       = Done (mkHeaders "image/png" "Thu, 01 Jan 1970 00:15:00 UTC" "",
               list_byte_of_string "PNG 50x25", None)
              (set_trace
                 [EvReadFile "cache/e1/4a/1c/eb51eb71e8ccb668bb5127041d4f8f97ca";
                  EvStat "cache/e1/4a/1c/eb51eb71e8ccb668bb5127041d4f8f97ca";
                  EvRedis "HGET" "img/resize/50/50/http://a/b.gif"]
                 Testbed.stale).
Proof. split; vm_compute; reflexivity. Qed.

(** ** The origin fetcher *)

Section ContentType.
Context `{Platform}.

(** C3: on a response with status 200 whose body was read and whose
    declared length passes, a Content-Type of fewer than five bytes (an
    absent header reads as the empty string) makes [contentType[0:5]]
    panic: [fetchImageFromServer] returns no InvalidContentType failure
    and queues no negative-cache entry. *)
Theorem fetchImageFromServer_short_content_type_panics (uri : string) (w : World)
    (res : HttpResponse) (body : list byte) :
  origin w uri = GetOk res ->
  StatusCode res = 200 ->
  Body res = ReadOk body ->
  ContentLength res <= maxSize ->
  (String.length (HeaderContentType res) < 5)%nat ->
  fetchImageFromServer uri w
    = Panicked "runtime error: slice bounds out of range"
               (set_trace (EvHttpGet uri :: trace w) w)
  /\ pending (world_of (fetchImageFromServer uri w)) = pending w.
Proof.
  intros E Hs Hb Hl Hc.
  rewrite (fetchImageFromServer_short uri w res body E Hs Hb Hl Hc). by split.
Qed.
End ContentType.

Lemma fetchImageFromServer_short_content_type_panics_witness :
  let o := fun _ : string => GetOk (mkResponse 200 4 "" (ReadOk (list_byte_of_string "oops"))) in
  let w := Testbed.fresh o in
  fetchImageFromServer Testbed.url w
    = Panicked "runtime error: slice bounds out of range"
               (set_trace (EvHttpGet Testbed.url :: trace w) w)
  /\ pending (world_of (fetchImageFromServer Testbed.url w)) = pending w.
Proof.
  intros o w.
  apply (fetchImageFromServer_short_content_type_panics Testbed.url w
           (mkResponse 200 4 "" (ReadOk (list_byte_of_string "oops")))
           (list_byte_of_string "oops"));
    [reflexivity | reflexivity | reflexivity | vm_compute; discriminate | simpl; lia].
Defined.

Section SizeCeiling.
Context `{Platform}.

Lemma files_saveErrorInCache_go uri err w :
  files (world_of (saveErrorInCache_go uri err w)) = files w.
Proof.
  unfold saveErrorInCache_go, redis_Set, redis_Expire. run.
  by destruct (redis_lookup _ _).
Qed.

(** The ceiling on the declared length: a response that declares a
    Content-Length above [5 * 2^20] makes [fetchImageFromServer] fail with
    "Exceeded max size"; the one goroutine it queues is the negative-cache
    entry, which writes no file, and the request path itself writes none. *)
Lemma fetchImageFromServer_declared_size_ceiling (uri : string) (w : World)
    (res : HttpResponse) (body : list byte) :
  origin w uri = GetOk res ->
  StatusCode res = 200 ->
  Body res = ReadOk body ->
  ContentLength res > 5 * 2 ^ 20 ->
  exists w',
    fetchImageFromServer uri w
      = Done (zeroHeaders, body, Some (errors_New "Exceeded max size")) w'
    /\ files w' = files w
    /\ pending w' = pending w ++ [SaveError uri (errors_New "Exceeded max size")]
    /\ forall w1,
         files (world_of (run_task (SaveError uri (errors_New "Exceeded max size")) w1))
           = files w1.
Proof.
  intros E Hs Hb Hl. eexists. split.
  - apply (fetchImageFromServer_size uri w res body E Hs Hb). exact Hl.
  - split; [reflexivity|]. split; [reflexivity|].
    intros w1. apply files_saveErrorInCache_go.
Qed.
End SizeCeiling.

Lemma fetchImageFromServer_declared_size_ceiling_example :
  let body := list_byte_of_string "GIF89a" in
  let res := mkResponse 200 (5 * 2 ^ 20 + 1) "image/gif" (ReadOk body) in
  let w := Testbed.fresh (fun _ => GetOk res) in
  exists w',
    fetchImageFromServer Testbed.url w
      = Done (zeroHeaders, body, Some (errors_New "Exceeded max size")) w'
    /\ files w' = files w
    /\ pending w' = pending w ++ [SaveError Testbed.url (errors_New "Exceeded max size")]
    /\ forall w1,
         files (world_of (run_task (SaveError Testbed.url (errors_New "Exceeded max size")) w1))
           = files w1.
Proof.
  intros body res w.
  apply (fetchImageFromServer_declared_size_ceiling Testbed.url w res body);
    [reflexivity | reflexivity | reflexivity | reflexivity].
Qed.

Lemma undeclared_payload_is_stored (body : list byte) :
  let res := mkResponse 200 (-1) "image/png" (ReadOk body) in
  let w := Testbed.fresh (fun _ => GetOk res) in
  exists headers w',
    fetchImageFromServer Testbed.url w = Done (headers, body, None) w'
    /\ fdata <$> files (settle w') !! generateKeyForCache ("orig:" +:+ Testbed.url)
         = Some body.
Proof.
  intros res w. eexists _, _. split; [vm_compute; reflexivity|].
  vm_compute; reflexivity.
Qed.

(** C4 on the code: the guard compares [res.ContentLength] with [maxSize],
    not the length of the body that was read.  A payload of [5 * 2^20 + 1]
    bytes sent without a declared length (ContentLength is -1) is fetched
    without failure, and once the goroutine has run its bytes lie under the
    cache directory. *)
Theorem oversized_undeclared_payload_is_stored :
  let body := repeat x00 (Z.to_nat (5 * 2 ^ 20 + 1)) in
  let res := mkResponse 200 (-1) "image/png" (ReadOk body) in
  let w := Testbed.fresh (fun _ => GetOk res) in
  exists headers w',
    Z.of_nat (length body) > 5 * 2 ^ 20
    /\ fetchImageFromServer Testbed.url w = Done (headers, body, None) w'
    /\ fdata <$> files (settle w') !! generateKeyForCache ("orig:" +:+ Testbed.url)
         = Some body.
Proof.
  intros body res w.
  destruct (undeclared_payload_is_stored body) as (headers & w' & Hf & Hs).
  exists headers, w'. split; [|split; assumption].
  unfold body. rewrite repeat_length, Z2Nat.id; lia.
Qed.

Section NegativeCaching.
Context `{Platform}.

Lemma slice_None_short s : slice s 0 5 = None -> (String.length s < 5)%nat.
Proof.
  unfold slice. intros Hs. destruct (5 <=? String.length s)%nat eqn:E.
  - change (0 <=? 5)%nat with true in Hs. discriminate Hs.
  - by apply Nat.leb_gt in E.
Qed.

Lemma saveErrorInCache_go_entry uri err w :
  redis (world_of (saveErrorInCache_go uri err w)) !! ("img/err/" +:+ uri)
    = Some (mkEntry (RString (Error err)) (Some (now w + 600))).
Proof.
  unfold saveErrorInCache_go, redis_Set, redis_Expire, redis_lookup. run.
  rewrite lookup_insert_eq. simpl. by rewrite lookup_insert_eq.
Qed.

Lemma resizeImage_stores uri origBody origHeaders width height w :
  let w' := world_of (resizeImage uri origBody origHeaders width height w) in
  pending w' = pending w /\ redis w' = redis w /\ files w' = files w.
Proof.
  unfold resizeImage. run. destruct (image_Decode origBody); [|done].
  destruct (_ && _); [done|]. by destruct (png_Encode _).
Qed.

Lemma saveErrorInCache_go_live uri err w t :
  live_error (set_now t (world_of (saveErrorInCache_go uri err w))) uri
    = if t <? now w + 600 then Some (Error err) else None.
Proof.
  unfold live_error, redis_lookup.
  change (redis (set_now t ?w')) with (redis w').
  rewrite saveErrorInCache_go_entry. unfold live. simpl.
  by destruct (t <? now w + 600).
Qed.

(** C5: [fetchImageFromServer] queues one goroutine recording the failure
    under [img/err/<uri>] exactly when it fails with an error of its own
    making, "Unexpected status code", "Exceeded max size" or "Invalid
    content-type", and it makes no other; the failures of the transport
    ([client.Get], reading the body) come back as they are and queue no
    record; the goroutine stores the text of the error with an expiry 600
    seconds ahead, so the record is live for the 600 seconds that follow
    and not after; [resizeImage] leaves the queue and Redis untouched, and
    its decode failure comes back as it is. *)
Theorem negative_caching_discipline (uri : string) (w : World) :
  let o := fetchImageFromServer uri w in
  (exists ts,
     pending (world_of o) = pending w ++ ts
     /\ List.filter is_SaveError ts
          = match o with
            | Done (_, _, Some e) _ => if negatively_cached e then [SaveError uri e] else []
            | _ => []
            end)
  /\ redis (world_of o) = redis w
  /\ (forall h b text w', o = Done (h, b, Some (errors_New text)) w' ->
        negatively_cached (errors_New text) = true)
  /\ (forall e, origin w uri = GetErr e ->
        exists w', o = Done (zeroHeaders, [], Some (foreign e)) w')
  /\ (forall res partial e,
        origin w uri = GetOk res -> StatusCode res = 200 -> Body res = ReadErr partial e ->
        exists w', o = Done (zeroHeaders, partial, Some (foreign e)) w')
  /\ (forall err w1,
        redis (world_of (run_task (SaveError uri err) w1)) !! ("img/err/" +:+ uri)
          = Some (mkEntry (RString (Error err)) (Some (now w1 + 600))))
  /\ (forall err w1 t,
        live_error (set_now t (world_of (run_task (SaveError uri err) w1))) uri
          = if t <? now w1 + 600 then Some (Error err) else None)
  /\ (forall origBody origHeaders width height w1,
        let w2 := world_of (resizeImage uri origBody origHeaders width height w1) in
        pending w2 = pending w1 /\ redis w2 = redis w1)
  /\ (forall origBody origHeaders width height e w1,
        image_Decode origBody = inr e ->
        resizeImage uri origBody origHeaders width height w1
          = Done (zeroHeaders, [], Some (foreign e)) (set_trace (EvDecode :: trace w1) w1)).
Proof.
  intros o.
  assert (Hcases :
    (exists ts,
       pending (world_of o) = pending w ++ ts
       /\ List.filter is_SaveError ts
            = match o with
              | Done (_, _, Some e) _ => if negatively_cached e then [SaveError uri e] else []
              | _ => []
              end)
    /\ (forall h b text w', o = Done (h, b, Some (errors_New text)) w' ->
          negatively_cached (errors_New text) = true)).
  { subst o. destruct (origin w uri) as [e|res] eqn:E.
    { rewrite (fetchImageFromServer_transport uri w e E).
      split; [exists []; simpl; by rewrite app_nil_r | intros; discriminate]. }
    destruct (Z.eq_dec (StatusCode res) 200) as [Hs|Hs].
    2:{ rewrite (fetchImageFromServer_status uri w res E Hs).
        split; [by eexists | intros ? ? ? ? Heq; by inversion Heq]. }
    destruct (Body res) as [body|partial e] eqn:Hb.
    2:{ rewrite (fetchImageFromServer_read uri w res partial e E Hs Hb).
        split; [exists []; simpl; by rewrite app_nil_r | intros; discriminate]. }
    destruct (Z_gt_le_dec (ContentLength res) maxSize) as [Hl|Hl].
    { rewrite (fetchImageFromServer_size uri w res body E Hs Hb Hl).
      split; [by eexists | intros ? ? ? ? Heq; by inversion Heq]. }
    destruct (slice (HeaderContentType res) 0 5) as [prefix|] eqn:Hc.
    2:{ rewrite (fetchImageFromServer_short uri w res body E Hs Hb Hl (slice_None_short _ Hc)).
        split; [exists []; simpl; by rewrite app_nil_r | intros; discriminate]. }
    destruct (String.eqb_spec prefix "image") as [->|Hp].
    2:{ rewrite (fetchImageFromServer_type uri w res body prefix E Hs Hb Hl Hc Hp).
        split; [by eexists | intros ? ? ? ? Heq; by inversion Heq]. }
    rewrite (fetchImageFromServer_ok uri w res body E Hs Hb Hl Hc).
    split; [|intros; discriminate].
    eexists. split; [reflexivity|]. by destruct (live_error w uri). }
  destruct Hcases as [Hq Hown].
  split; [exact Hq|]. split; [apply (reads_fetchImageFromServer uri w)|].
  split; [exact Hown|]. split.
  { intros e E. eexists. apply (fetchImageFromServer_transport uri w e E). }
  split.
  { intros res partial e E Hs Hb. eexists.
    apply (fetchImageFromServer_read uri w res partial e E Hs Hb). }
  split.
  { intros err w1. apply saveErrorInCache_go_entry. }
  split.
  { intros err w1 t. apply saveErrorInCache_go_live. }
  split.
  { intros origBody origHeaders width height w1.
    destruct (resizeImage_stores uri origBody origHeaders width height w1) as (Hp & Hr & _).
    by split. }
  intros origBody origHeaders width height e w1 Hd.
  unfold resizeImage. run. by rewrite Hd.
Qed.
End NegativeCaching.

Lemma negative_caching_discipline_witness :
  let o := fun _ : string => GetOk (mkResponse 404 9 "text/html" (ReadOk [])) in
  let w := Testbed.fresh o in
  fetchImageFromServer Testbed.url w
    = Done (zeroHeaders, [], Some (errors_New "Unexpected status code"))
           (set_pending [SaveError Testbed.url (errors_New "Unexpected status code")]
              (set_trace [EvHttpGet Testbed.url] w))
  /\ exists ts,
       pending (world_of (fetchImageFromServer Testbed.url w)) = pending w ++ ts
       /\ List.filter is_SaveError ts
            = [SaveError Testbed.url (errors_New "Unexpected status code")].
Proof.
  intros o w. split; [reflexivity|].
  destruct (negative_caching_discipline Testbed.url w) as [(ts & Hp & Hf) _].
  exists ts. split; [exact Hp | exact Hf].
Defined.

(** ** The resize engine *)

Section NoUpscale.
Context `{Platform}.

(** C6: when the decoded picture is no wider and no higher than the
    target, [resizeImage] gives back the headers it was given and the
    bytes of the body it was given, and nothing is resampled or encoded. *)
Theorem resizeImage_no_upscale (uri origBody : string) (origHeaders : Headers)
    (width height : Z) (m : Picture) (wld : World) :
  image_Decode origBody = inl m ->
  image.Dx (Bounds m) <= width ->
  image.Dy (Bounds m) <= height ->
  resizeImage uri origBody origHeaders width height wld
    = Done (origHeaders, list_byte_of_string origBody, None)
           (set_trace (EvDecode :: trace wld) wld)
  /\ forall body : list byte,
       origBody = string_of_list_byte body -> list_byte_of_string origBody = body.
Proof.
  intros Hm Hw Hh. split.
  - unfold resizeImage, mbind, M_bind, emit, modify. simpl. rewrite Hm.
    replace (width >=? image.Dx (Bounds m)) with true by (symmetry; rewrite Z.geb_leb; lia).
    replace (height >=? image.Dy (Bounds m)) with true by (symmetry; rewrite Z.geb_leb; lia).
    reflexivity.
  - intros body ->. apply list_byte_of_string_of_list_byte.
Qed.
End NoUpscale.

Lemma resizeImage_no_upscale_witness :
  let body := Testbed.gif 200 100 in
  let hdr := mkHeaders "image/gif" "Thu, 01 Jan 1970 00:16:40 UTC" "public, max-age=600" in
  let wld := Testbed.fresh Testbed.srv in
  resizeImage Testbed.url (string_of_list_byte body) hdr 200 100 wld
    = Done (hdr, list_byte_of_string (string_of_list_byte body), None)
           (set_trace (EvDecode :: trace wld) wld)
  /\ forall b : list byte,
       string_of_list_byte body = string_of_list_byte b ->
       list_byte_of_string (string_of_list_byte body) = b.
Proof.
  intros body hdr wld.
  apply (@resizeImage_no_upscale Testbed.platform Testbed.url (string_of_list_byte body) hdr 200 100 (200, 100) wld).
  - reflexivity.
  - vm_compute. discriminate.
  - vm_compute. discriminate.
Defined.

(** the targets that the request boundary lets through and the pictures
    below [2^31] a side are within the bound of the downscale theorem *)
Lemma validated_target_within_bound (origWidth origHeight width height : Z) :
  0 < origWidth < 2 ^ 31 -> 0 < origHeight < 2 ^ 31 ->
  0 < width -> 0 < height -> width * height <= maxSize ->
  width < 2 ^ 53 /\ height < 2 ^ 53
  /\ Z.max origWidth origHeight * Z.min width height <= 2 ^ 50.
Proof.
  intros HW HH Hw Hh Harea.
  unfold maxSize in Harea. change (Z.shiftl 1 20) with (2 ^ 20) in Harea.
  assert (Hsmall : Z.min width height < 2 ^ 12).
  { destruct (Z_lt_le_dec (Z.min width height) (2 ^ 12)) as [|Hge]; [done|exfalso].
    assert (2 ^ 12 * 2 ^ 12 <= width * height) by (apply Z.mul_le_mono_nonneg; lia).
    lia. }
  split; [nia|]. split; [nia|].
  assert (Z.max origWidth origHeight * Z.min width height <= 2 ^ 31 * 2 ^ 12)
    by (apply Z.mul_le_mono_nonneg; lia).
  lia.
Qed.

Section Downscale.
Context `{Platform}.

(** C7: whenever [resizeImage] does not return the original, that is for
    every picture wider or higher than the target, it resamples to
    [newWidth = floor (origWidth / ratio)] and
    [newHeight = floor (origHeight / ratio)] with
    [ratio = max (origWidth, origHeight) / min (width, height)], computed
    in binary64, and returns the PNG encoding of the resampled picture
    with the content type [image/png].  For positive sizes, as long as
    the larger original side times the smaller target side is at most
    [2^50] (so for every picture below [2^31] a side and every target
    with [width * height <= maxSize]), each new dimension is the floor of
    the exact quotient [orig * min / max], or one less when that quotient
    is a whole number: each axis is within one pixel of the proportional
    size.  For 200x100 and the target 50x50 the new size is 50x25. *)
Theorem resizeImage_downscale (uri origBody : string) (origHeaders : Headers)
    (width height : Z) (m : Picture) (wld : World) :
  image_Decode origBody = inl m ->
  let origWidth := image.Dx (Bounds m) in
  let origHeight := image.Dy (Bounds m) in
  ~ (origWidth <= width /\ origHeight <= height) ->
  let ratio :=
    Float64.div (Float64.Max (Float64.of_int origWidth) (Float64.of_int origHeight))
                (Float64.Min (Float64.of_int width) (Float64.of_int height)) in
  let newWidth :=
    int_of_float (Float64.Floor (Float64.div (Float64.of_int origWidth) ratio)) in
  let newHeight :=
    int_of_float (Float64.Floor (Float64.div (Float64.of_int origHeight) ratio)) in
  let big := Z.max origWidth origHeight in
  let small := Z.min width height in
  resizeImage uri origBody origHeaders width height wld
    = (let wld' := set_trace (EvEncode :: EvResample newWidth newHeight
                                :: EvDecode :: trace wld) wld in
       match png_Encode (Resample m (Bounds m) newWidth newHeight) with
       | inl out =>
           Done (mkHeaders "image/png" (lastModified origHeaders) (cacheControl origHeaders),
                 list_byte_of_string out, None) wld'
       | inr e => Done (zeroHeaders, [], Some (foreign e)) wld'
       end)
  /\ (0 < origWidth -> 0 < origHeight ->
      0 < width < 2 ^ 53 -> 0 < height < 2 ^ 53 ->
      big * small <= 2 ^ 50 ->
      (newWidth = origWidth * small / big
       \/ (newWidth = origWidth * small / big - 1 /\ (origWidth * small) mod big = 0))
      /\ (newHeight = origHeight * small / big
          \/ (newHeight = origHeight * small / big - 1 /\ (origHeight * small) mod big = 0))
      /\ big * newWidth <= origWidth * small <= big * (newWidth + 1)
      /\ big * newHeight <= origHeight * small <= big * (newHeight + 1))
  /\ (origWidth = 200 -> origHeight = 100 -> width = 50 -> height = 50 ->
      newWidth = 50 /\ newHeight = 25).
Proof.
  intros Hm origWidth origHeight Hdown ratio newWidth newHeight big small.
  split; [|split].
  - unfold resizeImage. run. rewrite Hm.
    fold origWidth origHeight.
    replace ((width >=? origWidth) && (height >=? origHeight)) with false.
    2:{ symmetry. apply andb_false_iff. rewrite !Z.geb_leb, !Z.leb_gt. lia. }
    fold ratio newWidth newHeight. by destruct (png_Encode _).
  - intros HW HH Hw Hh Hprod.
    assert (Hsmall : 0 < small) by (unfold small; lia).
    assert (Hbig : 0 < big < 2 ^ 53).
    { split; [unfold big; lia|].
      assert (big * 1 <= big * small) by (apply Z.mul_le_mono_nonneg_l; unfold big; lia).
      lia. }
    assert (Hratio : ratio = Float64.div (Float64.of_int big) (Float64.of_int small)).
    { unfold ratio. by rewrite Max_of_int, Min_of_int by lia. }
    pose proof (downscale_dimension origWidth big small
                  ltac:(unfold big; lia) ltac:(lia) Hprod) as HdW.
    pose proof (downscale_dimension origHeight big small
                  ltac:(unfold big; lia) ltac:(lia) Hprod) as HdH.
    cbv zeta in HdW, HdH. rewrite <- Hratio in HdW, HdH.
    fold newWidth in HdW. fold newHeight in HdH.
    split; [exact HdW|]. split; [exact HdH|]. split.
    + clear - HdW Hbig Hsmall HW.
      pose proof (Z.div_mod (origWidth * small) big ltac:(lia)) as Hdm.
      pose proof (Z.mod_pos_bound (origWidth * small) big ltac:(lia)) as Hmod.
      destruct HdW as [-> | [-> Hz]]; nia.
    + clear - HdH Hbig Hsmall HH.
      pose proof (Z.div_mod (origHeight * small) big ltac:(lia)) as Hdm.
      pose proof (Z.mod_pos_bound (origHeight * small) big ltac:(lia)) as Hmod.
      destruct HdH as [-> | [-> Hz]]; nia.
  - intros E1 E2 -> ->. unfold newWidth, newHeight, ratio. rewrite E1, E2.
    by vm_compute.
Qed.
End Downscale.

Lemma resizeImage_downscale_witness :
  let body := string_of_list_byte (Testbed.gif 200 100) in
  let hdr := mkHeaders "image/gif" "Thu, 01 Jan 1970 00:16:40 UTC" "public, max-age=600" in
  let wld := Testbed.fresh Testbed.srv in
  resizeImage Testbed.url body hdr 50 50 wld
    = Done (mkHeaders "image/png" "Thu, 01 Jan 1970 00:16:40 UTC" "public, max-age=600",
            list_byte_of_string "PNG 50x25", None)
           (set_trace [EvEncode; EvResample 50 25; EvDecode] wld)
  /\ 200 * 50 <= 200 * 50 <= 200 * (50 + 1)
  /\ 200 * 25 <= 100 * 50 <= 200 * (25 + 1).
Proof.
  intros body hdr wld.
  destruct (@resizeImage_downscale Testbed.platform Testbed.url body hdr 50 50 (200, 100) wld)
    as (Hr & Hone & Hdim);
    [reflexivity | vm_compute; intros [? ?]; congruence |].
  destruct (Hdim eq_refl eq_refl eq_refl eq_refl) as [HW HH].
  rewrite HW, HH in Hr, Hone. clear Hdim HW HH.
  split; [exact Hr|].
  destruct Hone as (_ & _ & H1 & H2);
    [reflexivity | reflexivity | split; reflexivity | split; reflexivity
    | vm_compute; discriminate |].
  split; [exact H1 | exact H2].
Defined.

(** The floor is taken of the binary64 quotient: a 9x9 picture fitted to
    7x7 has the ratio [9/7], rounded to [1.2857142857142858], and
    [9 / ratio] is [6.999999999999999], so the new size is 6x6 where the
    exact quotient [9 * 7 / 9] is 7. *)
Remark binary64_floor_below_exact_quotient `{Platform} :
  let ratio :=
    Float64.div (Float64.Max (Float64.of_int 9) (Float64.of_int 9))
                (Float64.Min (Float64.of_int 7) (Float64.of_int 7)) in
  int_of_float (Float64.Floor (Float64.div (Float64.of_int 9) ratio)) = 6
  /\ 9 * 7 / 9 = 7.
Proof. by vm_compute. Qed.

(** ** Parsing at the request boundary *)

Lemma digit_val_Some c d : digit_val c = Some d -> is_digit c /\ d = code c - 48.
Proof.
  unfold digit_val, is_digit, code.
  generalize (Z.of_N (N_of_ascii c)) as n. intros n.
  destruct (Z.leb_spec 48 n), (Z.leb_spec n 57); simpl; try discriminate.
  intros [= <-]. lia.
Qed.

Lemma parse_digits_spec s : forall acc n,
  parse_digits acc s = Some n ->
  Forall is_digit (list_ascii_of_string s) /\
  n = fold_left (fun a c => 10 * a + (code c - 48)) (list_ascii_of_string s) acc.
Proof.
  induction s as [|c s IH]; intros acc n; simpl.
  - intros [= <-]. split; [constructor | reflexivity].
  - destruct (digit_val c) as [d|] eqn:E; [|discriminate].
    apply digit_val_Some in E as [Hc ->]. intros Hp.
    apply IH in Hp as [Hs ->]. split; [by constructor | reflexivity].
Qed.

Lemma ParseInt_denotes s bits n : ParseInt s bits = inl n -> denotes s n.
Proof.
  destruct s as [|c r]; [discriminate|]. unfold ParseInt.
  set (neg := Ascii.eqb c "-").
  set (digits := if Ascii.eqb c "+" || neg then r else String c r).
  destruct digits as [|c' r'] eqn:Ed; [discriminate|].
  destruct (parse_digits 0 (String c' r')) as [un|] eqn:Ep; [|discriminate].
  apply parse_digits_spec in Ep as [Hd ->].
  assert (Hne : list_ascii_of_string (String c' r') <> []) by discriminate.
  intros Hn.
  assert (Hv : n = if neg then - decimal (list_ascii_of_string (String c' r'))
                   else decimal (list_ascii_of_string (String c' r'))).
  { unfold decimal.
    repeat match type of Hn with (if ?b then _ else _) = _ => destruct b end;
      congruence. }
  clear Hn. subst n. subst digits neg.
  destruct (Ascii.eqb c "-") eqn:Em.
  - apply Ascii.eqb_eq in Em as ->. rewrite orb_true_r in Ed. subst r.
    rewrite <- (string_of_list_ascii_of_string (String c' r')) at 1.
    by apply denotes_minus.
  - rewrite orb_false_r in Ed. destruct (Ascii.eqb c "+") eqn:Ep.
    + apply Ascii.eqb_eq in Ep as ->. subst r.
      rewrite <- (string_of_list_ascii_of_string (String c' r')) at 1.
      by apply denotes_plus.
    + rewrite <- Ed in *.
      rewrite <- (string_of_list_ascii_of_string (String c r)) at 1.
      by apply denotes_plain.
Qed.

Lemma digit_not_sign d : is_digit d -> Ascii.eqb d "+" = false /\ Ascii.eqb d "-" = false.
Proof.
  unfold is_digit, code. intros Hd.
  split; apply Ascii.eqb_neq; intros ->; simpl in Hd; lia.
Qed.

(** the one number a string can write *)
Lemma denotes_value s n :
  denotes s n ->
  n = match s with
      | EmptyString => 0
      | String c r =>
          if Ascii.eqb c "+" then decimal (list_ascii_of_string r)
          else if Ascii.eqb c "-" then - decimal (list_ascii_of_string r)
          else decimal (list_ascii_of_string s)
      end.
Proof.
  destruct 1 as [ds Hne Hd | ds Hne Hd | ds Hne Hd].
  - destruct ds as [|d ds]; [done|]. inversion_clear Hd as [|? ? Hdig _].
    apply digit_not_sign in Hdig as [Hp Hm]. simpl. rewrite Hp, Hm.
    change (String d (string_of_list_ascii ds)) with (string_of_list_ascii (d :: ds)).
    by rewrite list_ascii_of_string_of_list_ascii.
  - simpl. by rewrite list_ascii_of_string_of_list_ascii.
  - simpl. by rewrite list_ascii_of_string_of_list_ascii.
Qed.

Lemma denotes_functional s a b : denotes s a -> denotes s b -> a = b.
Proof. intros Ha%denotes_value Hb%denotes_value. congruence. Qed.

Lemma fromHexChar_None c : ~ is_hex_char c -> fromHexChar c = None.
Proof.
  unfold is_hex_char, fromHexChar, code.
  generalize (Z.of_N (N_of_ascii c)) as n. intros n Hc.
  destruct (Z.leb_spec 48 n), (Z.leb_spec n 57), (Z.leb_spec 97 n),
    (Z.leb_spec n 102), (Z.leb_spec 65 n), (Z.leb_spec n 70);
    simpl; try reflexivity; exfalso; apply Hc; lia.
Qed.

Lemma hex_DecodeString_non_hex s c :
  In c (list_ascii_of_string s) -> ~ is_hex_char c -> hex_DecodeString s = None.
Proof.
  intros Hin Hc. revert Hin.
  assert (G : forall n s, (String.length s <= n)%nat ->
    In c (list_ascii_of_string s) -> hex_DecodeString s = None).
  { clear s. induction n as [|n IH]; intros s Hlen Hin.
    - destruct s; [destruct Hin | simpl in Hlen; lia].
    - destruct s as [|p [|q r]]; [destruct Hin | reflexivity |].
      simpl in Hin. simpl.
      destruct Hin as [<- | [<- | Hin]].
      + by rewrite fromHexChar_None.
      + rewrite (fromHexChar_None q) by done. by destruct (fromHexChar p).
      + rewrite (IH r) by (simpl in Hlen; lia || done).
        by destruct (fromHexChar p), (fromHexChar q). }
  apply (G (String.length s)). lia.
Qed.

Section Boundary.
Context `{Platform}.

Lemma http_Error_status msg c w : status w = None -> status (http_Error msg c w) = Some c.
Proof. unfold http_Error, Write, WriteHeader. simpl. by intros ->. Qed.

(** C8: a width or height that is no base-10 integer, a product of the two
    above [5 * 2^20], or a character of [encoded_url] that is no hex digit
    makes [Image] answer 400 and leaves the world as it was: nothing was
    asked of Redis, the cache directory or an origin, nothing was decoded,
    resampled or queued. *)
Theorem Image_rejects_before_pipeline (w : ResponseWriter) (r : Request)
    (fn : ResponseWriter -> ResponseWriter) (wld : World) :
  status w = None ->
  (~ base10_integer (strWidth r)
   \/ ~ base10_integer (strHeight r)
   \/ (exists a b, denotes (strWidth r) a /\ denotes (strHeight r) b /\ a * b > 5 * 2 ^ 20)
   \/ (exists c, In c (list_ascii_of_string (encoded_url r)) /\ ~ is_hex_char c)) ->
  exists resp, Image w r fn wld = Done resp wld /\ status resp = Some 400.
Proof.
  intros Hw Hbad. unfold Image.
  destruct (ParseInt (strWidth r) 32) as [width|] eqn:Ew;
    [|eexists; split; [reflexivity | by apply http_Error_status]].
  destruct (ParseInt (strHeight r) 32) as [height|] eqn:Eh;
    [|eexists; split; [reflexivity | by apply http_Error_status]].
  apply ParseInt_denotes in Ew, Eh.
  destruct (width * height >? maxSize) eqn:Ea;
    [eexists; split; [reflexivity | by apply http_Error_status]|].
  destruct (hex_DecodeString (encoded_url r)) as [uri|] eqn:Eu;
    [|eexists; split; [reflexivity | by apply http_Error_status]].
  exfalso. destruct Hbad as [Hb | [Hb | [(a & b & Ha & Hb & Hab) | (c & Hin & Hc)]]].
  - apply Hb. by exists width.
  - apply Hb. by exists height.
  - rewrite (denotes_functional _ _ _ Ha Ew), (denotes_functional _ _ _ Hb Eh) in Hab.
    unfold maxSize in Ea. change (Z.shiftl 1 20) with (2 ^ 20) in Ea. lia.
  - by rewrite (hex_DecodeString_non_hex _ c) in Eu.
Qed.
End Boundary.

Lemma Image_rejects_before_pipeline_witness :
  let r := mkRequest "687474703a2f2f612f622e6769zz" "50" "50" "" in
  let wld := Testbed.fresh Testbed.srv in
  exists resp, Image newWriter r http_NotFound wld = Done resp wld /\ status resp = Some 400.
Proof.
  intros r wld.
  apply (Image_rejects_before_pipeline newWriter r http_NotFound wld); [reflexivity|].
  right. right. right. exists "z"%char. split.
  - simpl. do 26 right. by left.
  - unfold is_hex_char, code. simpl. lia.
Defined.

(** ** The answer of the request boundary *)

Section Conditional.
Context `{Platform}.

(** C9: when the pipeline succeeds, a request whose If-Modified-Since is the
    very string of the computed Last-Modified is answered 304 with no header
    added and no byte written; any other request is answered 200 with the
    three headers and the bytes of the result. *)
Theorem Image_conditional_response (r : Request) (fn : ResponseWriter -> ResponseWriter)
    (uri : string) (width height : Z) (headers : Headers) (body : list byte)
    (wld wld' : World) :
  ParseInt (strWidth r) 32 = inl width ->
  ParseInt (strHeight r) 32 = inl height ->
  width * height <= maxSize ->
  hex_DecodeString (encoded_url r) = Some uri ->
  fetchResizedImage uri width height wld = Done (headers, body, None) wld' ->
  exists resp,
    Image newWriter r fn wld = Done resp wld'
    /\ (IfModifiedSince r = lastModified headers ->
        resp = mkWriter (Some 304) [] [])
    /\ (IfModifiedSince r <> lastModified headers ->
        resp = mkWriter (Some 200)
                 [("Content-Type", contentType headers);
                  ("Last-Modified", lastModified headers);
                  ("Cache-Control", cacheControl headers)]
                 body).
Proof.
  intros Ew Eh Ea Eu Ef. unfold Image. rewrite Ew, Eh.
  replace (width * height >? maxSize) with false by (symmetry; rewrite Z.gtb_ltb; lia).
  rewrite Eu. unfold mbind, M_bind. rewrite Ef.
  destruct (String.eqb_spec (lastModified headers) (IfModifiedSince r)) as [E|E].
  - eexists. split; [reflexivity|]. split; [reflexivity | congruence].
  - eexists. split; [reflexivity|]. split; [congruence | reflexivity].
Qed.
End Conditional.

Lemma Image_conditional_response_witness :
  let r := mkRequest "687474703a2f2f612f622e676966" "50" "50" "Thu, 01 Jan 1970 00:16:40 UTC" in
  let wld := Testbed.fresh Testbed.srv in
  exists headers body wld' resp,
    fetchResizedImage Testbed.url 50 50 wld = Done (headers, body, None) wld'
    /\ Image newWriter r http_NotFound wld = Done resp wld'
    /\ (IfModifiedSince r = lastModified headers -> resp = mkWriter (Some 304) [] [])
    /\ (IfModifiedSince r <> lastModified headers ->
        resp = mkWriter (Some 200)
                 [("Content-Type", contentType headers);
                  ("Last-Modified", lastModified headers);
                  ("Cache-Control", cacheControl headers)]
                 body).
Proof.
  intros r wld.
  destruct (fetchResizedImage Testbed.url 50 50 wld) as [[[headers body] [e|]] wld'|msg wld'] eqn:Ef;
    try (vm_compute in Ef; discriminate).
  exists headers, body, wld'.
  destruct (Image_conditional_response r http_NotFound Testbed.url 50 50 headers body wld wld')
    as (resp & Hr); [reflexivity | reflexivity | vm_compute; discriminate | reflexivity | exact Ef |].
  exists resp. split; [reflexivity | exact Hr].
Defined.

Section NegativeDimensions.
Context `{Platform}.

(** C10: the request for width -1 and height -1 passes the validation of
    [Image]: both parse, their product 1 is positive and below the
    ceiling; in whatever world, the first thing done is the cache lookup
    of the variation [resize/-1/-1], and the answer is 404, 304 or 200,
    never 400. *)
Theorem Image_accepts_negative_dimensions (wld : World) :
  let r := Testbed.request "-1" "-1" in
  ParseInt (strWidth r) 32 = inl (-1)
  /\ ParseInt (strHeight r) 32 = inl (-1)
  /\ 0 < -1 * -1 <= maxSize
  /\ hex_DecodeString (encoded_url r) = Some Testbed.url
  /\ (exists evs,
       trace (world_of (Img newWriter r wld))
         = evs ++ EvRedis "HGET" "img/resize/-1/-1/http://a/b.gif" :: trace wld)
  /\ (forall resp wld',
       Img newWriter r wld = Done resp wld' ->
       status resp = Some 404 \/ status resp = Some 304 \/ status resp = Some 200).
Proof.
  intros r. split; [reflexivity|]. split; [reflexivity|].
  split; [by vm_compute|]. split; [reflexivity|].
  assert (E : Img newWriter r
           = fetchResizedImage Testbed.url (-1) (-1) ≫=
             λ '(headers, body, err),
               match err with
               | Some _ => mret (http_NotFound newWriter)
               | None =>
                   if String.eqb (lastModified headers) (IfModifiedSince r)
                   then mret (WriteHeader 304 newWriter)
                   else mret (Write body
                               (Header_Add "Cache-Control" (cacheControl headers)
                                 (Header_Add "Last-Modified" (lastModified headers)
                                   (Header_Add "Content-Type" (contentType headers)
                                      newWriter))))
               end) by reflexivity.
  rewrite E. split.
  - apply (starts_with_bind _ _ _ (starts_fetchResizedImage Testbed.url (-1) (-1))).
    intros [[headers body] err]. prove_reads.
  - intros resp wld'. unfold mbind, M_bind.
    destruct (fetchResizedImage Testbed.url (-1) (-1) wld) as [[[headers body] [e|]] w1|];
      [| |discriminate].
    + intros [= <- _]. by left.
    + destruct (String.eqb _ _); intros [= <- _]; [right; by left | right; by right].
Qed.
End NegativeDimensions.

(** * Further properties of [img.go] *)

(** ** Digits *)

Lemma code_ascii_of_N n : (n < 256)%N -> code (ascii_of_N n) = Z.of_N n.
Proof. intros Hn. unfold code. by rewrite N_ascii_embedding. Qed.

Lemma code_hex_digit d :
  0 <= d < 16 -> code (hex_digit d) = if d <? 10 then 48 + d else 87 + d.
Proof.
  intros Hd. unfold hex_digit.
  rewrite code_ascii_of_N by (destruct (Z.ltb_spec d 10); lia).
  destruct (Z.ltb_spec d 10); lia.
Qed.

Lemma hex_digit_lower d : 0 <= d < 16 -> is_lower_hex (hex_digit d).
Proof.
  intros Hd. unfold is_lower_hex. rewrite code_hex_digit by done.
  destruct (Z.ltb_spec d 10); lia.
Qed.

Lemma fromHexChar_hex_digit d : 0 <= d < 16 -> fromHexChar (hex_digit d) = Some d.
Proof.
  intros Hd. unfold fromHexChar. fold (code (hex_digit d)).
  rewrite code_hex_digit by done.
  destruct (Z.ltb_spec d 10).
  - replace (48 <=? 48 + d) with true by (symmetry; apply Z.leb_le; lia).
    replace (48 + d <=? 57) with true by (symmetry; apply Z.leb_le; lia).
    simpl. f_equal. lia.
  - replace (87 + d <=? 57) with false by (symmetry; apply Z.leb_gt; lia).
    rewrite andb_false_r.
    replace (97 <=? 87 + d) with true by (symmetry; apply Z.leb_le; lia).
    replace (87 + d <=? 102) with true by (symmetry; apply Z.leb_le; lia).
    simpl. f_equal. lia.
Qed.

Lemma fmt_x_length bs : String.length (fmt_x bs) = (2 * length bs)%nat.
Proof. induction bs as [|b bs IH]; simpl; [done | rewrite IH; lia]. Qed.

Lemma fmt_x_app xs ys : fmt_x (xs ++ ys) = fmt_x xs +:+ fmt_x ys.
Proof. induction xs as [|x xs IH]; simpl; [done | by rewrite IH]. Qed.

Lemma fmt_x_lower bs :
  Forall (fun b => 0 <= b < 256) bs ->
  Forall is_lower_hex (list_ascii_of_string (fmt_x bs)).
Proof.
  induction 1 as [|b bs Hb _ IH]; simpl; [constructor|].
  constructor; [|constructor; [|exact IH]]; apply hex_digit_lower.
  - split; [apply Z.div_pos; lia | apply Z.div_lt_upper_bound; lia].
  - apply Z.mod_pos_bound. lia.
Qed.

(** ** The digest *)

Lemma be_bytes_length n x : length (Sha1.be_bytes n x) = n.
Proof. induction n as [|n IH]; simpl; [done | by rewrite IH]. Qed.

Lemma be_bytes_range n x : Forall (fun b => 0 <= b < 256) (Sha1.be_bytes n x).
Proof.
  induction n as [|n IH]; simpl; constructor; [|exact IH].
  change 255 with (Z.ones 8). rewrite Z.land_ones by lia.
  apply Z.mod_pos_bound. lia.
Qed.

Lemma sum_bytes s :
  length (Sha1.sum s) = 20%nat /\ Forall (fun b => 0 <= b < 256) (Sha1.sum s).
Proof.
  unfold Sha1.sum.
  destruct (Sha1.blocks _ _ _) as [[[[h0 h1] h2] h3] h4].
  split.
  - rewrite !length_app, !be_bytes_length. reflexivity.
  - repeat (apply Forall_app; split); apply be_bytes_range.
Qed.

(** ** The names of the cache files *)

Section Layout.
Context `{Platform}.

(** X1: the file name that [generateKeyForCache] gives a string lies three
    directories below the cache directory: the directories are named by
    the first three bytes of the SHA-1 digest of the string and the file by
    the other seventeen, two lower-case hex digits a byte, so that the
    four names, put together, are the forty digits of the digest. *)
Theorem generateKeyForCache_layout (s : string) :
  exists a b c d,
    generateKeyForCache s
      = directory +:+ "/" +:+ a +:+ "/" +:+ b +:+ "/" +:+ c +:+ "/" +:+ d
    /\ String.length a = 2%nat /\ String.length b = 2%nat
    /\ String.length c = 2%nat /\ String.length d = 34%nat
    /\ Forall is_lower_hex (list_ascii_of_string (a +:+ b +:+ c +:+ d))
    /\ a +:+ b +:+ c +:+ d = fmt_x (Sha1.sum s).
Proof.
  destruct (sum_bytes s) as [Hlen Hrange].
  unfold generateKeyForCache. cbv zeta.
  set (key := Sha1.sum s) in *.
  assert (Hsplit : key = take 1 key ++ take 1 (drop 1 key) ++ take 1 (drop 2 key)
                           ++ drop 3 key).
  { do 4 (destruct key as [|? key]; [discriminate|]). reflexivity. }
  eexists _, _, _, _. split; [reflexivity|].
  rewrite !fmt_x_length, !length_take, !length_drop, Hlen.
  repeat (split; [reflexivity|]).
  rewrite <- !fmt_x_app, <- Hsplit. split; [by apply fmt_x_lower | reflexivity].
Qed.
End Layout.

(** ** What [Image] lets through *)

Lemma digit_val_digit c : is_digit c -> digit_val c = Some (code c - 48).
Proof.
  unfold is_digit, digit_val, code. generalize (Z.of_N (N_of_ascii c)) as n. intros n Hn.
  replace (48 <=? n) with true by (symmetry; apply Z.leb_le; lia).
  replace (n <=? 57) with true by (symmetry; apply Z.leb_le; lia).
  reflexivity.
Qed.

Lemma parse_digits_digits ds : forall acc,
  Forall is_digit ds ->
  parse_digits acc (string_of_list_ascii ds)
    = Some (fold_left (fun a c => 10 * a + (code c - 48)) ds acc).
Proof.
  induction ds as [|d ds IH]; intros acc Hd; [reflexivity|].
  inversion_clear Hd as [|? ? Hd1 Hd2]. simpl. rewrite (digit_val_digit d Hd1).
  by apply IH.
Qed.

Lemma fold_digits_nonneg ds : forall acc,
  Forall is_digit ds -> 0 <= acc ->
  0 <= fold_left (fun a c => 10 * a + (code c - 48)) ds acc.
Proof.
  induction ds as [|d ds IH]; intros acc Hd Hacc; [done|].
  inversion_clear Hd as [|? ? Hd1 Hd2]. simpl. apply IH; [done|].
  unfold is_digit in Hd1. lia.
Qed.

Lemma decimal_nonneg ds : Forall is_digit ds -> 0 <= decimal ds.
Proof. intros Hd. by apply fold_digits_nonneg. Qed.

(** [ParseInt] on a string that writes a number: the number when it fits
    the bit size, ErrRange when it does not *)
Lemma ParseInt_of_denotes s n bits :
  1 <= bits -> denotes s n ->
  ParseInt s bits
    = if (- 2 ^ (bits - 1) <=? n) && (n <? 2 ^ (bits - 1)) then inl n else inr ErrRange.
Proof.
  intros Hbits. destruct 1 as [ds Hne Hd | ds Hne Hd | ds Hne Hd].
  - destruct ds as [|d ds]; [done|].
    pose proof (decimal_nonneg _ Hd) as Hpos.
    pose proof (parse_digits_digits (d :: ds) 0 Hd) as Hp.
    inversion_clear Hd as [|? ? Hd1 _]. apply digit_not_sign in Hd1 as [E1 E2].
    change (string_of_list_ascii (d :: ds)) with (String d (string_of_list_ascii ds)) in *.
    unfold ParseInt. rewrite E1, E2. cbn [orb negb andb]. rewrite Hp.
    fold (decimal (d :: ds)). set (un := decimal (d :: ds)) in *.
    set (cutoff := 2 ^ (bits - 1)).
    assert (0 < cutoff) by (apply Z.pow_pos_nonneg; lia).
    destruct (Z.leb_spec cutoff un), (Z.leb_spec (- cutoff) un), (Z.ltb_spec un cutoff);
      simpl; try reflexivity; lia.
  - destruct ds as [|d ds]; [done|].
    pose proof (decimal_nonneg _ Hd) as Hpos.
    pose proof (parse_digits_digits (d :: ds) 0 Hd) as Hp.
    change (string_of_list_ascii (d :: ds)) with (String d (string_of_list_ascii ds)) in *.
    unfold ParseInt. change (Ascii.eqb "+" "+") with true. change (Ascii.eqb "+" "-") with false.
    cbn [orb negb andb]. rewrite Hp.
    fold (decimal (d :: ds)). set (un := decimal (d :: ds)) in *.
    set (cutoff := 2 ^ (bits - 1)).
    assert (0 < cutoff) by (apply Z.pow_pos_nonneg; lia).
    destruct (Z.leb_spec cutoff un), (Z.leb_spec (- cutoff) un), (Z.ltb_spec un cutoff);
      simpl; try reflexivity; lia.
  - destruct ds as [|d ds]; [done|].
    pose proof (decimal_nonneg _ Hd) as Hpos.
    pose proof (parse_digits_digits (d :: ds) 0 Hd) as Hp.
    change (string_of_list_ascii (d :: ds)) with (String d (string_of_list_ascii ds)) in *.
    unfold ParseInt. change (Ascii.eqb "-" "+") with false. change (Ascii.eqb "-" "-") with true.
    cbn [orb negb andb]. rewrite Hp.
    fold (decimal (d :: ds)). set (un := decimal (d :: ds)) in *.
    set (cutoff := 2 ^ (bits - 1)).
    assert (0 < cutoff) by (apply Z.pow_pos_nonneg; lia).
    destruct (Z.ltb_spec cutoff un), (Z.leb_spec (- cutoff) (- un)), (Z.ltb_spec (- un) cutoff);
      simpl; try reflexivity; lia.
Qed.

Lemma ParseInt_range s bits n :
  1 <= bits -> ParseInt s bits = inl n -> - 2 ^ (bits - 1) <= n < 2 ^ (bits - 1).
Proof.
  intros Hbits E. pose proof (ParseInt_denotes _ _ _ E) as Hd.
  rewrite (ParseInt_of_denotes _ _ bits Hbits Hd) in E.
  destruct (Z.leb_spec (- 2 ^ (bits - 1)) n), (Z.ltb_spec n (2 ^ (bits - 1)));
    simpl in E; try discriminate; lia.
Qed.

Lemma ParseInt_32 s n : ParseInt s 32 = inl n <-> denotes s n /\ int32 n.
Proof.
  split.
  - intros E. split; [by eapply ParseInt_denotes | apply (ParseInt_range s 32 n); [lia | exact E]].
  - intros [Hd Hr]. rewrite (ParseInt_of_denotes _ _ 32 ltac:(lia) Hd). unfold int32 in Hr.
    change (2 ^ (32 - 1)) with (2 ^ 31).
    destruct (Z.leb_spec (- 2 ^ 31) n), (Z.ltb_spec n (2 ^ 31)); simpl; try reflexivity; lia.
Qed.

Lemma string_pair_ind (P : string -> Prop) :
  P EmptyString -> (forall c, P (String c EmptyString)) ->
  (forall p q r, P r -> P (String p (String q r))) -> forall s, P s.
Proof.
  intros H0 H1 H2. fix IH 1. intros [|p [|q r]]; [exact H0 | apply H1 | apply H2, IH].
Qed.

Lemma fromHexChar_Some c v : fromHexChar c = Some v -> is_hex_char c /\ 0 <= v < 16.
Proof.
  unfold fromHexChar, is_hex_char, code. generalize (Z.of_N (N_of_ascii c)) as n. intros n.
  destruct (Z.leb_spec 48 n), (Z.leb_spec n 57), (Z.leb_spec 97 n),
    (Z.leb_spec n 102), (Z.leb_spec 65 n), (Z.leb_spec n 70);
    simpl; intros [= <-]; lia.
Qed.

Lemma fromHexChar_hex c : is_hex_char c -> exists v, fromHexChar c = Some v.
Proof.
  intros Hc. destruct (fromHexChar c) as [v|] eqn:E; [by exists v|].
  exfalso. revert Hc E. unfold fromHexChar, is_hex_char, code.
  generalize (Z.of_N (N_of_ascii c)) as n. intros n Hc.
  destruct (Z.leb_spec 48 n), (Z.leb_spec n 57), (Z.leb_spec 97 n),
    (Z.leb_spec n 102), (Z.leb_spec 65 n), (Z.leb_spec n 70);
    simpl; try discriminate; lia.
Qed.

(** [hex.DecodeString] succeeds on the strings of an even number of hex
    digits and on no other, and gives a byte for two digits *)
Lemma hex_DecodeString_Some s :
  (exists t, hex_DecodeString s = Some t)
  <-> Nat.even (String.length s) = true /\ Forall is_hex_char (list_ascii_of_string s).
Proof.
  induction s as [|c|p q r IH] using string_pair_ind.
  - split; [intros _; split; [reflexivity | constructor] | intros _; by exists EmptyString].
  - split; [intros [t [=]] | intros [[=] _]].
  - change (Nat.even (String.length (String p (String q r))))
      with (Nat.even (String.length r)).
    simpl hex_DecodeString. simpl list_ascii_of_string. split.
    + intros [t Ht].
      destruct (fromHexChar p) as [a|] eqn:Ea; [|discriminate].
      destruct (fromHexChar q) as [b|] eqn:Eb; [|discriminate].
      destruct (hex_DecodeString r) as [t'|] eqn:Er; [|discriminate].
      destruct IH as [[He Hf] _]; [by exists t'|].
      split; [exact He|].
      constructor; [by eapply fromHexChar_Some|].
      constructor; [by eapply fromHexChar_Some | exact Hf].
    + intros [He Hf]. inversion_clear Hf as [|? ? Hp Hf']. inversion_clear Hf' as [|? ? Hq Hr].
      destruct (fromHexChar_hex p Hp) as [a ->], (fromHexChar_hex q Hq) as [b ->].
      destruct IH as [_ [t ->]]; [by split|]. by eexists.
Qed.

Lemma hex_DecodeString_length s t :
  hex_DecodeString s = Some t -> String.length s = (2 * String.length t)%nat.
Proof.
  revert t. induction s as [|c|p q r IH] using string_pair_ind; intros t.
  - by intros [= <-].
  - discriminate.
  - simpl hex_DecodeString.
    destruct (fromHexChar p), (fromHexChar q); try discriminate.
    destruct (hex_DecodeString r) as [t'|]; [|discriminate].
    intros [= <-]. simpl. rewrite (IH t' eq_refl). lia.
Qed.

Lemma valid_request_iff (r : Request) :
  valid_request r
  <-> exists a b uri,
        ParseInt (strWidth r) 32 = inl a /\ ParseInt (strHeight r) 32 = inl b
        /\ (a * b >? maxSize) = false /\ hex_DecodeString (encoded_url r) = Some uri.
Proof.
  unfold valid_request. split.
  - intros (a & b & Ha & Hb & Ra & Rb & Hab & He & Hh).
    destruct (proj2 (hex_DecodeString_Some (encoded_url r))) as [uri Hu]; [by split|].
    exists a, b, uri.
    split; [by apply ParseInt_32|]. split; [by apply ParseInt_32|]. split; [|done].
    unfold maxSize. change (Z.shiftl 1 20) with (2 ^ 20).
    rewrite Z.gtb_ltb. apply Z.ltb_ge. lia.
  - intros (a & b & uri & Ha & Hb & Hab & Hu).
    apply ParseInt_32 in Ha as [Ha Ra], Hb as [Hb Rb].
    destruct (proj1 (hex_DecodeString_Some (encoded_url r))) as [He Hh]; [by exists uri|].
    exists a, b. do 4 (split; [done|]). split; [|by split].
    unfold maxSize in Hab. change (Z.shiftl 1 20) with (2 ^ 20) in Hab.
    rewrite Z.gtb_ltb in Hab. apply Z.ltb_ge in Hab. lia.
Qed.

(** the four ways in which [Image] turns a request down *)
Ltac invalid r :=
  let Hv := fresh "Hv" in
  assert (Hv : ~ valid_request r)
    by (rewrite valid_request_iff; intros (? & ? & ? & ? & ? & ? & ?); congruence);
  split; [by left|]; split; [split; [intros _; exact Hv | reflexivity]|];
  split; [reflexivity|]; intros ? ? ?; by exfalso.

Section Answers.
Context `{Platform}.

(** X2: what [Img] answers, for every request and in every world.  The
    status is 400, 404, 304 or 200.  It is 400 exactly when the request is
    not valid, that is unless width and height are base-10 integers of 32
    bits whose product is at most [5 * 2^20] and [encoded_url] is an even
    number of hex digits; then nothing was done: the world is as it was.
    A valid request enters the pipeline with the integers that width and
    height write and the bytes that [encoded_url] encodes, starting with
    the cache lookup of the resized variation. *)
Theorem Img_answers (r : Request) (wld : World) (resp : ResponseWriter) (wld' : World) :
  Img newWriter r wld = Done resp wld' ->
  (status resp = Some 400 \/ status resp = Some 404
   \/ status resp = Some 304 \/ status resp = Some 200)
  /\ (status resp = Some 400 <-> ~ valid_request r)
  /\ (status resp = Some 400 -> wld' = wld)
  /\ (forall a b,
        valid_request r -> denotes (strWidth r) a -> denotes (strHeight r) b ->
        exists uri evs,
          hex_DecodeString (encoded_url r) = Some uri
          /\ String.length (encoded_url r) = (2 * String.length uri)%nat
          /\ trace wld'
               = evs ++ EvRedis "HGET" (metadata_key (resize_variation a b) uri) :: trace wld).
Proof.
  intros E. unfold Img, Image in E.
  destruct (ParseInt (strWidth r) 32) as [width|e1] eqn:Ew.
  2:{ injection E as <- <-. invalid r. }
  destruct (ParseInt (strHeight r) 32) as [height|e1] eqn:Eh.
  2:{ injection E as <- <-. invalid r. }
  destruct (width * height >? maxSize) eqn:Ea.
  { injection E as <- <-. invalid r. }
  destruct (hex_DecodeString (encoded_url r)) as [uri|] eqn:Eu.
  2:{ injection E as <- <-. invalid r. }
  assert (Hvalid : valid_request r)
    by (apply valid_request_iff; by exists width, height, uri).
  assert (Hstatus : status resp = Some 404 \/ status resp = Some 304
                    \/ status resp = Some 200).
  { revert E. unfold mbind, M_bind.
    destruct (fetchResizedImage uri width height wld) as [[[headers body] [e|]] w1|];
      [| |discriminate].
    - intros [= <- _]. by left.
    - destruct (String.eqb _ _); intros [= <- _]; [right; by left | right; by right]. }
  split; [by right|]. split; [|split].
  - split; [intros E4; rewrite E4 in Hstatus; by destruct Hstatus as [[=] | [[=] | [=]]]
           | by intros []].
  - intros E4. rewrite E4 in Hstatus. by destruct Hstatus as [[=] | [[=] | [=]]].
  - intros a b _ Ha Hb.
    apply ParseInt_denotes in Ew, Eh.
    rewrite (denotes_functional _ _ _ Ha Ew), (denotes_functional _ _ _ Hb Eh).
    exists uri.
    assert (Hs : starts_with
                   (EvRedis "HGET" (metadata_key (resize_variation width height) uri))
                   (fetchResizedImage uri width height ≫=
                      λ '(headers, body, err),
                        match err with
                        | Some _ => mret (http_NotFound newWriter)
                        | None =>
                            if String.eqb (lastModified headers) (IfModifiedSince r)
                            then mret (WriteHeader 304 newWriter)
                            else mret (Write body
                                   (Header_Add "Cache-Control" (cacheControl headers)
                                     (Header_Add "Last-Modified" (lastModified headers)
                                       (Header_Add "Content-Type" (contentType headers)
                                          newWriter))))
                        end)).
    { apply (starts_with_bind _ _ _ (starts_fetchResizedImage uri width height)).
      intros [[headers body] err]. prove_reads. }
    destruct (Hs wld) as [evs Hevs]. rewrite E in Hevs. exists evs.
    split; [reflexivity|]. split; [by apply hex_DecodeString_length | exact Hevs].
Qed.
End Answers.

Lemma Img_answers_witness :
  let r := Testbed.request "50" "50" in
  let wld := Testbed.fresh Testbed.srv in
  exists resp wld',
    Img newWriter r wld = Done resp wld'
    /\ (status resp = Some 400 \/ status resp = Some 404
        \/ status resp = Some 304 \/ status resp = Some 200)
    /\ (status resp = Some 400 <-> ~ valid_request r)
    /\ (status resp = Some 400 -> wld' = wld).
Proof.
  intros r wld.
  destruct (Img newWriter r wld) as [resp wld'|msg wld'] eqn:E;
    [|vm_compute in E; discriminate].
  exists resp, wld'. split; [reflexivity|].
  destruct (Img_answers r wld resp wld' E) as (H1 & H2 & H3 & _).
  repeat split; try done; apply H2.
Defined.

(** X3: the product that [Image] compares with [maxSize] is exact.  Width
    and height come out of [ParseInt] with bit size 32, so each lies between
    [-2^31] and [2^31 - 1], and their product, computed in 64 bits, does
    not wrap around: a size above the ceiling cannot come to look small. *)
Theorem Image_size_check_exact (sw sh : string) (width height : Z) :
  ParseInt sw 32 = inl width -> ParseInt sh 32 = inl height ->
  int32 width /\ int32 height
  /\ image.wrap (width * height) = width * height
  /\ - 2 ^ 62 < width * height <= 2 ^ 62.
Proof.
  intros [_ Hw]%ParseInt_32 [_ Hh]%ParseInt_32. unfold int32 in *.
  assert (Hp : - 2 ^ 62 < width * height <= 2 ^ 62) by nia.
  repeat split; try lia.
  unfold image.wrap.
  rewrite Z.mod_small by lia. lia.
Qed.

Lemma Image_size_check_exact_witness :
  ParseInt "-2147483648" 32 = inl (- 2 ^ 31) /\ ParseInt "2147483647" 32 = inl (2 ^ 31 - 1)
  /\ image.wrap (- 2 ^ 31 * (2 ^ 31 - 1)) = - 2 ^ 31 * (2 ^ 31 - 1).
Proof.
  split; [reflexivity|]. split; [reflexivity|].
  apply (Image_size_check_exact "-2147483648" "2147483647"); reflexivity.
Defined.

(** ** The numbers in a variation *)

(** the number that the digits of [d] write after [acc] *)
Lemma string_of_uint_digits d :
  Forall is_digit (list_ascii_of_string (NilEmpty.string_of_uint d)).
Proof.
  induction d; simpl; constructor; try exact IHd; unfold is_digit, code; simpl; lia.
Qed.

Lemma decimal_string_of_uint_acc d : forall acc : positive,
  fold_left (fun a c => 10 * a + (code c - 48))
    (list_ascii_of_string (NilEmpty.string_of_uint d)) (Z.pos acc)
  = Z.pos (Pos.of_uint_acc d acc).
Proof.
  induction d; intros acc; simpl; try reflexivity;
    match goal with
    | |- fold_left _ _ ?z = Z.pos (Pos.of_uint_acc _ ?p) =>
        replace z with (Z.pos p) by (unfold code; simpl; lia)
    end; apply IHd.
Qed.

Lemma decimal_string_of_uint d :
  decimal (list_ascii_of_string (NilEmpty.string_of_uint d)) = Z.of_N (Pos.of_uint d).
Proof.
  unfold decimal.
  induction d; simpl; try reflexivity; try exact IHd;
    match goal with
    | |- fold_left _ _ ?z = Z.pos (Pos.of_uint_acc _ ?p) =>
        replace z with (Z.pos p) by (unfold code; simpl; lia)
    end; apply decimal_string_of_uint_acc.
Qed.

Lemma string_of_uint_to_uint p :
  NilZero.string_of_uint (Pos.to_uint p) = NilEmpty.string_of_uint (Pos.to_uint p)
  /\ list_ascii_of_string (NilEmpty.string_of_uint (Pos.to_uint p)) <> [].
Proof.
  pose proof (DecimalPos.Unsigned.to_uint_nonnil p) as Hn.
  destruct (Pos.to_uint p); try done; split; try reflexivity; discriminate.
Qed.

(** the verb [%d] writes its number in base 10 *)
Lemma denotes_fmt_d n : denotes (fmt_d n) n.
Proof.
  unfold fmt_d. destruct n as [|p|p]; simpl.
  - apply (denotes_plain ["0"%char]); [discriminate|].
    constructor; [unfold is_digit, code; simpl; lia | constructor].
  - destruct (string_of_uint_to_uint p) as [-> Hne].
    rewrite <- (string_of_list_ascii_of_string (NilEmpty.string_of_uint (Pos.to_uint p))).
    replace (Z.pos p)
      with (decimal (list_ascii_of_string (NilEmpty.string_of_uint (Pos.to_uint p)))).
    + apply denotes_plain; [exact Hne | apply string_of_uint_digits].
    + rewrite decimal_string_of_uint, DecimalPos.Unsigned.of_to. reflexivity.
  - destruct (string_of_uint_to_uint p) as [-> Hne].
    rewrite <- (string_of_list_ascii_of_string (NilEmpty.string_of_uint (Pos.to_uint p))).
    replace (Z.neg p)
      with (- decimal (list_ascii_of_string (NilEmpty.string_of_uint (Pos.to_uint p)))).
    + apply denotes_minus; [exact Hne | apply string_of_uint_digits].
    + rewrite decimal_string_of_uint, DecimalPos.Unsigned.of_to. reflexivity.
Qed.

Lemma fmt_d_inj a b : fmt_d a = fmt_d b -> a = b.
Proof.
  intros E. apply (denotes_functional (fmt_d a)); [apply denotes_fmt_d|].
  rewrite E. apply denotes_fmt_d.
Qed.



(** ** The keys of the caches *)

Lemma append_nil (b : string) : "" +:+ b = b.
Proof. reflexivity. Qed.

Lemma append_cons (x : ascii) (a b : string) : String x a +:+ b = String x (a +:+ b).
Proof. reflexivity. Qed.

Lemma append_assoc (a b c : string) : (a +:+ b) +:+ c = a +:+ (b +:+ c).
Proof.
  induction a as [|x a IH]; [reflexivity|]. rewrite !append_cons. by rewrite IH.
Qed.

(** a string is cut at the first separator in one way only *)
Lemma append_sep_inj (sep : ascii) (a a' r r' : string) :
  ~ In sep (list_ascii_of_string a) -> ~ In sep (list_ascii_of_string a') ->
  a +:+ String sep r = a' +:+ String sep r' -> a = a' /\ r = r'.
Proof.
  revert a'. induction a as [|x a IH]; intros [|x' a'] Ha Ha';
    rewrite ?append_cons, ?append_nil; simpl in Ha, Ha'.
  - by intros [= ->].
  - intros [= <- _]. exfalso. apply Ha'. by left.
  - intros [= -> _]. exfalso. apply Ha. by left.
  - intros [= -> E]. destruct (IH a') as [-> ->]; try done.
    + intros Hin. apply Ha. by right.
    + intros Hin. apply Ha'. by right.
Qed.

Lemma denotes_chars s n :
  denotes s n ->
  Forall (fun c => is_digit c \/ c = "+"%char \/ c = "-"%char) (list_ascii_of_string s).
Proof.
  assert (G : forall ds, Forall is_digit ds ->
            Forall (fun c => is_digit c \/ c = "+"%char \/ c = "-"%char) ds).
  { intros ds Hd. eapply Forall_impl; [exact Hd | by left]. }
  destruct 1 as [ds _ Hd | ds _ Hd | ds _ Hd]; simpl;
    rewrite list_ascii_of_string_of_list_ascii; auto.
Qed.

(** neither ["/"] nor [":"] is in what [%d] writes *)
Lemma fmt_d_no_sep n c :
  c = "/"%char \/ c = ":"%char -> ~ In c (list_ascii_of_string (fmt_d n)).
Proof.
  intros Hc Hin.
  pose proof (denotes_chars _ _ (denotes_fmt_d n)) as Hf.
  destruct (proj1 (List.Forall_forall _ _) Hf c Hin) as [Hd | [-> | ->]].
  - unfold is_digit, code in Hd. destruct Hc as [-> | ->]; simpl in Hd; lia.
  - by destruct Hc.
  - by destruct Hc.
Qed.

Lemma resize_variation_sep_inj (sep : ascii) (w h w' h' : Z) (uri uri' : string) :
  sep = "/"%char \/ sep = ":"%char ->
  resize_variation w h +:+ String sep uri = resize_variation w' h' +:+ String sep uri' ->
  w = w' /\ h = h' /\ uri = uri'.
Proof.
  intros Hsep. unfold resize_variation. rewrite !append_assoc.
  intros E%(inj (String.append "resize/")). rewrite !append_cons, !append_nil in E.
  apply append_sep_inj in E as [Ew E]; try (apply fmt_d_no_sep; by left).
  apply append_sep_inj in E as [Eh E]; try by apply fmt_d_no_sep.
  apply fmt_d_inj in Ew, Eh. done.
Qed.

Section Keys.
Context `{Platform}.

(** X5: the keys under which the pipeline keeps what it knows do not
    clash.  [fetchResizedImage] starts with the lookup of the metadata key
    of its variation; this key, and equally the string whose digest names
    the file of the variation, determines the URL, the width and the
    height; the keys of resized variations, of originals and of failure
    records are three disjoint families, whatever the URLs are. *)
Theorem cache_keys_injective (uri uri' : string) (w h w' h' : Z) :
  let v := resize_variation w h in
  let v' := resize_variation w' h' in
  starts_with (EvRedis "HGET" (metadata_key v uri)) (fetchResizedImage uri w h)
  /\ (metadata_key v uri = metadata_key v' uri' -> w = w' /\ h = h' /\ uri = uri')
  /\ (digest_input v uri = digest_input v' uri' -> w = w' /\ h = h' /\ uri = uri')
  /\ (metadata_key "orig" uri = metadata_key "orig" uri' -> uri = uri')
  /\ (digest_input "orig" uri = digest_input "orig" uri' -> uri = uri')
  /\ metadata_key v uri <> metadata_key "orig" uri'
  /\ digest_input v uri <> digest_input "orig" uri'
  /\ metadata_key v uri <> "img/err/" +:+ uri'
  /\ metadata_key "orig" uri <> "img/err/" +:+ uri'
  /\ ("img/err/" +:+ uri = "img/err/" +:+ uri' -> uri = uri').
Proof.
  intros v v'. split; [apply starts_fetchResizedImage|].
  split; [|split].
  - unfold metadata_key. intros E%(inj (String.append "img/")).
    apply (resize_variation_sep_inj "/") in E; [done | by left].
  - unfold digest_input. intros E.
    apply (resize_variation_sep_inj ":") in E; [done | by right].
  - unfold metadata_key, digest_input, v, resize_variation.
    rewrite !append_cons, !append_nil.
    repeat split; try discriminate; by intros [= ->].
Qed.
End Keys.

(** ** The steps of the pipeline, in closed form *)

Section ClosedForms.
Context `{Platform}.

Lemma fetchImageFromCache_eq uri variation w :
  fetchImageFromCache uri variation w
    = let hget := EvRedis "HGET" (metadata_key variation uri) in
      let filename := generateKeyForCache uri in
      match metadata_type w variation uri with
      | None => Done (zeroHeaders, [], false) (set_trace (hget :: trace w) w)
      | Some type =>
          match files w !! filename with
          | None =>
              Done (zeroHeaders, [], false)
                   (set_trace (EvStat filename :: hget :: trace w) w)
          | Some f =>
              Done (mkHeaders type (RFC1123 (fmtime f)) "",
                    if freadable f then fdata f else [], freadable f)
                   (set_trace (EvReadFile filename :: EvStat filename :: hget :: trace w) w)
          end
      end.
Proof.
  unfold fetchImageFromCache, redis_Hget, os_Stat, ioutil_ReadFile, metadata_type,
    metadata_key, redis_lookup. run.
  destruct (redis w !! _) as [e|]; [|reflexivity].
  destruct (live (now w) e); [|reflexivity].
  destruct (rvalue e) as [s|fields]; [reflexivity|].
  destruct (fields !! "type") as [type|]; [|reflexivity]. simpl.
  destruct (files w !! generateKeyForCache uri) as [f|] eqn:Ef; [|reflexivity]. simpl.
  rewrite Ef. by destruct (freadable f).
Qed.

Lemma fetchImageFromServer_outcome uri w :
  server_outcome uri w (fetchImageFromServer uri w).
Proof.
  destruct (origin w uri) as [e|res] eqn:E.
  { rewrite (fetchImageFromServer_transport uri w e E). constructor. }
  destruct (Z.eq_dec (StatusCode res) 200) as [Hs|Hs].
  2:{ rewrite (fetchImageFromServer_status uri w res E Hs). by constructor. }
  destruct (Body res) as [body|partial e] eqn:Hb.
  2:{ rewrite (fetchImageFromServer_read uri w res partial e E Hs Hb). constructor. }
  destruct (Z_gt_le_dec (ContentLength res) maxSize) as [Hl|Hl].
  { rewrite (fetchImageFromServer_size uri w res body E Hs Hb Hl). by constructor. }
  destruct (slice (HeaderContentType res) 0 5) as [prefix|] eqn:Hc.
  2:{ rewrite (fetchImageFromServer_short uri w res body E Hs Hb Hl (slice_None_short _ Hc)).
      exact (server_panic uri w res body E Hs Hb Hl (slice_None_short _ Hc)). }
  destruct (String.eqb_spec prefix "image") as [->|Hp].
  2:{ rewrite (fetchImageFromServer_type uri w res body prefix E Hs Hb Hl Hc Hp).
      by constructor. }
  rewrite (fetchImageFromServer_ok uri w res body E Hs Hb Hl Hc).
  by apply server_image.
Qed.

(** [fetchImage] once no failure of the URL is on record *)
Lemma fetchImage_eq uri w :
  live_error w uri = None ->
  fetchImage uri w
    = let public h := mkHeaders (contentType h) (lastModified h) "public, max-age=600" in
      match fetchImageFromCache uri "orig"
              (set_trace (EvRedis "GET" ("img/err/" +:+ uri) :: trace w) w) with
      | Done (h, b, true) w1 => Done (public h, b, None) w1
      | Done (_, _, false) w1 =>
          match fetchImageFromServer uri w1 with
          | Done (h, b, err) w2 => Done (public h, b, err) w2
          | Panicked msg w2 => Panicked msg w2
          end
      | Panicked msg w1 => Panicked msg w1
      end.
Proof.
  intros Hl. unfold fetchImage. unfold mbind at 1, M_bind at 1.
  rewrite urlStatus_eq, Hl. simpl. unfold mbind, M_bind.
  destruct (fetchImageFromCache uri "orig" _) as [[[h b] [|]] w1|msg w1]; try reflexivity.
  destruct (fetchImageFromServer uri w1) as [[[h' b'] err] w2|msg w2]; reflexivity.
Qed.

Lemma resizeImage_headers uri origBody origHeaders width height w headers body w' :
  resizeImage uri origBody origHeaders width height w = Done (headers, body, None) w' ->
  lastModified headers = lastModified origHeaders
  /\ cacheControl headers = cacheControl origHeaders
  /\ (headers = origHeaders /\ body = list_byte_of_string origBody
      \/ contentType headers = "image/png").
Proof.
  unfold resizeImage. run. destruct (image_Decode origBody); [|discriminate].
  destruct (_ && _).
  - intros [= <- <- _]. repeat split. by left.
  - destruct (png_Encode _); [|discriminate]. intros [= <- <- _]. repeat split. by right.
Qed.
End ClosedForms.

(** ** Reading the caches *)

Section Reading.
Context `{Platform}.

(** X6: a hit of [fetchImageFromCache] is a content type recorded in Redis
    for the variation and a readable file under the name that the URL
    alone gives.  The variation picks the content type only: the hits of
    two variations of a URL return the same bytes and the same
    modification date, those of the one file of the URL.  A lookup whose
    metadata is missing does not touch the cache directory. *)
Theorem fetchImageFromCache_file_ignores_variation (uri v1 v2 : string) (w : World)
    (h1 h2 : Headers) (b1 b2 : list byte) (w1 w2 : World) :
  fetchImageFromCache uri v1 w = Done (h1, b1, true) w1 ->
  fetchImageFromCache uri v2 w = Done (h2, b2, true) w2 ->
  b1 = b2 /\ lastModified h1 = lastModified h2
  /\ (exists f, files w !! generateKeyForCache uri = Some f /\ freadable f = true
                /\ b1 = fdata f /\ lastModified h1 = RFC1123 (fmtime f))
  /\ metadata_type w v1 uri = Some (contentType h1)
  /\ metadata_type w v2 uri = Some (contentType h2)
  /\ forall v, metadata_type w v uri = None ->
       fetchImageFromCache uri v w
         = Done (zeroHeaders, [], false)
                (set_trace (EvRedis "HGET" (metadata_key v uri) :: trace w) w).
Proof.
  rewrite !fetchImageFromCache_eq. cbv zeta.
  destruct (metadata_type w v1 uri) as [t1|]; [|discriminate].
  destruct (metadata_type w v2 uri) as [t2|]; [|discriminate].
  destruct (files w !! generateKeyForCache uri) as [f|]; [|discriminate].
  destruct (freadable f) eqn:Er; [|discriminate].
  intros [= <- <- _] [= <- <- _]. simpl.
  repeat split; try reflexivity.
  - by exists f.
  - intros v Hv. rewrite fetchImageFromCache_eq. cbv zeta. by rewrite Hv.
Qed.

(** X7: an original that is cached is served without the origin.  When no
    failure of the URL is on record, Redis holds a content type for the
    variation [orig] and the file of the URL can be read, [fetchImage]
    returns the bytes of the file with the recorded content type, the
    modification time of the file as Last-Modified and Cache-Control
    [public, max-age=600]; it has asked Redis twice and the cache
    directory twice, and has queued nothing. *)
Theorem fetchImage_served_from_cache (uri type : string) (f : File) (w : World) :
  live_error w uri = None ->
  metadata_type w "orig" uri = Some type ->
  files w !! generateKeyForCache uri = Some f ->
  freadable f = true ->
  fetchImage uri w
    = Done (mkHeaders type (RFC1123 (fmtime f)) "public, max-age=600", fdata f, None)
           (set_trace
              (EvReadFile (generateKeyForCache uri) :: EvStat (generateKeyForCache uri)
                 :: EvRedis "HGET" (metadata_key "orig" uri)
                 :: EvRedis "GET" ("img/err/" +:+ uri) :: trace w) w).
Proof.
  intros Hl Hm Hf Hr. rewrite (fetchImage_eq uri w Hl). cbv zeta.
  rewrite fetchImageFromCache_eq. cbv zeta.
  change (metadata_type (set_trace _ w) "orig" uri) with (metadata_type w "orig" uri).
  rewrite Hm. change (files (set_trace _ w)) with (files w). rewrite Hf, Hr.
  reflexivity.
Qed.
End Reading.

Lemma fetchImageFromCache_file_ignores_variation_witness :
  let w := set_redis
             (<["img/orig/http://a/b.gif" := mkEntry (RHash {["type" := "image/gif"]}) None]>
                (redis Testbed.stale)) Testbed.stale in
  let file := generateKeyForCache Testbed.url in
  let b := list_byte_of_string "PNG 50x25" in
  let h1 := mkHeaders "image/gif" (RFC1123 900) "" in
  let h2 := mkHeaders "image/png" (RFC1123 900) "" in
  let w1 := set_trace [EvReadFile file; EvStat file; EvRedis "HGET" "img/orig/http://a/b.gif"] w in
  let w2 := set_trace [EvReadFile file; EvStat file;
                       EvRedis "HGET" "img/resize/50/50/http://a/b.gif"] w in
  fetchImageFromCache Testbed.url "orig" w = Done (h1, b, true) w1
  /\ fetchImageFromCache Testbed.url "resize/50/50" w = Done (h2, b, true) w2
  /\ b = b /\ lastModified h1 = lastModified h2.
Proof.
  intros w file b h1 h2 w1 w2.
  assert (E1 : fetchImageFromCache Testbed.url "orig" w = Done (h1, b, true) w1)
    by (vm_compute; reflexivity).
  assert (E2 : fetchImageFromCache Testbed.url "resize/50/50" w = Done (h2, b, true) w2)
    by (vm_compute; reflexivity).
  split; [exact E1|]. split; [exact E2|].
  destruct (fetchImageFromCache_file_ignores_variation _ _ _ _ _ _ _ _ _ _ E1 E2)
    as (Hb & Hm & _).
  split; [exact Hb | exact Hm].
Defined.

Lemma fetchImage_served_from_cache_witness :
  let w := set_redis
             {["img/orig/http://a/b.gif" := mkEntry (RHash {["type" := "image/gif"]}) None]}
             Testbed.stale in
  let file := generateKeyForCache Testbed.url in
  file = "cache/e1/4a/1c/eb51eb71e8ccb668bb5127041d4f8f97ca"
  /\ fetchImage Testbed.url w
      = Done (mkHeaders "image/gif" (RFC1123 900) "public, max-age=600",
              list_byte_of_string "PNG 50x25", None)
             (set_trace
                (EvReadFile file :: EvStat file :: EvRedis "HGET" (metadata_key "orig" Testbed.url)
                   :: EvRedis "GET" ("img/err/" +:+ Testbed.url) :: trace w) w).
Proof.
  intros w file. split; [by vm_compute|].
  apply (fetchImage_served_from_cache Testbed.url "image/gif"
           (mkFile (list_byte_of_string "PNG 50x25") 900 true) w);
    vm_compute; reflexivity.
Defined.

(** ** Writing the caches *)


Section Writing.
Context `{Platform}.

End Writing.

(** ** From one request to the next *)

Section Sequel.
Context `{Platform}.

Lemma live_error_frame w w' uri :
  now w' = now w -> redis w' !! ("img/err/" +:+ uri) = redis w !! ("img/err/" +:+ uri) ->
  live_error w' uri = live_error w uri.
Proof. intros Hn Hr. unfold live_error, redis_lookup. by rewrite Hn, Hr. Qed.

(** what the goroutine of [saveImageInCache] leaves as it was *)
Lemma saveImageInCache_go_frame uri variation headers body w :
  let w' := world_of (saveImageInCache_go uri variation headers body w) in
  (forall p, p <> generateKeyForCache (digest_input variation uri) ->
     files w' !! p = files w !! p)
  /\ (forall k, k <> metadata_key variation uri -> redis w' !! k = redis w !! k)
  /\ pending w' = pending w /\ now w' = now w /\ origin w' = origin w
  /\ (exists evs, trace w' = evs ++ trace w /\ origin_fetches evs = 0%nat)
  /\ (disk_fault w (path_Dir (generateKeyForCache (digest_input variation uri))) = false ->
      disk_fault w (generateKeyForCache (digest_input variation uri)) = false ->
      files w' !! generateKeyForCache (digest_input variation uri)
        = Some (mkFile body (now w) true)).
Proof.
  unfold saveImageInCache_go, os_MkdirAll, ioutil_WriteFile, redis_Hset, redis_lookup.
  fold (digest_input variation uri). fold (metadata_key variation uri). run.
  assert (G0 : forall (e1 : Event) (t : list Event),
            (match e1 with EvHttpGet _ => false | _ => true end) = true ->
            exists evs, e1 :: t = evs ++ t /\ origin_fetches evs = 0%nat).
  { intros e1 t He. exists [e1]. split; [done|]. destruct e1; try done. }
  assert (G1 : forall (e1 e2 : Event) (t : list Event),
            (match e1 with EvHttpGet _ => false | _ => true end) = true ->
            (match e2 with EvHttpGet _ => false | _ => true end) = true ->
            exists evs, e1 :: e2 :: t = evs ++ t /\ origin_fetches evs = 0%nat).
  { intros e1 e2 t He1 He2. exists [e1; e2]. split; [done|]. by destruct e1, e2. }
  assert (G2 : forall (e1 e2 e3 : Event) (t : list Event),
            (match e1 with EvHttpGet _ => false | _ => true end) = true ->
            (match e2 with EvHttpGet _ => false | _ => true end) = true ->
            (match e3 with EvHttpGet _ => false | _ => true end) = true ->
            exists evs, e1 :: e2 :: e3 :: t = evs ++ t /\ origin_fetches evs = 0%nat).
  { intros e1 e2 e3 t He1 He2 He3. exists [e1; e2; e3]. split; [done|].
    by destruct e1, e2, e3. }
  destruct (disk_fault w (path_Dir _)); simpl; [repeat split; try done; by apply G0|].
  destruct (disk_fault w (generateKeyForCache _)); simpl;
    [repeat split; try done; by apply G1|].
  destruct (redis w !! metadata_key variation uri) as [e|]; simpl.
  - destruct (live (now w) e); simpl.
    + destruct (rvalue e); simpl; repeat split; try done;
        try (intros; by rewrite lookup_insert_ne);
        try (intros; by rewrite lookup_insert_eq); by apply G2.
    + repeat split; try done; try (intros; by rewrite lookup_insert_ne);
        try (intros; by rewrite lookup_insert_eq); by apply G2.
  - repeat split; try done; try (intros; by rewrite lookup_insert_ne);
      try (intros; by rewrite lookup_insert_eq); by apply G2.
Qed.

Lemma saveErrorInCache_go_frame uri err w :
  let w' := world_of (saveErrorInCache_go uri err w) in
  pending w' = pending w /\ files w' = files w /\ now w' = now w.
Proof.
  unfold saveErrorInCache_go, redis_Set, redis_Expire, redis_lookup. run.
  rewrite lookup_insert_eq. by destruct (live _ _).
Qed.

Lemma settle_one w t :
  pending w = [t] -> settle w = world_of (run_task t (set_pending [] w)).
Proof. intros Hp. unfold settle. by rewrite Hp. Qed.

(** X9: a refusal is remembered.  When [fetchImageFromServer] has failed
    with an error of its own making and the goroutine it started has run,
    then for the 600 seconds that follow [fetchImage] fails with the text
    of that error after one question to Redis, without asking the origin,
    and from then on no failure of the URL is on record. *)
Theorem refused_origin_is_left_alone (uri : string) (w : World) (headers : Headers)
    (body : list byte) (text : string) (w' : World) :
  pending w = [] ->
  fetchImageFromServer uri w = Done (headers, body, Some (errors_New text)) w' ->
  let w1 := settle w' in
  pending w1 = []
  /\ (forall t, t < now w + 600 ->
        fetchImage uri (set_now t w1)
          = Done (zeroHeaders, [], Some (errors_New text))
                 (set_trace (EvRedis "GET" ("img/err/" +:+ uri) :: trace w1) (set_now t w1)))
  /\ (forall t, now w + 600 <= t -> live_error (set_now t w1) uri = None).
Proof.
  intros Hp E w1. subst w1.
  pose proof (fetchImageFromServer_outcome uri w) as Ho. rewrite E in Ho.
  inversion Ho; subst. clear Ho.
  rewrite Hp. simpl app.
  rewrite (settle_one _ (SaveError uri (errors_New text))) by reflexivity.
  simpl run_task.
  pose proof (saveErrorInCache_go_frame uri (errors_New text)) as Hfr. cbv zeta in Hfr.
  split; [by rewrite (proj1 (Hfr _))|].
  split.
  - intros t Ht.
    rewrite (fetchImage_live_error uri text); [reflexivity|].
    rewrite saveErrorInCache_go_live. simpl.
    by replace (t <? now w + 600) with true by (symmetry; apply Z.ltb_lt; lia).
  - intros t Ht. rewrite saveErrorInCache_go_live. simpl.
    by replace (t <? now w + 600) with false by (symmetry; apply Z.ltb_ge; lia).
Qed.

(** X10: an original that was fetched is fetched again.  After
    [fetchImageFromServer] has returned an image and its goroutine has
    written it to the cache of originals without a fault of the disk, the
    bytes lie in the file named by the digest of ["orig:" + uri].
    [fetchImage] looks for the file named by the digest of [uri]: unless
    such a file was there before or the two names collide, it asks the
    origin once more. *)
Theorem fetched_original_is_fetched_again (uri : string) (w : World) (headers : Headers)
    (body : list byte) (w' : World) :
  pending w = [] ->
  live_error w uri = None ->
  files w !! generateKeyForCache uri = None ->
  generateKeyForCache (digest_input "orig" uri) <> generateKeyForCache uri ->
  fetchImageFromServer uri w = Done (headers, body, None) w' ->
  let w1 := settle w' in
  pending w1 = []
  /\ (disk_fault w (path_Dir (generateKeyForCache (digest_input "orig" uri))) = false ->
      disk_fault w (generateKeyForCache (digest_input "orig" uri)) = false ->
      files w1 !! generateKeyForCache (digest_input "orig" uri)
        = Some (mkFile body (now w) true))
  /\ files w1 !! generateKeyForCache uri = None
  /\ exists evs,
       trace (world_of (fetchImage uri w1)) = evs ++ trace w1
       /\ origin_fetches evs = 1%nat.
Proof.
  intros Hp Hl Hf Hne E w1. subst w1.
  pose proof (fetchImageFromServer_outcome uri w) as Ho. rewrite E in Ho.
  inversion Ho as [| | |res body' Eo Hs Hb Hc Ht hd]; subst. clear Ho.
  rewrite Hl, Hp. simpl app.
  rewrite (settle_one _ (SaveImage uri "orig" hd body)) by reflexivity.
  simpl run_task.
  set (w0 := set_pending [] _).
  destruct (saveImageInCache_go_frame uri "orig" hd body w0)
    as (Hfiles & Hredis & Hpend & Hnow & Horigin & _ & Hw).
  set (w1 := world_of (saveImageInCache_go uri "orig" hd body w0)) in *.
  assert (Hf1 : files w1 !! generateKeyForCache uri = None).
  { rewrite Hfiles by (intros Heq; by apply Hne). exact Hf. }
  split; [exact Hpend|]. split; [|split].
  - intros D1 D2. apply (Hw D1 D2).
  - exact Hf1.
  - assert (Hl1 : live_error w1 uri = None).
    { rewrite <- Hl. apply live_error_frame; [exact Hnow|].
      apply Hredis. unfold metadata_key. discriminate. }
    rewrite (fetchImage_eq uri w1 Hl1). cbv zeta.
    rewrite fetchImageFromCache_eq. cbv zeta.
    change (files (set_trace _ w1)) with (files w1). rewrite Hf1.
    destruct (metadata_type _ "orig" uri) as [type|].
    + match goal with
      | |- context [fetchImageFromServer uri ?wx] =>
          pose proof (fetchImageFromServer_outcome uri wx) as Ho;
          destruct (fetchImageFromServer uri wx) as [[[h b] err] w2|msg w2]
      end; inversion Ho; subst; simpl.
      * by exists [EvHttpGet uri; EvStat (generateKeyForCache uri);
                   EvRedis "HGET" (metadata_key "orig" uri);
                   EvRedis "GET" ("img/err/" +:+ uri)].
      * by exists [EvHttpGet uri; EvStat (generateKeyForCache uri);
                   EvRedis "HGET" (metadata_key "orig" uri);
                   EvRedis "GET" ("img/err/" +:+ uri)].
      * by exists [EvRedis "GET" ("img/err/" +:+ uri); EvHttpGet uri;
                   EvStat (generateKeyForCache uri);
                   EvRedis "HGET" (metadata_key "orig" uri);
                   EvRedis "GET" ("img/err/" +:+ uri)].
      * by exists [EvHttpGet uri; EvStat (generateKeyForCache uri);
                   EvRedis "HGET" (metadata_key "orig" uri);
                   EvRedis "GET" ("img/err/" +:+ uri)].
    + match goal with
      | |- context [fetchImageFromServer uri ?wx] =>
          pose proof (fetchImageFromServer_outcome uri wx) as Ho;
          destruct (fetchImageFromServer uri wx) as [[[h b] err] w2|msg w2]
      end; inversion Ho; subst; simpl.
      * by exists [EvHttpGet uri; EvRedis "HGET" (metadata_key "orig" uri);
                   EvRedis "GET" ("img/err/" +:+ uri)].
      * by exists [EvHttpGet uri; EvRedis "HGET" (metadata_key "orig" uri);
                   EvRedis "GET" ("img/err/" +:+ uri)].
      * by exists [EvRedis "GET" ("img/err/" +:+ uri); EvHttpGet uri;
                   EvRedis "HGET" (metadata_key "orig" uri);
                   EvRedis "GET" ("img/err/" +:+ uri)].
      * by exists [EvHttpGet uri; EvRedis "HGET" (metadata_key "orig" uri);
                   EvRedis "GET" ("img/err/" +:+ uri)].
Qed.
End Sequel.

Lemma refused_origin_is_left_alone_witness :
  let o := fun _ : string => GetOk (mkResponse 404 9 "text/html" (ReadOk [])) in
  let w := Testbed.fresh o in
  let e := errors_New "Unexpected status code" in
  let w' := set_pending [SaveError Testbed.url e] (set_trace [EvHttpGet Testbed.url] w) in
  pending w = []
  /\ fetchImageFromServer Testbed.url w = Done (zeroHeaders, [], Some e) w'
  /\ pending (settle w') = []
  /\ (forall t, t < 1000 + 600 ->
        fetchImage Testbed.url (set_now t (settle w'))
          = Done (zeroHeaders, [], Some e)
                 (set_trace (EvRedis "GET" ("img/err/" +:+ Testbed.url) :: trace (settle w'))
                    (set_now t (settle w'))))
  /\ (forall t, 1000 + 600 <= t -> live_error (set_now t (settle w')) Testbed.url = None).
Proof.
  intros o w e w'.
  assert (Hp : pending w = []) by reflexivity.
  assert (E : fetchImageFromServer Testbed.url w = Done (zeroHeaders, [], Some e) w')
    by reflexivity.
  split; [exact Hp|]. split; [exact E|].
  exact (refused_origin_is_left_alone Testbed.url w zeroHeaders [] "Unexpected status code"
           w' Hp E).
Defined.

Lemma fetched_original_is_fetched_again_witness :
  let w := Testbed.fresh Testbed.srv in
  let headers := mkHeaders "image/gif" (RFC1123 1000) "" in
  let body := Testbed.gif 200 100 in
  let w' := set_pending [SaveImage Testbed.url "orig" headers body]
              (set_trace [EvRedis "GET" ("img/err/" +:+ Testbed.url); EvHttpGet Testbed.url] w) in
  fetchImageFromServer Testbed.url w = Done (headers, body, None) w'
  /\ generateKeyForCache (digest_input "orig" Testbed.url) <> generateKeyForCache Testbed.url
  /\ files (settle w') !! generateKeyForCache (digest_input "orig" Testbed.url)
       = Some (mkFile body 1000 true)
  /\ files (settle w') !! generateKeyForCache Testbed.url = None
  /\ exists evs,
       trace (world_of (fetchImage Testbed.url (settle w'))) = evs ++ trace (settle w')
       /\ origin_fetches evs = 1%nat.
Proof.
  intros w headers body w'.
  assert (Hp : pending w = []) by reflexivity.
  assert (Hl : live_error w Testbed.url = None) by reflexivity.
  assert (Hf : files w !! generateKeyForCache Testbed.url = None) by reflexivity.
  assert (Hne : generateKeyForCache (digest_input "orig" Testbed.url)
                <> generateKeyForCache Testbed.url) by (vm_compute; discriminate).
  assert (E : fetchImageFromServer Testbed.url w = Done (headers, body, None) w')
    by (vm_compute; reflexivity).
  split; [exact E|]. split; [exact Hne|].
  destruct (fetched_original_is_fetched_again Testbed.url w headers body w' Hp Hl Hf Hne E)
    as (_ & Hfile & Hnone & Hagain).
  split; [by apply Hfile|]. split; [exact Hnone | exact Hagain].
Defined.

(** ** The pipeline as a whole *)

Section Whole.
Context `{Platform}.

Lemma fetchResizedImage_eq uri width height w :
  fetchResizedImage uri width height w
    = let v := resize_variation width height in
      match fetchImageFromCache uri v w with
      | Done (h, b, true) w0 => Done (h, b, None) w0
      | Done (_, _, false) w0 =>
          match fetchImage uri w0 with
          | Done (h1, b1, Some e) w1 => Done (h1, b1, Some e) w1
          | Done (h1, b1, None) w1 =>
              match resizeImage uri (string_of_list_byte b1) h1 width height w1 with
              | Done (h2, b2, Some e) w2 => Done (h2, b2, Some e) w2
              | Done (h2, b2, None) w2 =>
                  Done (h2, b2, None) (set_pending (pending w2 ++ [SaveImage uri v h2 b2]) w2)
              | Panicked msg w2 => Panicked msg w2
              end
          | Panicked msg w1 => Panicked msg w1
          end
      | Panicked msg w0 => Panicked msg w0
      end.
Proof.
  unfold fetchResizedImage, saveImageInCache. cbv zeta. fold (resize_variation width height).
  unfold mbind at 1, M_bind at 1.
  destruct (fetchImageFromCache uri _ w) as [[[h b] [|]] w0|msg w0]; try reflexivity.
  unfold mbind at 1, M_bind at 1.
  destruct (fetchImage uri w0) as [[[h1 b1] [e|]] w1|msg w1]; try reflexivity.
  unfold mbind at 1, M_bind at 1.
  destruct (resizeImage uri _ h1 width height w1) as [[[h2 b2] [e|]] w2|msg w2];
    reflexivity.
Qed.


(** how a call of [fetchImage] ends: the world it leaves, the one
    goroutine it may have started, the one way it can panic, and the
    content type it returns *)
Lemma fetchImage_outcome uri w :
  exists ts evs,
    world_of (fetchImage uri w)
      = set_pending (pending w ++ ts) (set_trace (evs ++ trace w) w)
    /\ (ts = [] \/ (exists e, ts = [SaveError uri e] /\ negatively_cached e = true)
        \/ (exists h b, ts = [SaveImage uri "orig" h b] /\ image_type (contentType h)))
    /\ (forall msg w', fetchImage uri w = Panicked msg w' ->
          msg = "runtime error: slice bounds out of range"
          /\ exists res body,
               origin w uri = GetOk res /\ StatusCode res = 200 /\ Body res = ReadOk body
               /\ ContentLength res <= maxSize
               /\ (String.length (HeaderContentType res) < 5)%nat)
    /\ ((forall type, metadata_type w "orig" uri = Some type -> image_type type) ->
        forall h b w', fetchImage uri w = Done (h, b, None) w' ->
        image_type (contentType h)).
Proof.
  assert (Hnil : forall evs, set_trace (evs ++ trace w) w
                   = set_pending (pending w ++ []) (set_trace (evs ++ trace w) w)).
  { intros evs. unfold set_pending, set_trace. simpl. by rewrite app_nil_r. }
  destruct (live_error w uri) as [reason|] eqn:Hl.
  { rewrite (fetchImage_live_error uri reason w Hl).
    exists [], [EvRedis "GET" ("img/err/" +:+ uri)].
    split; [apply (Hnil [_])|]. split; [by left|]. split; [discriminate|].
    intros _ h b w'. discriminate. }
  rewrite (fetchImage_eq uri w Hl). cbv zeta. rewrite fetchImageFromCache_eq. cbv zeta.
  set (g := EvRedis "GET" ("img/err/" +:+ uri)).
  set (hg := EvRedis "HGET" (metadata_key "orig" uri)).
  set (st := EvStat (generateKeyForCache uri)).
  set (rf := EvReadFile (generateKeyForCache uri)).
  set (public := fun o : Outcome (Headers * list byte * option error) =>
    match o with
    | Done (h, b, err) w2 =>
        Done (mkHeaders (contentType h) (lastModified h) "public, max-age=600", b, err) w2
    | Panicked msg w2 => Panicked msg w2
    end).
  assert (Hsrv : forall pre : list Event,
    let w1 := set_trace (pre ++ g :: trace w) w in
    exists ts evs,
      world_of (public (fetchImageFromServer uri w1))
        = set_pending (pending w ++ ts) (set_trace (evs ++ trace w) w)
      /\ (ts = [] \/ (exists e, ts = [SaveError uri e] /\ negatively_cached e = true)
          \/ (exists h b, ts = [SaveImage uri "orig" h b] /\ image_type (contentType h)))
      /\ (forall msg w', public (fetchImageFromServer uri w1) = Panicked msg w' ->
            msg = "runtime error: slice bounds out of range"
            /\ exists res body,
                 origin w uri = GetOk res /\ StatusCode res = 200 /\ Body res = ReadOk body
                 /\ ContentLength res <= maxSize
                 /\ (String.length (HeaderContentType res) < 5)%nat)
      /\ ((forall type, metadata_type w "orig" uri = Some type -> image_type type) ->
          forall h b w', public (fetchImageFromServer uri w1) = Done (h, b, None) w' ->
          image_type (contentType h))).
  { intros pre w1.
    pose proof (fetchImageFromServer_outcome uri w1) as Ho.
    destruct (fetchImageFromServer uri w1) as [[[h b] err] w2|msg w2]; inversion Ho; subst;
      unfold public.
    - exists [], (EvHttpGet uri :: pre ++ [g]).
      split; [|split; [by left | split; [discriminate | intros _ ? ? ?; discriminate]]].
      rewrite <- Hnil. simpl. unfold set_trace. simpl. by rewrite <- app_assoc.
    - exists [SaveError uri (errors_New text)], (EvHttpGet uri :: pre ++ [g]).
      split; [|split; [right; left; by eexists
                      | split; [discriminate | intros _ ? ? ?; discriminate]]].
      simpl. unfold set_pending, set_trace. simpl. by rewrite <- app_assoc.
    - match goal with
      | |- context [if ?c then _ else _] => destruct c eqn:Hc
      end.
      + exists [], (g :: EvHttpGet uri :: pre ++ [g]).
        split; [|split; [by left | split; [discriminate | by intros _ ? ? ? [= <- _ _]]]].
        simpl. unfold set_pending, set_trace. simpl. by rewrite <- app_assoc.
      + eexists [SaveImage uri "orig" _ _], (g :: EvHttpGet uri :: pre ++ [g]).
        split; [simpl; unfold set_pending, set_trace; simpl; by rewrite <- app_assoc|].
        split; [right; right; eexists _, _; split;
                  [reflexivity | unfold image_type; simpl; eassumption]|].
        split; [discriminate | by intros _ ? ? ? [= <- _ _]].
    - exists [], (EvHttpGet uri :: pre ++ [g]).
      split; [|split; [by left | split; [|intros _ ? ? ?; discriminate]]].
      + rewrite <- Hnil. simpl. unfold set_trace. simpl. by rewrite <- app_assoc.
      + intros msg' w' [= <- _]. split; [reflexivity|]. by exists res, body. }
  change (metadata_type (set_trace _ w) "orig" uri) with (metadata_type w "orig" uri).
  change (files (set_trace _ w)) with (files w).
  destruct (metadata_type w "orig" uri) as [type|]; [|apply (Hsrv [hg])].
  destruct (files w !! generateKeyForCache uri) as [f|]; [|apply (Hsrv [st; hg])].
  destruct (freadable f); [|apply (Hsrv [rf; st; hg])].
  exists [], [rf; st; hg; g]. split; [apply (Hnil [_; _; _; _])|].
  split; [by left|]. split; [discriminate|].
  intros Htype h b w' [= <- _ _]. by apply Htype.
Qed.
End Whole.

Section WholeProperties.
Context `{Platform}.

Lemma fetchImage_public uri w headers body w' :
  fetchImage uri w = Done (headers, body, None) w' ->
  cacheControl headers = "public, max-age=600".
Proof.
  destruct (live_error w uri) as [reason|] eqn:Hl.
  { by rewrite (fetchImage_live_error uri reason w Hl). }
  rewrite (fetchImage_eq uri w Hl). cbv zeta.
  destruct (fetchImageFromCache uri "orig" _) as [[[h b] [|]] w1|msg w1];
    [by intros [= <- _ _] | | discriminate].
  destruct (fetchImageFromServer uri w1) as [[[h' b'] err] w2|msg w2];
    [by intros [= <- _ _ _] | discriminate].
Qed.

(** X11: the headers of what [fetchResizedImage] returns.  A variant
    found in the cache comes with the content type on record, the
    modification time of its file and an empty Cache-Control.  A variant
    made for the request has Cache-Control [public, max-age=600] and the
    Last-Modified of the original it was made from; its content type is
    [image/png], or it is the original itself, bytes and content type. *)
Theorem fetchResizedImage_headers (uri : string) (width height : Z) (w : World)
    (headers : Headers) (body : list byte) (w' : World) :
  fetchResizedImage uri width height w = Done (headers, body, None) w' ->
  exists h0 b0 ok w0,
    fetchImageFromCache uri (resize_variation width height) w = Done (h0, b0, ok) w0
    /\ if ok : bool
       then headers = h0 /\ body = b0 /\ w' = w0 /\ cacheControl headers = ""
            /\ metadata_type w (resize_variation width height) uri
                 = Some (contentType headers)
       else cacheControl headers = "public, max-age=600"
            /\ exists h1 b1 w1,
                 fetchImage uri w0 = Done (h1, b1, None) w1
                 /\ lastModified headers = lastModified h1
                 /\ (contentType headers = contentType h1 /\ body = b1
                     \/ contentType headers = "image/png").
Proof.
  rewrite fetchResizedImage_eq. cbv zeta.
  pose proof (fetchImageFromCache_eq uri (resize_variation width height) w) as Hc.
  cbv zeta in Hc.
  destruct (fetchImageFromCache uri _ w) as [[[h0 b0] [|]] w0|msg w0]; [| |discriminate].
  - intros [= <- <- <-]. exists h0, b0, true, w0. split; [reflexivity|].
    destruct (metadata_type w _ uri) as [type|]; [|discriminate].
    destruct (files w !! _) as [f|]; [|discriminate].
    injection Hc; intros; subst h0; simpl; by repeat split.
  - exists h0, b0, false, w0. split; [reflexivity|].
    destruct (fetchImage uri w0) as [[[h1 b1] [e|]] w1|msg w1] eqn:E1; try discriminate.
    destruct (resizeImage uri _ h1 width height w1) as [[[h2 b2] [e|]] w2|msg w2] eqn:E2;
      try discriminate.
    injection H0 as <- <- _.
    apply resizeImage_headers in E2 as (Hm & Hcc & Hct).
    split; [rewrite Hcc; by eapply fetchImage_public|].
    exists h1, b1, w1. split; [reflexivity|]. split; [exact Hm|].
    destruct Hct as [[-> ->] | Hpng]; [left | by right].
    split; [reflexivity|]. apply list_byte_of_string_of_list_byte.
Qed.

(** X12: when a resized variant is queued for the cache.  Of the
    goroutines that [fetchResizedImage] starts, one at most saves the
    variation of the request, and it is started exactly when the variant
    was not found in the cache and was made without error; it saves the
    headers and the bytes that are returned.  At most one goroutine more
    is started, by [fetchImage], for the original or for a refusal. *)
Theorem fetchResizedImage_queue (uri : string) (width height : Z) (w : World)
    (headers : Headers) (body : list byte) (err : option error) (w' : World) :
  fetchResizedImage uri width height w = Done (headers, body, err) w' ->
  let v := resize_variation width height in
  exists h0 b0 ok w0 ts,
    fetchImageFromCache uri v w = Done (h0, b0, ok) w0
    /\ pending w' = pending w ++ ts
    /\ (length ts <= 2)%nat
    /\ (ok = true -> ts = [])
    /\ List.filter (is_SaveImage_of uri v) ts
         = if ok : bool then []
           else match err with
                | None => [SaveImage uri v headers body]
                | Some _ => []
                end.
Proof.
  intros E v. rewrite fetchResizedImage_eq in E. cbv zeta in E. fold v in E.
  pose proof (fetchImageFromCache_eq uri v w) as Hc. cbv zeta in Hc.
  assert (Hp0 : pending (world_of (fetchImageFromCache uri v w)) = pending w).
  { rewrite Hc. destruct (metadata_type w v uri); [|done]. by destruct (files w !! _). }
  clear Hc.
  destruct (fetchImageFromCache uri v w) as [[[h0 b0] ok] w0|msg w0]; [|discriminate].
  simpl in Hp0. exists h0, b0, ok, w0.
  destruct ok.
  { injection E as <- <- <- <-. exists []. rewrite app_nil_r.
    repeat split; try done. simpl. lia. }
  destruct (fetchImage_outcome uri w0) as (ts & evs & Hw1 & Hts & _).
  assert (Hself : is_SaveImage_of uri v (SaveImage uri v headers body) = true).
  { simpl. by rewrite !String.eqb_refl. }
  assert (Hfil : List.filter (is_SaveImage_of uri v) ts = [] /\ (length ts <= 1)%nat).
  { destruct Hts as [-> | [(e & -> & _) | (h & b & -> & _)]]; simpl;
      try (split; [done | lia]).
    rewrite String.eqb_refl. unfold v, resize_variation.
    change (String.eqb "orig" _) with false. split; [done | simpl; lia]. }
  destruct Hfil as [Hfil Hlen].
  destruct (fetchImage uri w0) as [[[h1 b1] [e|]] w1|msg w1]; [| |discriminate].
  - injection E as <- <- <- <-. exists ts. simpl in Hw1. subst w1. simpl. rewrite Hp0.
    split; [reflexivity|]. split; [reflexivity|]. split; [lia|]. by split.
  - simpl in Hw1.
    destruct (resizeImage_stores uri (string_of_list_byte b1) h1 width height w1)
      as (Hp2 & _).
    destruct (resizeImage uri _ h1 width height w1) as [[[h2 b2] [e|]] w2|msg w2];
      [| |discriminate]; simpl in Hp2.
    + injection E as <- <- <- <-. exists ts. rewrite Hp2. subst w1. simpl. rewrite Hp0.
      split; [reflexivity|]. split; [reflexivity|]. split; [lia|]. by split.
    + injection E as <- <- <- <-. exists (ts ++ [SaveImage uri v h2 b2]).
      simpl. rewrite Hp2. subst w1. simpl. rewrite Hp0.
      split; [reflexivity|].
      split; [by rewrite app_assoc|]. split; [rewrite length_app; simpl; lia|].
      split; [done|]. rewrite List.filter_app, Hfil. simpl.
      unfold is_SaveImage_of. by rewrite !String.eqb_refl.
Qed.


(** X14: a request only reads.  Whatever the request and however [Img]
    ends, Redis and the cache directory are as they were, as are the clock,
    the origins and the faults of the disk: what a request leaves behind
    are goroutines in the queue, and running a goroutine contacts no
    origin and starts no goroutine. *)
Theorem Img_only_reads (r : Request) (w : World) :
  let w' := world_of (Img newWriter r w) in
  redis w' = redis w /\ files w' = files w /\ now w' = now w
  /\ (exists ts, pending w' = pending w ++ ts)
  /\ (exists evs, trace w' = evs ++ trace w)
  /\ forall t w1,
       let w2 := world_of (run_task t w1) in
       pending w2 = pending w1 /\ now w2 = now w1
       /\ exists evs, trace w2 = evs ++ trace w1 /\ origin_fetches evs = 0%nat.
Proof.
  intros w'. destruct (reads_Image newWriter r http_NotFound w) as [Hn Hr Hf _ _ Hp Ht].
  do 5 (split; [done|]).
  intros [uri variation headers body | uri err] w1; simpl.
  - destruct (saveImageInCache_go_frame uri variation headers body w1)
      as (_ & _ & Hp1 & Hn1 & _ & He & _). by repeat split.
  - unfold saveErrorInCache_go, redis_Set, redis_Expire, redis_lookup. run.
    rewrite lookup_insert_eq.
    destruct (live _ _); (repeat split; try done); by eexists [_; _].
Qed.
End WholeProperties.

Lemma fetchResizedImage_headers_witness :
  let w := Testbed.fresh Testbed.srv in
  exists headers body w',
    fetchResizedImage Testbed.url 50 50 w = Done (headers, body, None) w'
    /\ exists h0 b0 ok w0,
         fetchImageFromCache Testbed.url (resize_variation 50 50) w = Done (h0, b0, ok) w0
         /\ if ok : bool
            then headers = h0 /\ body = b0 /\ w' = w0 /\ cacheControl headers = ""
                 /\ metadata_type w (resize_variation 50 50) Testbed.url
                      = Some (contentType headers)
            else cacheControl headers = "public, max-age=600"
                 /\ exists h1 b1 w1,
                      fetchImage Testbed.url w0 = Done (h1, b1, None) w1
                      /\ lastModified headers = lastModified h1
                      /\ (contentType headers = contentType h1 /\ body = b1
                          \/ contentType headers = "image/png").
Proof.
  intros w.
  destruct (fetchResizedImage Testbed.url 50 50 w) as [[[headers body] [e|]] w'|msg w'] eqn:E;
    try (vm_compute in E; discriminate).
  exists headers, body, w'. split; [reflexivity|].
  exact (fetchResizedImage_headers Testbed.url 50 50 w headers body w' E).
Defined.

Lemma fetchResizedImage_queue_witness :
  let w := Testbed.fresh Testbed.srv in
  let v := resize_variation 50 50 in
  exists headers body w' ts,
    fetchResizedImage Testbed.url 50 50 w = Done (headers, body, None) w'
    /\ pending w' = pending w ++ ts
    /\ List.filter (is_SaveImage_of Testbed.url v) ts = [SaveImage Testbed.url v headers body].
Proof.
  intros w v.
  destruct (fetchResizedImage Testbed.url 50 50 w) as [[[headers body] [e|]] w'|msg w'] eqn:E;
    try (vm_compute in E; discriminate).
  destruct (fetchResizedImage_queue Testbed.url 50 50 w headers body None w' E)
    as (h0 & b0 & ok & w0 & ts & Hc & Hp & _ & _ & Hf).
  exists headers, body, w', ts. split; [reflexivity|]. split; [exact Hp|].
  destruct ok; [vm_compute in Hc; discriminate | exact Hf].
Defined.


(** ** The size of a resized picture *)

Section Sizes.
Context `{Platform}.

(** the exact quotient behind a new dimension *)
Lemma quotient_bounds a M s n :
  0 < a <= M -> 0 < s < M ->
  n = a * s / M \/ (n = a * s / M - 1 /\ (a * s) mod M = 0) ->
  0 <= n <= s /\ n < a /\ (a < M -> n <= s - 1) /\ (a = M -> n = s \/ n = s - 1).
Proof.
  intros Ha Hs Hn.
  pose proof (Z.div_mod (a * s) M ltac:(lia)) as Hdm.
  pose proof (Z.mod_pos_bound (a * s) M ltac:(lia)) as Hmod.
  assert (Hq0 : 0 <= a * s / M) by (apply Z.div_pos; nia).
  assert (Hqs : a * s / M <= s) by (apply Z.div_le_upper_bound; nia).
  assert (Hqa : a * s / M < a) by (apply Z.div_lt_upper_bound; nia).
  assert (Hlt : a < M -> a * s / M <= s - 1).
  { intros HaM. assert (a * s / M < s) by (apply Z.div_lt_upper_bound; nia). lia. }
  assert (HM : a = M -> a * s / M = s).
  { intros ->. rewrite Z.mul_comm. apply Z.div_mul. lia. }
  destruct Hn as [-> | [-> Hz]].
  - split; [lia|]. split; [lia|]. split; [exact Hlt|].
    intros HaM. left. by apply HM.
  - assert (1 <= a * s / M) by nia.
    split; [lia|]. split; [lia|]. split; [intros HaM; specialize (Hlt HaM); lia|].
    intros HaM. right. rewrite (HM HaM). lia.
Qed.

(** X15: a picture that is resampled gets smaller and fits the target.
    For a picture wider or higher than the target, positive sizes and the
    larger original side times the smaller target side at most [2^50]
    (every picture below [2^31] a side with a target that [Image] lets
    through), the size that [resizeImage] resamples to is below the
    original in both dimensions, at most the smaller side of the target in
    both, never negative, and its larger side is the smaller side of the
    target or one pixel less. *)
Theorem resizeImage_result_fits (uri origBody : string) (origHeaders : Headers)
    (width height : Z) (m : Picture) (wld : World) :
  image_Decode origBody = inl m ->
  let origWidth := image.Dx (Bounds m) in
  let origHeight := image.Dy (Bounds m) in
  ~ (origWidth <= width /\ origHeight <= height) ->
  0 < origWidth -> 0 < origHeight -> 0 < width < 2 ^ 53 -> 0 < height < 2 ^ 53 ->
  Z.max origWidth origHeight * Z.min width height <= 2 ^ 50 ->
  exists newWidth newHeight,
    trace (world_of (resizeImage uri origBody origHeaders width height wld))
      = EvEncode :: EvResample newWidth newHeight :: EvDecode :: trace wld
    /\ 0 <= newWidth <= Z.min width height
    /\ 0 <= newHeight <= Z.min width height
    /\ newWidth < origWidth /\ newHeight < origHeight
    /\ (Z.max newWidth newHeight = Z.min width height
        \/ Z.max newWidth newHeight = Z.min width height - 1).
Proof.
  intros Hm origWidth origHeight Hdown HW HH Hw Hh Hprod.
  set (big := Z.max origWidth origHeight) in *.
  set (small := Z.min width height) in *.
  set (ratio :=
    Float64.div (Float64.Max (Float64.of_int origWidth) (Float64.of_int origHeight))
                (Float64.Min (Float64.of_int width) (Float64.of_int height))).
  set (newWidth :=
    int_of_float (Float64.Floor (Float64.div (Float64.of_int origWidth) ratio))).
  set (newHeight :=
    int_of_float (Float64.Floor (Float64.div (Float64.of_int origHeight) ratio))).
  exists newWidth, newHeight. split.
  { unfold resizeImage. run. rewrite Hm. fold origWidth origHeight.
    replace ((width >=? origWidth) && (height >=? origHeight)) with false.
    2:{ symmetry. apply andb_false_iff. rewrite !Z.geb_leb, !Z.leb_gt. lia. }
    fold ratio newWidth newHeight. by destruct (png_Encode _). }
  assert (Hsmall : 0 < small < big) by (unfold small, big; lia).
  assert (Hbig : big < 2 ^ 53).
  { assert (big * 1 <= big * small) by (apply Z.mul_le_mono_nonneg_l; lia). lia. }
  assert (Hratio : ratio = Float64.div (Float64.of_int big) (Float64.of_int small)).
  { unfold ratio. by rewrite Max_of_int, Min_of_int by (unfold big in *; lia). }
  pose proof (downscale_dimension origWidth big small
                ltac:(unfold big; lia) ltac:(lia) Hprod) as HdW.
  pose proof (downscale_dimension origHeight big small
                ltac:(unfold big; lia) ltac:(lia) Hprod) as HdH.
  cbv zeta in HdW, HdH. rewrite <- Hratio in HdW, HdH.
  fold newWidth in HdW. fold newHeight in HdH.
  apply quotient_bounds in HdW as (HW1 & HW2 & HW3 & HW4); [|unfold big; lia | lia].
  apply quotient_bounds in HdH as (HH1 & HH2 & HH3 & HH4); [|unfold big; lia | lia].
  do 4 (split; [done|]).
  destruct (Z.eq_dec origWidth origHeight) as [Heq|Hne].
  - assert (Hsame : newWidth = newHeight) by (unfold newWidth, newHeight; by rewrite Heq).
    rewrite <- Hsame, Z.max_id. apply HW4. unfold big. lia.
  - destruct (Z.lt_ge_cases origWidth origHeight).
    + destruct HH4 as [E|E]; [unfold big; lia | |];
        specialize (HW3 ltac:(unfold big; lia)); lia.
    + destruct HW4 as [E|E]; [unfold big; lia | |];
        specialize (HH3 ltac:(unfold big; lia)); lia.
Qed.
(** X25: a resampled picture keeps its proportions.  For a picture wider
    or higher than the target, positive sizes and the larger original
    side times the smaller target side at most [2^50], the new width and
    height are in the ratio of the original width and height up to one
    pixel: [newWidth * origHeight] and [newHeight * origWidth] differ by
    at most the larger original side, and a square picture stays
    square. *)
Theorem resizeImage_keeps_proportions (uri origBody : string) (origHeaders : Headers)
    (width height : Z) (m : Picture) (wld : World) :
  image_Decode origBody = inl m ->
  let origWidth := image.Dx (Bounds m) in
  let origHeight := image.Dy (Bounds m) in
  ~ (origWidth <= width /\ origHeight <= height) ->
  0 < origWidth -> 0 < origHeight -> 0 < width < 2 ^ 53 -> 0 < height < 2 ^ 53 ->
  Z.max origWidth origHeight * Z.min width height <= 2 ^ 50 ->
  exists newWidth newHeight,
    trace (world_of (resizeImage uri origBody origHeaders width height wld))
      = EvEncode :: EvResample newWidth newHeight :: EvDecode :: trace wld
    /\ - origHeight <= newWidth * origHeight - newHeight * origWidth <= origWidth
    /\ Z.abs (newWidth * origHeight - newHeight * origWidth) <= Z.max origWidth origHeight
    /\ (origWidth = origHeight -> newWidth = newHeight).
Proof.
  intros Hm origWidth origHeight Hdown HW HH Hw Hh Hprod.
  set (big := Z.max origWidth origHeight) in *.
  set (small := Z.min width height) in *.
  set (ratio :=
    Float64.div (Float64.Max (Float64.of_int origWidth) (Float64.of_int origHeight))
                (Float64.Min (Float64.of_int width) (Float64.of_int height))).
  set (newWidth :=
    int_of_float (Float64.Floor (Float64.div (Float64.of_int origWidth) ratio))).
  set (newHeight :=
    int_of_float (Float64.Floor (Float64.div (Float64.of_int origHeight) ratio))).
  exists newWidth, newHeight. split.
  { unfold resizeImage. run. rewrite Hm. fold origWidth origHeight.
    replace ((width >=? origWidth) && (height >=? origHeight)) with false.
    2:{ symmetry. apply andb_false_iff. rewrite !Z.geb_leb, !Z.leb_gt. lia. }
    fold ratio newWidth newHeight. by destruct (png_Encode _). }
  assert (Hsame : origWidth = origHeight -> newWidth = newHeight)
    by (intros Heq; unfold newWidth, newHeight; by rewrite Heq).
  assert (Hsmall : 0 < small < big) by (unfold small, big; lia).
  assert (Hbig : big < 2 ^ 53).
  { assert (big * 1 <= big * small) by (apply Z.mul_le_mono_nonneg_l; lia). lia. }
  assert (Hratio : ratio = Float64.div (Float64.of_int big) (Float64.of_int small)).
  { unfold ratio. by rewrite Max_of_int, Min_of_int by (unfold big in *; lia). }
  pose proof (downscale_dimension origWidth big small
                ltac:(unfold big; lia) ltac:(lia) Hprod) as HdW.
  pose proof (downscale_dimension origHeight big small
                ltac:(unfold big; lia) ltac:(lia) Hprod) as HdH.
  cbv zeta in HdW, HdH. rewrite <- Hratio in HdW, HdH.
  fold newWidth in HdW. fold newHeight in HdH.
  assert (HbW : big * newWidth <= origWidth * small <= big * (newWidth + 1)).
  { pose proof (Z.div_mod (origWidth * small) big ltac:(lia)) as Hdm.
    pose proof (Z.mod_pos_bound (origWidth * small) big ltac:(lia)) as Hmod.
    destruct HdW as [-> | [-> Hz]]; nia. }
  assert (HbH : big * newHeight <= origHeight * small <= big * (newHeight + 1)).
  { pose proof (Z.div_mod (origHeight * small) big ltac:(lia)) as Hdm.
    pose proof (Z.mod_pos_bound (origHeight * small) big ltac:(lia)) as Hmod.
    destruct HdH as [-> | [-> Hz]]; nia. }
  clearbody newWidth newHeight.
  assert (Hdiff : - origHeight <= newWidth * origHeight - newHeight * origWidth
                  <= origWidth).
  { destruct HbW as [HW1 HW2], HbH as [HH1 HH2].
    assert (P1 : origHeight * (origWidth * small) <= origHeight * (big * (newWidth + 1)))
      by (apply Z.mul_le_mono_nonneg_l; lia).
    assert (P2 : origWidth * (big * newHeight) <= origWidth * (origHeight * small))
      by (apply Z.mul_le_mono_nonneg_l; lia).
    assert (P3 : origHeight * (big * newWidth) <= origHeight * (origWidth * small))
      by (apply Z.mul_le_mono_nonneg_l; lia).
    assert (P4 : origWidth * (origHeight * small) <= origWidth * (big * (newHeight + 1)))
      by (apply Z.mul_le_mono_nonneg_l; lia).
    split; apply (Z.mul_le_mono_pos_l _ _ big); lia. }
  split; [exact Hdiff|]. split; [unfold big; lia | exact Hsame].
Qed.
End Sizes.

Lemma resizeImage_result_fits_witness :
  let body := string_of_list_byte (Testbed.gif 200 100) in
  let wld := Testbed.fresh Testbed.srv in
  exists newWidth newHeight,
    trace (world_of (resizeImage Testbed.url body zeroHeaders 50 60 wld))
      = EvEncode :: EvResample newWidth newHeight :: EvDecode :: trace wld
    /\ 0 <= newWidth <= 50 /\ 0 <= newHeight <= 50
    /\ newWidth < 200 /\ newHeight < 100
    /\ (Z.max newWidth newHeight = 50 \/ Z.max newWidth newHeight = 50 - 1).
Proof.
  intros body wld.
  apply (@resizeImage_result_fits Testbed.platform Testbed.url body zeroHeaders 50 60
           (200, 100) wld);
    [reflexivity | vm_compute; intros [? ?]; congruence | reflexivity | reflexivity
    | split; reflexivity | split; reflexivity | vm_compute; discriminate].
Defined.

Lemma resizeImage_keeps_proportions_witness :
  let body := string_of_list_byte (Testbed.gif 200 100) in
  let wld := Testbed.fresh Testbed.srv in
  exists newWidth newHeight,
    trace (world_of (resizeImage Testbed.url body zeroHeaders 50 60 wld))
      = EvEncode :: EvResample newWidth newHeight :: EvDecode :: trace wld
    /\ - 100 <= newWidth * 100 - newHeight * 200 <= 200.
Proof.
  intros body wld.
  destruct (@resizeImage_keeps_proportions Testbed.platform Testbed.url body zeroHeaders 50 60
              (200, 100) wld) as (nw & nh & Ht & Hd & _);
    [reflexivity | vm_compute; intros [? ?]; congruence | reflexivity | reflexivity
    | split; reflexivity | split; reflexivity | vm_compute; discriminate |].
  by exists nw, nh.
Defined.

Section ZeroTarget.
Context `{Platform}.

Lemma of_int_zero : Float64.of_int 0 = S754_zero false.
Proof. reflexivity. Qed.

Lemma of_int_finite p :
  0 < p < 2 ^ 53 -> exists m e, Float64.of_int p = S754_finite false m e.
Proof.
  intros Hp. destruct (of_int_pos p Hp) as (m & s & E & _). by exists m, (- s).
Qed.

(** the smaller of two sizes of which one is 0 and none is negative *)
Lemma Min_of_int_zero a b :
  0 <= a < 2 ^ 53 -> 0 <= b < 2 ^ 53 -> Z.min a b = 0 ->
  Float64.Min (Float64.of_int a) (Float64.of_int b) = S754_zero false.
Proof.
  intros Ha Hb Hmin.
  destruct (Z.eq_dec a 0) as [->|Ha0], (Z.eq_dec b 0) as [->|Hb0]; try lia.
  - reflexivity.
  - destruct (of_int_finite b ltac:(lia)) as (m & e & ->). reflexivity.
  - destruct (of_int_finite a ltac:(lia)) as (m & e & ->). reflexivity.
Qed.

(** X16: a target with a side of 0.  [Image] lets a width or a height of
    0 through, the product being 0.  For a picture of positive size and
    a target without a negative side, [resizeImage] then divides by
    zero: the ratio is [+Inf], both new dimensions are 0, and the picture
    is resampled to 0x0 and encoded. *)
Theorem resizeImage_zero_target (uri origBody : string) (origHeaders : Headers)
    (width height : Z) (m : Picture) (wld : World) :
  image_Decode origBody = inl m ->
  let origWidth := image.Dx (Bounds m) in
  let origHeight := image.Dy (Bounds m) in
  0 < origWidth < 2 ^ 53 -> 0 < origHeight < 2 ^ 53 ->
  0 <= width < 2 ^ 53 -> 0 <= height < 2 ^ 53 -> Z.min width height = 0 ->
  Float64.div (Float64.Max (Float64.of_int origWidth) (Float64.of_int origHeight))
              (Float64.Min (Float64.of_int width) (Float64.of_int height))
    = S754_infinity false
  /\ resizeImage uri origBody origHeaders width height wld
     = (let wld' := set_trace (EvEncode :: EvResample 0 0 :: EvDecode :: trace wld) wld in
        match png_Encode (Resample m (Bounds m) 0 0) with
        | inl out =>
            Done (mkHeaders "image/png" (lastModified origHeaders) (cacheControl origHeaders),
                  list_byte_of_string out, None) wld'
        | inr e => Done (zeroHeaders, [], Some (foreign e)) wld'
        end).
Proof.
  intros Hm origWidth origHeight HW HH Hw Hh Hmin.
  assert (Hratio :
    Float64.div (Float64.Max (Float64.of_int origWidth) (Float64.of_int origHeight))
                (Float64.Min (Float64.of_int width) (Float64.of_int height))
      = S754_infinity false).
  { rewrite Max_of_int, Min_of_int_zero by done.
    destruct (of_int_finite (Z.max origWidth origHeight) ltac:(lia)) as (mm & e & ->).
    reflexivity. }
  split; [exact Hratio|].
  unfold resizeImage. run. rewrite Hm. fold origWidth origHeight.
  replace ((width >=? origWidth) && (height >=? origHeight)) with false.
  2:{ symmetry. apply andb_false_iff. rewrite !Z.geb_leb, !Z.leb_gt. lia. }
  rewrite Hratio.
  destruct (of_int_finite origWidth HW) as (mw & ew & ->).
  destruct (of_int_finite origHeight HH) as (mh & eh & ->).
  change (Float64.div (S754_finite false mw ew) (S754_infinity false)) with (S754_zero false).
  change (Float64.div (S754_finite false mh eh) (S754_infinity false)) with (S754_zero false).
  change (int_of_float (Float64.Floor (S754_zero false))) with 0.
  by destruct (png_Encode _).
Qed.
End ZeroTarget.

Lemma resizeImage_zero_target_witness :
  let body := string_of_list_byte (Testbed.gif 200 100) in
  let wld := Testbed.fresh Testbed.srv in
  resizeImage Testbed.url body zeroHeaders 0 50 wld
    = Done (mkHeaders "image/png" "" "", list_byte_of_string "PNG 0x0", None)
           (set_trace [EvEncode; EvResample 0 0; EvDecode] wld).
Proof.
  intros body wld.
  destruct (@resizeImage_zero_target Testbed.platform Testbed.url body zeroHeaders 0 50
              (200, 100) wld) as [_ Hr];
    [reflexivity | split; reflexivity | split; reflexivity | split; [discriminate | reflexivity]
    | split; [discriminate | reflexivity] | reflexivity |].
  exact Hr.
Defined.

(** ** A target with a negative side *)

Lemma binary_round_aux_true m e l :
  binary_round_aux 53 1024 true m e l = SFopp (binary_round_aux 53 1024 false m e l).
Proof.
  unfold binary_round_aux.
  destruct (shr_fexp 53 1024 m e l) as [mrs' e'].
  destruct (shr_fexp 53 1024 _ e' loc_Exact) as [mrs'' e''].
  destruct (shr_m mrs''); try reflexivity. by destruct (_ <=? _).
Qed.

Lemma binary_normalize_neg k sz :
  0 < k ->
  binary_normalize 53 1024 (- k) 0 sz = SFopp (binary_normalize 53 1024 k 0 false).
Proof.
  destruct k as [|p|p]; try lia. intros _. simpl. unfold binary_round.
  destruct (shl_align _ _ _) as [mz ez]. apply binary_round_aux_true.
Qed.

Lemma SFdiv_opp_r m1 e1 m2 e2 :
  SFdiv 53 1024 (S754_finite false m1 e1) (S754_finite true m2 e2)
    = SFopp (SFdiv 53 1024 (S754_finite false m1 e1) (S754_finite false m2 e2)).
Proof.
  unfold SFdiv. destruct (SFdiv_core_binary _ _ _ _ _ _) as [[mz ez] lz]. simpl.
  apply binary_round_aux_true.
Qed.

Lemma SFltb_neg m1 e1 m2 e2 :
  SFltb (S754_finite true m1 e1) (S754_finite true m2 e2)
    = SFltb (S754_finite false m2 e2) (S754_finite false m1 e1).
Proof.
  unfold SFltb, SFcompare. rewrite (Z.compare_antisym e2 e1).
  destruct (e2 ?= e1); simpl; try reflexivity.
  by rewrite (Pos.compare_cont_antisym m1 m2 Eq).
Qed.

Lemma of_int_neg_finite n :
  - 2 ^ 53 < n < 0 ->
  exists m s,
    Float64.of_int n = S754_finite true m (- s)
    /\ Float64.of_int (- n) = S754_finite false m (- s)
    /\ 0 <= s <= 52 /\ canonical m /\ Z.pos m = - n * 2 ^ s.
Proof.
  intros Hn. destruct (of_int_pos (- n) ltac:(lia)) as (m & s & E & Hs & Hc & Hm).
  exists m, s. unfold Float64.of_int, Float64.prec, Float64.emax.
  replace n with (- - n) at 1 by lia.
  rewrite binary_normalize_neg by lia. rewrite E.
  split; [reflexivity|]. split; [reflexivity|]. split; [exact Hs|]. by split.
Qed.

(** the smaller of two sizes of which one is negative *)
Lemma Min_of_int_neg a b :
  - 2 ^ 53 < a < 2 ^ 53 -> - 2 ^ 53 < b < 2 ^ 53 -> Z.min a b < 0 ->
  Float64.Min (Float64.of_int a) (Float64.of_int b) = Float64.of_int (Z.min a b).
Proof.
  intros Ha Hb Hmin.
  destruct (Z.lt_trichotomy a 0) as [Ha0 | [-> | Ha0]],
           (Z.lt_trichotomy b 0) as [Hb0 | [-> | Hb0]]; try lia.
  - destruct (of_int_neg_finite a ltac:(lia)) as (ma & sa & Ea & Ea' & _).
    destruct (of_int_neg_finite b ltac:(lia)) as (mb & sb & Eb & Eb' & _).
    pose proof (of_int_ltb (- b) (- a) ltac:(lia) ltac:(lia)) as Hlt.
    rewrite Ea', Eb' in Hlt.
    unfold Float64.Min. rewrite Ea, Eb. simpl. rewrite SFltb_neg, Hlt.
    destruct (Z.ltb_spec (- b) (- a)).
    + by rewrite Z.min_l, Ea by lia.
    + by rewrite Z.min_r, Eb by lia.
  - destruct (of_int_neg_finite a ltac:(lia)) as (ma & sa & Ea & _).
    rewrite Z.min_l, Ea by lia. reflexivity.
  - destruct (of_int_neg_finite a ltac:(lia)) as (ma & sa & Ea & _).
    destruct (of_int_finite b ltac:(lia)) as (mb & eb & Eb).
    rewrite Z.min_l, Ea, Eb by lia. reflexivity.
  - destruct (of_int_neg_finite b ltac:(lia)) as (mb & sb & Eb & _).
    rewrite Z.min_r, Eb by lia. reflexivity.
  - destruct (of_int_neg_finite b ltac:(lia)) as (mb & sb & Eb & _).
    destruct (of_int_finite a ltac:(lia)) as (ma & ea & Ea).
    rewrite Z.min_r, Ea, Eb by lia. reflexivity.
Qed.

(** the two quotients of a new dimension are finite, and the second has a
    fraction *)
Lemma downscale_quotient a M m :
  0 < a <= M -> 0 < m -> M * m <= 2 ^ 50 ->
  exists m3 e3 m4 e4,
    Float64.div (Float64.of_int M) (Float64.of_int m) = S754_finite false m3 e3
    /\ Float64.div (Float64.of_int a) (S754_finite false m3 e3) = S754_finite false m4 e4
    /\ canonical m4 /\ -1074 <= e4 < 0.
Proof.
  intros Ha Hm Hbound.
  assert (HMm : M * 1 <= M * m) by (apply Z.mul_le_mono_nonneg_l; lia).
  assert (Hmm : 1 * m <= M * m) by (apply Z.mul_le_mono_nonneg_r; lia).
  assert (Ham : a * m <= M * m) by (apply Z.mul_le_mono_nonneg_r; lia).
  destruct (of_int_pos M ltac:(lia)) as (mM & sM & EM & HsM & HcM & HvM).
  destruct (of_int_pos m ltac:(lia)) as (mm & sm & Em & Hsm & Hcm & Hvm).
  destruct (of_int_pos a ltac:(lia)) as (ma & sa & Ea & Hsa & Hca & Hva).
  destruct (SFdiv_canonical mM (- sM) mm (- sm) HcM Hcm ltac:(lia) ltac:(lia))
    as (m3 & k1 & E3 & Hk1 & Hc3 & Herr1).
  destruct (SFdiv_canonical ma (- sa) m3 (- sM - - sm - 53 + k1) Hca Hc3 ltac:(lia) ltac:(lia))
    as (m4 & k2 & E4 & Hk2 & Hc4 & Herr2).
  set (e3 := - sM - - sm - 53 + k1) in *.
  set (e4 := - sa - e3 - 53 + k2) in *.
  exists m3, e3, m4, e4.
  assert (Hratio : Float64.div (Float64.of_int M) (Float64.of_int m) = S754_finite false m3 e3).
  { unfold Float64.div, Float64.of_int, Float64.prec, Float64.emax. by rewrite EM, Em, E3. }
  assert (Hq : Float64.div (Float64.of_int a) (S754_finite false m3 e3)
               = S754_finite false m4 e4).
  { unfold Float64.div, Float64.of_int, Float64.prec, Float64.emax. by rewrite Ea, E4. }
  split; [exact Hratio|]. split; [exact Hq|]. split; [exact Hc4|].
  split; [unfold e4, e3; lia|].
  pose proof (F2R_div_error mM (- sM) mm (- sm) m3 k1 Hc3 ltac:(lia) Herr1) as HR1.
  pose proof (F2R_div_error ma (- sa) m3 e3 m4 k2 Hc4 ltac:(lia) Herr2) as HR2.
  cbv zeta in HR1, HR2. fold e3 in HR1. fold e4 in HR2.
  rewrite (F2R_int mM M sM HvM ltac:(lia)), (F2R_int mm m sm Hvm ltac:(lia)) in HR1.
  rewrite (F2R_int ma a sa Hva ltac:(lia)) in HR2.
  set (r := F2R m3 e3) in *. set (q := F2R m4 e4) in *.
  set (U := IZR (2 ^ 53)) in *.
  assert (HU : U = 9007199254740992%R) by reflexivity.
  assert (Hr : (0 < r)%R) by apply F2R_pos.
  assert (Hqpos : (0 < q)%R) by apply F2R_pos.
  assert (HaR : (1 <= IZR a)%R) by (apply IZR_le; lia).
  assert (HmR : (1 <= IZR m)%R) by (apply IZR_le; lia).
  assert (HMR : (1 <= IZR M)%R) by (apply IZR_le; lia).
  assert (HaM : (IZR a <= IZR M)%R) by (apply IZR_le; lia).
  destruct HR1 as [HR1a HR1b]. destruct HR2 as [HR2a HR2b].
  assert (HA : ((U - 1) * (q * IZR M) <= (U + 1) * (IZR a * IZR m))%R).
  { apply (Rmult_le_reg_l U); [lra|].
    assert (((U - 1) * q) * (U * IZR M) <= ((U - 1) * q) * ((U + 1) * (r * IZR m)))%R
      by (apply Rmult_le_compat_l; [apply Rmult_le_pos; lra | done]).
    assert (((U + 1) * IZR m) * ((U - 1) * (q * r)) <= ((U + 1) * IZR m) * (U * IZR a))%R
      by (apply Rmult_le_compat_l; [apply Rmult_le_pos; lra | done]).
    lra. }
  assert (Hqsmall : (q < IZR (2 ^ 52))%R).
  { assert (HmB : (IZR m <= IZR (2 ^ 50))%R) by (apply IZR_le; lia).
    assert (H50 : IZR (2 ^ 50) = 1125899906842624%R) by reflexivity.
    assert (H52 : IZR (2 ^ 52) = 4503599627370496%R) by reflexivity.
    assert (Hqm : ((U - 1) * q <= (U + 1) * IZR m)%R).
    { apply (Rmult_le_reg_l (IZR M)); [lra|].
      assert ((U + 1) * IZR m * IZR a <= (U + 1) * IZR m * IZR M)%R
        by (apply Rmult_le_compat_l; [apply Rmult_le_pos; lra | done]).
      lra. }
    rewrite H52. rewrite H50 in HmB. rewrite HU in Hqm.
    lra. }
  exact (F2R_small_exponent m4 e4 Hc4 Hqsmall).
Qed.

Section NegativeTarget.
Context `{Platform}.

Lemma int_of_float_neg k :
  0 < k < 2 ^ 53 -> int_of_float (binary_normalize 53 1024 (- k) 0 true) = - k.
Proof.
  intros Hk. rewrite binary_normalize_neg by lia.
  destruct (of_int_pos k Hk) as (mq & s & -> & Hs & Hc & Hmq).
  unfold int_of_float, Float64.trunc. simpl SFopp. cbv iota beta.
  assert (Hv : (if 0 <=? - s then Z.shiftl (Z.pos mq) (- s)
                else Z.shiftr (Z.pos mq) (- - s)) = k).
  { destruct (Z.leb_spec 0 (- s)).
    - assert (s = 0) by lia. subst s. rewrite Z.shiftl_0_r, Hmq. change (2 ^ 0) with 1. lia.
    - rewrite Z.shiftr_div_pow2 by lia. rewrite Hmq, Z.opp_involutive.
      apply Z.div_mul. apply Z.pow_nonzero; lia. }
  rewrite Hv.
  replace ((- 2 ^ 63 <=? - k) && (- k <? 2 ^ 63)) with true; [done|].
  symmetry. apply andb_true_iff. split; [apply Z.leb_le | apply Z.ltb_lt]; lia.
Qed.

(** the floor of a negative quotient is the floor of its opposite,
    negated, or one less *)
Lemma int_of_float_Floor_neg m e :
  canonical m -> -1074 <= e < 0 ->
  let n := int_of_float (Float64.Floor (S754_finite false m e)) in
  let n' := int_of_float (Float64.Floor (S754_finite true m e)) in
  n' <= -1 /\ (n' = - n \/ n' = - n - 1).
Proof.
  intros Hm He n n'. unfold n. rewrite (int_of_float_Floor m e Hm He).
  unfold n', Float64.Floor.
  replace (0 <=? e) with false by (symmetry; apply Z.leb_gt; lia).
  rewrite Z.shiftr_div_pow2 by lia.
  assert (Hpow : 2 <= 2 ^ (- e)).
  { replace (- e) with (1 + (- e - 1)) by lia. rewrite Z.pow_add_r by lia.
    assert (0 < 2 ^ (- e - 1)) by (apply Z.pow_pos_nonneg; lia). lia. }
  unfold canonical in Hm.
  set (q := Z.pos m / 2 ^ (- e)).
  assert (Hq : 0 <= q < 2 ^ 52).
  { split; [apply Z.div_pos; lia|]. apply Z.div_lt_upper_bound; [lia|]. nia. }
  rewrite Z.shiftl_mul_pow2 by lia.
  unfold Float64.prec, Float64.emax.
  destruct (Z.eqb_spec (Z.pos m) (q * 2 ^ (- e))) as [Hex|Hex].
  - assert (0 < q) by nia.
    rewrite int_of_float_neg by lia. split; [lia | by left].
  - rewrite int_of_float_neg by lia. split; [lia | right; lia].
Qed.

(** X17: a target with a negative side.  [Image] lets negative widths and
    heights through when their product is small.  For a picture of
    positive size, [resizeImage] then takes the negative side for the
    smaller one, the ratio is negative, and the picture is handed to
    [Resample] with a negative width and a negative height: each is the
    proportional size for the target mirrored to the positive side,
    negated, give or take one. *)
Theorem resizeImage_negative_target (uri origBody : string) (origHeaders : Headers)
    (width height : Z) (m : Picture) (wld : World) :
  image_Decode origBody = inl m ->
  let origWidth := image.Dx (Bounds m) in
  let origHeight := image.Dy (Bounds m) in
  let big := Z.max origWidth origHeight in
  let small := - Z.min width height in
  0 < origWidth -> 0 < origHeight ->
  - 2 ^ 53 < width < 2 ^ 53 -> - 2 ^ 53 < height < 2 ^ 53 ->
  Z.min width height < 0 ->
  big * small <= 2 ^ 50 ->
  exists newWidth newHeight,
    trace (world_of (resizeImage uri origBody origHeaders width height wld))
      = EvEncode :: EvResample newWidth newHeight :: EvDecode :: trace wld
    /\ newWidth <= -1 /\ newHeight <= -1
    /\ - (origWidth * small / big) - 1 <= newWidth <= - (origWidth * small / big) + 1
    /\ - (origHeight * small / big) - 1 <= newHeight <= - (origHeight * small / big) + 1.
Proof.
  intros Hm origWidth origHeight big small HW HH Hw Hh Hmin Hprod.
  set (ratio :=
    Float64.div (Float64.Max (Float64.of_int origWidth) (Float64.of_int origHeight))
                (Float64.Min (Float64.of_int width) (Float64.of_int height))).
  set (newWidth :=
    int_of_float (Float64.Floor (Float64.div (Float64.of_int origWidth) ratio))).
  set (newHeight :=
    int_of_float (Float64.Floor (Float64.div (Float64.of_int origHeight) ratio))).
  exists newWidth, newHeight. split.
  { unfold resizeImage. run. rewrite Hm. fold origWidth origHeight.
    replace ((width >=? origWidth) && (height >=? origHeight)) with false.
    2:{ symmetry. apply andb_false_iff. rewrite !Z.geb_leb, !Z.leb_gt. lia. }
    fold ratio newWidth newHeight. by destruct (png_Encode _). }
  assert (Hsmall : 0 < small) by (unfold small; lia).
  assert (Hbig : 0 < big < 2 ^ 53).
  { split; [unfold big; lia|].
    assert (big * 1 <= big * small) by (apply Z.mul_le_mono_nonneg_l; unfold big; lia).
    lia. }
  assert (Hsmall' : small < 2 ^ 53) by (unfold small; lia).
  assert (Hdim : forall a, 0 < a <= big ->
    let n := int_of_float (Float64.Floor (Float64.div (Float64.of_int a) ratio)) in
    n <= -1 /\ - (a * small / big) - 1 <= n <= - (a * small / big) + 1).
  { intros a Ha n.
    destruct (downscale_quotient a big small Ha Hsmall Hprod)
      as (m3 & e3 & m4 & e4 & E3 & E4 & Hc4 & He4).
    pose proof (downscale_dimension a big small Ha Hsmall Hprod) as Hd. cbv zeta in Hd.
    rewrite E3, E4 in Hd.
    destruct (of_int_neg_finite (- small) ltac:(lia)) as (ms & ss & Es & Es' & _).
    rewrite Z.opp_involutive in Es'.
    destruct (of_int_pos big Hbig) as (mM & sM & EM & _).
    destruct (of_int_pos a ltac:(lia)) as (ma & sa & Ea & _).
    assert (Hratio : ratio = S754_finite true m3 e3).
    { unfold ratio. rewrite Max_of_int, Min_of_int_neg by (unfold big in *; lia).
      fold big. replace (Z.min width height) with (- small) by (unfold small; lia).
      rewrite Es. rewrite Es' in E3. revert E3.
      unfold Float64.div, Float64.of_int, Float64.prec, Float64.emax. rewrite EM.
      rewrite SFdiv_opp_r. by intros ->. }
    assert (Hq : Float64.div (Float64.of_int a) ratio = S754_finite true m4 e4).
    { rewrite Hratio. revert E4.
      unfold Float64.div, Float64.of_int, Float64.prec, Float64.emax. rewrite Ea.
      rewrite SFdiv_opp_r. by intros ->. }
    destruct (int_of_float_Floor_neg m4 e4 Hc4 He4) as [Hneg Hrel].
    unfold n. rewrite Hq. split; [exact Hneg|].
    destruct Hd as [Hd | [Hd _]], Hrel as [Hr | Hr]; rewrite Hr, Hd; lia. }
  destruct (Hdim origWidth ltac:(unfold big; lia)) as [HnW HbW].
  destruct (Hdim origHeight ltac:(unfold big; lia)) as [HnH HbH].
  split; [exact HnW|]. split; [exact HnH|]. split; [exact HbW | exact HbH].
Qed.
End NegativeTarget.

Lemma resizeImage_negative_target_witness :
  let body := string_of_list_byte (Testbed.gif 200 100) in
  let wld := Testbed.fresh Testbed.srv in
  exists newWidth newHeight,
    trace (world_of (resizeImage Testbed.url body zeroHeaders (-1) (-1) wld))
      = EvEncode :: EvResample newWidth newHeight :: EvDecode :: trace wld
    /\ newWidth <= -1 /\ newHeight <= -1.
Proof.
  intros body wld.
  destruct (@resizeImage_negative_target Testbed.platform Testbed.url body zeroHeaders
              (-1) (-1) (200, 100) wld) as (nw & nh & Ht & Hw & Hh & _);
    [reflexivity | reflexivity | reflexivity | split; reflexivity | split; reflexivity
    | reflexivity | vm_compute; discriminate |].
  by exists nw, nh.
Defined.

(** ** The Redis client of [main] *)







(** ** The request for a picture *)

Lemma hex_DecodeString_fmt_x (s : string) :
  hex_DecodeString (fmt_x (Sha1.bytes_of_string s)) = Some s.
Proof.
  unfold Sha1.bytes_of_string.
  induction s as [|c s IH]; [reflexivity|].
  simpl list_ascii_of_string. simpl map. simpl fmt_x. simpl hex_DecodeString.
  fold (code c).
  assert (Hc : 0 <= code c < 256).
  { unfold code. pose proof (N_ascii_bounded c). lia. }
  rewrite !fromHexChar_hex_digit
    by (split; [apply Z.div_pos || apply Z.mod_pos_bound; lia
               | apply Z.div_lt_upper_bound || apply Z.mod_pos_bound; lia]).
  rewrite IH. f_equal. f_equal. unfold byte_char.
  rewrite <- Z.div_mod by lia. unfold code. rewrite N2Z.id. apply ascii_N_embedding.
Qed.

(** X19: every picture can be asked for.  The request that names a URL by
    the lower-case hex digits of its bytes, and a width and a height of 32
    bits with a product of at most [5 * 2^20] in the way [%d] writes them,
    is valid, and [Image] reads from it this URL, this width and this
    height: hex encoding and decoding are inverse on every byte string, the
    empty one included. *)
Theorem every_request_reads_back (uri ims : string) (width height : Z) :
  int32 width -> int32 height -> width * height <= 5 * 2 ^ 20 ->
  let r := mkRequest (fmt_x (Sha1.bytes_of_string uri)) (fmt_d width) (fmt_d height) ims in
  valid_request r
  /\ hex_DecodeString (encoded_url r) = Some uri
  /\ ParseInt (strWidth r) 32 = inl width
  /\ ParseInt (strHeight r) 32 = inl height
  /\ String.length (encoded_url r) = (2 * String.length uri)%nat.
Proof.
  intros Hw Hh Hp r.
  assert (Hu : hex_DecodeString (encoded_url r) = Some uri) by apply hex_DecodeString_fmt_x.
  assert (Ew : ParseInt (strWidth r) 32 = inl width)
    by (apply ParseInt_32; split; [apply denotes_fmt_d | exact Hw]).
  assert (Eh : ParseInt (strHeight r) 32 = inl height)
    by (apply ParseInt_32; split; [apply denotes_fmt_d | exact Hh]).
  split; [|split; [exact Hu | split; [exact Ew | split; [exact Eh|]]]].
  - apply valid_request_iff. exists width, height, uri.
    split; [exact Ew|]. split; [exact Eh|]. split; [|exact Hu].
    unfold maxSize. change (Z.shiftl 1 20) with (2 ^ 20).
    rewrite Z.gtb_ltb. apply Z.ltb_ge. lia.
  - by apply hex_DecodeString_length.
Qed.

Lemma every_request_reads_back_witness :
  let r := mkRequest (fmt_x (Sha1.bytes_of_string Testbed.url)) (fmt_d 50) (fmt_d 50) "" in
  r = Testbed.request "50" "50"
  /\ valid_request r
  /\ hex_DecodeString (encoded_url r) = Some Testbed.url.
Proof.
  intros r. split; [reflexivity|].
  destruct (every_request_reads_back Testbed.url "" 50 50) as (Hv & Hu & _);
    [split; [discriminate | reflexivity] | split; [discriminate | reflexivity]
    | discriminate |].
  by split.
Defined.

Section Failure.
Context `{Platform}.

(** X20: every failure of the pipeline looks the same from outside.  When
    [fetchResizedImage] returns an error, whichever it is, [Img] answers
    404 with the plain text [404 page not found]: nothing of the error,
    of the headers or of the bytes that came with it reaches the client,
    and If-Modified-Since is not looked at. *)
Theorem Img_failure_is_404 (r : Request) (uri : string) (width height : Z)
    (headers : Headers) (body : list byte) (e : error) (wld wld' : World) :
  ParseInt (strWidth r) 32 = inl width ->
  ParseInt (strHeight r) 32 = inl height ->
  width * height <= maxSize ->
  hex_DecodeString (encoded_url r) = Some uri ->
  fetchResizedImage uri width height wld = Done (headers, body, Some e) wld' ->
  Img newWriter r wld
    = Done (mkWriter (Some 404)
              [("Content-Type", "text/plain; charset=utf-8");
               ("X-Content-Type-Options", "nosniff")]
              (list_byte_of_string ("404 page not found" +:+ newline)))
           wld'.
Proof.
  intros Ew Eh Hp Eu E. unfold Img, Image. rewrite Ew, Eh, Eu.
  replace (width * height >? maxSize) with false
    by (symmetry; rewrite Z.gtb_ltb; apply Z.ltb_ge; lia).
  unfold mbind, M_bind. rewrite E. reflexivity.
Qed.
End Failure.

Lemma Img_failure_is_404_witness :
  let wld := Testbed.fresh (fun _ => GetErr "dial tcp: lookup failed") in
  let r := Testbed.request "50" "50" in
  exists wld',
    Img newWriter r wld
      = Done (mkWriter (Some 404)
                [("Content-Type", "text/plain; charset=utf-8");
                 ("X-Content-Type-Options", "nosniff")]
                (list_byte_of_string ("404 page not found" +:+ newline)))
             wld'.
Proof.
  intros wld r.
  destruct (fetchResizedImage Testbed.url 50 50 wld) as [[[headers body] [e|]] wld'|msg wld']
    eqn:E; try (vm_compute in E; discriminate).
  exists wld'.
  apply (Img_failure_is_404 r Testbed.url 50 50 headers body e wld wld');
    [reflexivity | reflexivity | vm_compute; discriminate | reflexivity | exact E].
Defined.

(** ** What holds in every state of a running proxy *)

Lemma is_variation_not_err v uri uri' :
  is_variation v -> metadata_key v uri <> "img/err/" +:+ uri'.
Proof.
  intros [-> | (width & height & ->)]; unfold metadata_key, resize_variation;
    rewrite !append_cons, !append_nil; discriminate.
Qed.

Lemma metadata_key_inj v v' uri uri' :
  is_variation v -> is_variation v' ->
  metadata_key v uri = metadata_key v' uri' -> v = v' /\ uri = uri'.
Proof.
  intros [-> | (a & b & ->)] [-> | (a' & b' & ->)]; unfold metadata_key.
  - rewrite !append_cons, !append_nil. by intros [= ->].
  - unfold resize_variation. rewrite !append_cons, !append_nil. discriminate.
  - unfold resize_variation. rewrite !append_cons, !append_nil. discriminate.
  - intros E%(inj (String.append "img/")).
    apply (resize_variation_sep_inj "/") in E as (-> & -> & ->); [done | by left].
Qed.

Lemma image_type_png : image_type "image/png".
Proof. reflexivity. Qed.

Section Invariant.
Context `{Platform}.

Lemma saveErrorInCache_go_world uri err w :
  let w' := world_of (saveErrorInCache_go uri err w) in
  redis w' = <["img/err/" +:+ uri := mkEntry (RString (Error err)) (Some (now w + 600))]>
               (redis w)
  /\ files w' = files w /\ now w' = now w /\ pending w' = pending w.
Proof.
  unfold saveErrorInCache_go, redis_Set, redis_Expire, redis_lookup. run.
  rewrite lookup_insert_eq. simpl. by rewrite insert_insert_eq.
Qed.

Lemma saveImageInCache_go_world uri v headers body w :
  let file := generateKeyForCache (digest_input v uri) in
  let key := metadata_key v uri in
  let w' := world_of (saveImageInCache_go uri v headers body w) in
  now w' = now w /\ pending w' = pending w
  /\ ((files w' = files w /\ redis w' = redis w)
      \/ (files w' = <[file := mkFile body (now w) true]> (files w)
          /\ ((redis w' = redis w
               /\ exists e s, redis w !! key = Some e /\ rvalue e = RString s)
              \/ redis w' = <[key := mkEntry (RHash {["type" := contentType headers]}) None]>
                              (redis w)
              \/ exists e fields,
                   redis w !! key = Some e /\ rvalue e = RHash fields
                   /\ redis w'
                        = <[key := mkEntry (RHash (<["type" := contentType headers]> fields))
                                     (rexpiry e)]> (redis w)))).
Proof.
  intros file key w'. subst w'.
  unfold saveImageInCache_go, os_MkdirAll, ioutil_WriteFile, redis_Hset, redis_lookup.
  fold (digest_input v uri). fold file. fold (metadata_key v uri). fold key. run.
  destruct (disk_fault w (path_Dir file)); simpl; [by repeat split; try left|].
  destruct (disk_fault w file); simpl; [by repeat split; try left|].
  destruct (redis w !! key) as [e|] eqn:Ek; simpl.
  - destruct (live (now w) e); simpl.
    + destruct (rvalue e) as [s|fields] eqn:Ev; simpl.
      * do 2 (split; [done|]). right. split; [done|]. left. split; [done|]. by exists e, s.
      * do 2 (split; [done|]). right. split; [done|]. right. right. by exists e, fields.
    + do 2 (split; [done|]). right. split; [done|]. right. by left.
  - do 2 (split; [done|]). right. split; [done|]. right. by left.
Qed.

Lemma invariant_metadata_type w v uri type :
  cache_invariant w -> metadata_type w v uri = Some type ->
  image_type type
  /\ (is_variation v -> is_Some (files w !! generateKeyForCache (digest_input v uri))).
Proof.
  intros [_ _ Hm _]. unfold metadata_type, redis_lookup.
  destruct (redis w !! metadata_key v uri) as [e|] eqn:Ek; [|discriminate].
  destruct (live (now w) e); [|discriminate].
  destruct (rvalue e) as [s|fields] eqn:Ev; [discriminate|].
  destruct (Hm _ _ _ Ek Ev) as (v' & uri' & type' & Hk & Hv' & -> & Ht & _ & Hf).
  rewrite lookup_singleton_eq. intros [= <-]. split; [exact Ht|].
  intros Hv. by destruct (metadata_key_inj _ _ _ _ Hv Hv' Hk) as [-> ->].
Qed.

(** the goroutines of a request, and the content type of its result *)
Lemma fetchResizedImage_tasks uri width height w :
  cache_invariant w ->
  exists ts,
    pending (world_of (fetchResizedImage uri width height w)) = pending w ++ ts
    /\ Forall task_ok ts
    /\ forall h b w', fetchResizedImage uri width height w = Done (h, b, None) w' ->
         image_type (contentType h).
Proof.
  intros Hinv. rewrite fetchResizedImage_eq. cbv zeta.
  assert (Hv : is_variation (resize_variation width height)) by (right; by eexists _, _).
  rewrite fetchImageFromCache_eq. cbv zeta.
  assert (Hmiss : forall pre : list Event,
    let w0 := set_trace (pre ++ trace w) w in
    exists ts,
      pending (world_of
        match fetchImage uri w0 with
        | Done (h1, b1, Some e) w1 => Done (h1, b1, Some e) w1
        | Done (h1, b1, None) w1 =>
            match resizeImage uri (string_of_list_byte b1) h1 width height w1 with
            | Done (h2, b2, Some e) w2 => Done (h2, b2, Some e) w2
            | Done (h2, b2, None) w2 =>
                Done (h2, b2, None)
                     (set_pending
                        (pending w2 ++ [SaveImage uri (resize_variation width height) h2 b2])
                        w2)
            | Panicked msg w2 => Panicked msg w2
            end
        | Panicked msg w1 => Panicked msg w1
        end) = pending w ++ ts
      /\ Forall task_ok ts
      /\ forall h b w',
           match fetchImage uri w0 with
           | Done (h1, b1, Some e) w1 => Done (h1, b1, Some e) w1
           | Done (h1, b1, None) w1 =>
               match resizeImage uri (string_of_list_byte b1) h1 width height w1 with
               | Done (h2, b2, Some e) w2 => Done (h2, b2, Some e) w2
               | Done (h2, b2, None) w2 =>
                   Done (h2, b2, None)
                        (set_pending
                           (pending w2 ++ [SaveImage uri (resize_variation width height) h2 b2])
                           w2)
               | Panicked msg w2 => Panicked msg w2
               end
           | Panicked msg w1 => Panicked msg w1
           end = Done (h, b, None) w' ->
           image_type (contentType h)).
  { intros pre w0.
    destruct (fetchImage_outcome uri w0) as (ts & evs & Hw1 & Hts & _ & Htype).
    assert (Hok : Forall task_ok ts).
    { destruct Hts as [-> | [(e & -> & He) | (h & b & -> & Hh)]];
        [constructor | by repeat constructor
        | constructor; [split; [by left | done] | constructor]]. }
    assert (Htype' : forall h b w', fetchImage uri w0 = Done (h, b, None) w' ->
              image_type (contentType h)).
    { apply Htype. intros type Ht.
      by destruct (invariant_metadata_type w "orig" uri type Hinv Ht). }
    clear Htype.
    destruct (fetchImage uri w0) as [[[h1 b1] [e|]] w1|msg w1].
    - exists ts. simpl in Hw1. subst w1. split; [done|]. split; [done | discriminate].
    - simpl in Hw1. specialize (Htype' h1 b1 w1 eq_refl).
      destruct (resizeImage_stores uri (string_of_list_byte b1) h1 width height w1)
        as (Hp2 & _).
      destruct (resizeImage uri _ h1 width height w1) as [[[h2 b2] [e|]] w2|msg w2] eqn:E2;
        simpl in Hp2.
      + exists ts. simpl. rewrite Hp2. subst w1. split; [done|]. split; [done | discriminate].
      + apply resizeImage_headers in E2 as (_ & _ & Hct).
        assert (Hh2 : image_type (contentType h2)).
        { destruct Hct as [[-> _] | ->]; [exact Htype' | apply image_type_png]. }
        exists (ts ++ [SaveImage uri (resize_variation width height) h2 b2]).
        simpl. rewrite Hp2. subst w1. simpl.
        split; [by rewrite app_assoc|]. split.
        * apply Forall_app. split; [done|].
          constructor; [split; [exact Hv | exact Hh2] | constructor].
        * by intros h b w' [= <- _ _].
      + exists ts. simpl. rewrite Hp2. subst w1. split; [done|]. split; [done | discriminate].
    - exists ts. simpl in Hw1. subst w1. split; [done|]. split; [done | discriminate]. }
  destruct (metadata_type w (resize_variation width height) uri) as [type|] eqn:Em;
    [|apply (Hmiss [_])].
  destruct (files w !! generateKeyForCache uri) as [f|]; [|apply (Hmiss [_; _])].
  destruct (freadable f); [|apply (Hmiss [_; _; _])].
  exists []. simpl. rewrite app_nil_r. split; [done|]. split; [constructor|].
  intros h b w' [= <- _ _]. by destruct (invariant_metadata_type w _ uri type Hinv Em).
Qed.

Lemma Img_tasks r w :
  cache_invariant w ->
  exists ts,
    pending (world_of (Img newWriter r w)) = pending w ++ ts
    /\ Forall task_ok ts
    /\ forall resp w', Img newWriter r w = Done resp w' -> status resp = Some 200 ->
         exists type modified control,
           header resp = [("Content-Type", type); ("Last-Modified", modified);
                          ("Cache-Control", control)]
           /\ image_type type.
Proof.
  intros Hinv. unfold Img, Image.
  assert (Hnone : forall msg code,
    exists ts,
      pending (world_of (Done (http_Error msg code newWriter) w)) = pending w ++ ts
      /\ Forall task_ok ts
      /\ forall resp w', Done (http_Error msg code newWriter) w = Done resp w' ->
           code = 400 -> status resp = Some 200 ->
           exists type modified control,
             header resp = [("Content-Type", type); ("Last-Modified", modified);
                            ("Cache-Control", control)]
             /\ image_type type).
  { intros msg code. exists []. simpl. rewrite app_nil_r. split; [done|].
    split; [constructor|]. intros resp w' [= <- _] -> [=]. }
  destruct (ParseInt (strWidth r) 32) as [width|];
    [|destruct (Hnone "Invalid parameters" 400) as (ts & H1 & H2 & H3); exists ts;
      split; [exact H1|]; split; [exact H2|]; intros; by eapply H3].
  destruct (ParseInt (strHeight r) 32) as [height|];
    [|destruct (Hnone "Invalid parameters" 400) as (ts & H1 & H2 & H3); exists ts;
      split; [exact H1|]; split; [exact H2|]; intros; by eapply H3].
  destruct (width * height >? maxSize);
    [destruct (Hnone "Requested resized image exceeds max size" 400) as (ts & H1 & H2 & H3);
     exists ts; split; [exact H1|]; split; [exact H2|]; intros; by eapply H3|].
  destruct (hex_DecodeString (encoded_url r)) as [uri|];
    [|destruct (Hnone "Invalid parameters" 400) as (ts & H1 & H2 & H3); exists ts;
      split; [exact H1|]; split; [exact H2|]; intros; by eapply H3].
  destruct (fetchResizedImage_tasks uri width height w Hinv) as (ts & Hp & Hok & Htype).
  exists ts. unfold mbind, M_bind.
  destruct (fetchResizedImage uri width height w) as [[[h b] [e|]] w1|msg w1]; simpl in *.
  - split; [exact Hp|]. split; [exact Hok|]. intros resp w' [= <- _] [=].
  - specialize (Htype h b w1 eq_refl).
    destruct (String.eqb _ _); simpl.
    + split; [exact Hp|]. split; [exact Hok|]. intros resp w' [= <- _] [=].
    + split; [exact Hp|]. split; [exact Hok|]. intros resp w' [= <- _] _.
      by eexists _, _, _.
  - split; [exact Hp|]. split; [exact Hok|]. discriminate.
Qed.

Lemma invariant_request w r :
  cache_invariant w -> cache_invariant (world_of (Img newWriter r w)).
Proof.
  intros Hinv. destruct (Img_tasks r w Hinv) as (ts & Hp & Hok & _).
  destruct (reads_Image newWriter r http_NotFound w) as [Hn Hr Hf _ _ _ _].
  fold (Img newWriter r) in Hn, Hr, Hf. destruct Hinv as [Hpend He Hm Hfiles].
  split.
  - rewrite Hp. apply Forall_app. by split.
  - rewrite Hr, Hn. exact He.
  - rewrite Hr, Hf. exact Hm.
  - rewrite Hf. exact Hfiles.
Qed.

Lemma invariant_goroutine w t p :
  cache_invariant w -> task_ok t -> Forall task_ok p ->
  cache_invariant (world_of (run_task t (set_pending p w))).
Proof.
  intros [_ He Hm Hfiles] Ht Hp. destruct t as [uri v headers body | uri err].
  - change (run_task (SaveImage uri v headers body))
      with (saveImageInCache_go uri v headers body).
    destruct Ht as [Hv Htype].
    destruct (saveImageInCache_go_world uri v headers body (set_pending p w))
      as (Hn & Hpend & Hcase).
    cbv zeta in Hn, Hpend, Hcase.
    remember (world_of (saveImageInCache_go uri v headers body (set_pending p w))) as w'
      eqn:Ew'.
    clear Ew'.
    change (now (set_pending p w)) with (now w) in *.
    change (files (set_pending p w)) with (files w) in *.
    change (redis (set_pending p w)) with (redis w) in *.
    change (pending (set_pending p w)) with p in *.
    assert (Hgrow : forall q, is_Some (files w !! q) ->
              files w' = files w
              \/ files w' = <[generateKeyForCache (digest_input v uri)
                               := mkFile body (now w) true]> (files w) ->
              is_Some (files w' !! q)).
    { intros q Hq [-> | ->]; [done|].
      destruct (decide (q = generateKeyForCache (digest_input v uri))) as [->|Hne].
      - rewrite lookup_insert_eq. by eexists.
      - by rewrite lookup_insert_ne. }
    assert (Hkeep : files w' = files w /\ redis w' = redis w -> cache_invariant w').
    { intros [Hf Hr]. split.
      - by rewrite Hpend.
      - rewrite Hr, Hn. exact He.
      - rewrite Hr, Hf. exact Hm.
      - rewrite Hf. exact Hfiles. }
    assert (Hfiles' :
      files w' = <[generateKeyForCache (digest_input v uri) := mkFile body (now w) true]>
                   (files w) ->
      forall path f, files w' !! path = Some f ->
      exists v0 uri0, is_variation v0 /\ path = generateKeyForCache (digest_input v0 uri0)).
    { intros -> path f.
      destruct (decide (path = generateKeyForCache (digest_input v uri))) as [->|Hne].
      - intros _. by exists v, uri.
      - rewrite lookup_insert_ne by done. apply Hfiles. }
    assert (Hnew : forall e',
      files w' = <[generateKeyForCache (digest_input v uri) := mkFile body (now w) true]>
                   (files w) ->
      redis w' = <[metadata_key v uri := e']> (redis w) ->
      rvalue e' = RHash {["type" := contentType headers]} -> rexpiry e' = None ->
      cache_invariant w').
    { intros e' Hf Hr Hval Hexp. split.
      - by rewrite Hpend.
      - intros key e reason. rewrite Hr, Hn.
        destruct (decide (key = metadata_key v uri)) as [->|Hne].
        + rewrite lookup_insert_eq. intros [= <-] Hs. rewrite Hval in Hs. discriminate.
        + rewrite lookup_insert_ne by done. apply He.
      - intros key e fields. rewrite Hr.
        destruct (decide (key = metadata_key v uri)) as [->|Hne].
        + rewrite lookup_insert_eq. intros [= <-] Hs. rewrite Hval in Hs.
          injection Hs as <-.
          exists v, uri, (contentType headers).
          do 5 (split; [done|]). rewrite Hf, lookup_insert_eq. by eexists.
        + rewrite lookup_insert_ne by done. intros Hk Hs.
          destruct (Hm _ _ _ Hk Hs) as (v' & uri' & type' & ? & ? & ? & ? & ? & Hq).
          exists v', uri', type'. do 5 (split; [done|]).
          apply Hgrow; [exact Hq | by right].
      - by apply Hfiles'. }
    destruct Hcase as [Hsame | [Hf [[Hr (e & s & Hk & Hs)] | [Hr | (e & fields & Hk & Hs & Hr)]]]].
    + by apply Hkeep.
    + exfalso. destruct (He _ _ _ Hk Hs) as (uri' & x & Hkey & _).
      by apply (is_variation_not_err v uri uri').
    + by apply (Hnew _ Hf Hr).
    + destruct (Hm _ _ _ Hk Hs) as (v' & uri' & type' & _ & _ & -> & _ & Hexp & _).
      apply (Hnew _ Hf Hr); [simpl; by rewrite insert_singleton_eq | exact Hexp].
  - change (run_task (SaveError uri err)) with (saveErrorInCache_go uri err).
    destruct (saveErrorInCache_go_world uri err (set_pending p w)) as (Hr & Hf & Hn & Hpend).
    cbv zeta in Hr, Hf, Hn, Hpend.
    remember (world_of (saveErrorInCache_go uri err (set_pending p w))) as w' eqn:Ew'.
    clear Ew'.
    change (now (set_pending p w)) with (now w) in *.
    change (files (set_pending p w)) with (files w) in *.
    change (redis (set_pending p w)) with (redis w) in *.
    change (pending (set_pending p w)) with p in *.
    simpl in Ht. destruct err as [text|text]; [|discriminate]. simpl in Hr.
    split.
    + by rewrite Hpend.
    + intros key e reason. rewrite Hr, Hn.
      destruct (decide (key = "img/err/" +:+ uri)) as [->|Hne].
      * rewrite lookup_insert_eq. intros [= <-] [= <-].
        exists uri, (now w + 600). do 3 (split; [done|]). lia.
      * rewrite lookup_insert_ne by done. apply He.
    + intros key e fields. rewrite Hr, Hf.
      destruct (decide (key = "img/err/" +:+ uri)) as [->|Hne].
      * rewrite lookup_insert_eq. intros [= <-]. discriminate.
      * rewrite lookup_insert_ne by done. apply Hm.
    + rewrite Hf. exact Hfiles.
Qed.

(** every world of a running proxy keeps the invariant of the caches *)
Lemma reachable_invariant w : reachable w -> cache_invariant w.
Proof.
  induction 1 as [t o d | w r _ IH | w r _ IH | w before t after _ IH Hp | w t _ IH Ht
                 | w o d _ IH].
  - split; simpl.
    + constructor.
    + intros key e reason Hk. by rewrite lookup_empty in Hk.
    + intros key e fields Hk. by rewrite lookup_empty in Hk.
    + intros path f Hk. by rewrite lookup_empty in Hk.
  - by apply invariant_request.
  - exact IH.
  - pose proof (inv_pending w IH) as Hall. rewrite Hp in Hall.
    apply Forall_app in Hall as [Hb Ha]. inversion_clear Ha as [|? ? Hok Ha'].
    apply invariant_goroutine; [done | done | apply Forall_app; by split].
  - destruct IH as [Hpend He Hm Hfiles]. split; [done | | done | done].
    intros key e reason Hk Hs. destruct (He _ _ _ Hk Hs) as (uri & x & ? & ? & ? & ?).
    exists uri, x. do 3 (split; [done|]). simpl. lia.
  - destruct IH as [Hpend He Hm Hfiles]. by split.
Qed.
End Invariant.

Lemma fmt_x_inj bs bs' :
  Forall (fun b => 0 <= b < 256) bs -> Forall (fun b => 0 <= b < 256) bs' ->
  fmt_x bs = fmt_x bs' -> bs = bs'.
Proof.
  intros Hb. revert bs'. induction Hb as [|b bs Hb _ IH]; intros bs' Hb'.
  - destruct bs'; [done | discriminate].
  - destruct Hb' as [|b' bs' Hb' Hbs']; [discriminate|]. simpl.
    intros [= E1 E2 E3].
    assert (Hd : forall x, 0 <= x < 256 -> 0 <= x / 16 < 16)
      by (intros x Hx; split; [apply Z.div_pos; lia | apply Z.div_lt_upper_bound; lia]).
    assert (Hm : forall x, 0 <= x mod 16 < 16) by (intros x; apply Z.mod_pos_bound; lia).
    apply (f_equal fromHexChar) in E1, E2.
    rewrite !fromHexChar_hex_digit in E1, E2 by auto.
    injection E1 as E1. injection E2 as E2.
    f_equal; [|by apply IH].
    rewrite (Z.div_mod b 16), (Z.div_mod b' 16) by lia. lia.
Qed.

Lemma lower_hex_no_slash s :
  Forall is_lower_hex (list_ascii_of_string s) -> ~ In "/"%char (list_ascii_of_string s).
Proof.
  intros Hf Hin. apply (proj1 (List.Forall_forall _ _) Hf) in Hin.
  unfold is_lower_hex, code in Hin. simpl in Hin. lia.
Qed.

Section Names.
Context `{Platform}.

(** two strings with the same file name have the same digest *)
Lemma generateKeyForCache_inj s s' :
  generateKeyForCache s = generateKeyForCache s' -> Sha1.sum s = Sha1.sum s'.
Proof.
  unfold generateKeyForCache. cbv zeta.
  destruct (sum_bytes s) as [Hlen Hr], (sum_bytes s') as [Hlen' Hr'].
  set (key := Sha1.sum s) in *. set (key' := Sha1.sum s') in *.
  assert (Hsplit : forall k : list Z, (3 <= length k)%nat ->
            k = take 1 k ++ take 1 (drop 1 k) ++ take 1 (drop 2 k) ++ drop 3 k).
  { intros k Hk. do 3 (destruct k as [|? k]; [simpl in Hk; lia|]). reflexivity. }
  assert (Hrange : forall k n, Forall (fun b => 0 <= b < 256) k ->
            Forall (fun b => 0 <= b < 256) (take 1 (drop n k))
            /\ Forall (fun b => 0 <= b < 256) (drop n k)).
  { intros k n Hk. split; [apply Forall_take|]; by apply Forall_drop. }
  assert (Hno : forall k, Forall (fun b => 0 <= b < 256) k ->
            ~ In "/"%char (list_ascii_of_string (fmt_x k))).
  { intros k Hk. by apply lower_hex_no_slash, fmt_x_lower. }
  intros E%(inj (String.append directory)). rewrite !append_cons, !append_nil in E.
  injection E as E.
  apply append_sep_inj in E as [E1 E];
    [|apply Hno, (Hrange key 0%nat Hr) | apply Hno, (Hrange key' 0%nat Hr')].
  apply append_sep_inj in E as [E2 E];
    [|apply Hno, (Hrange key 1%nat Hr) | apply Hno, (Hrange key' 1%nat Hr')].
  apply append_sep_inj in E as [E3 E4];
    [|apply Hno, (Hrange key 2%nat Hr) | apply Hno, (Hrange key' 2%nat Hr')].
  apply fmt_x_inj in E1; [|apply (Hrange key 0%nat Hr) | apply (Hrange key' 0%nat Hr')].
  apply fmt_x_inj in E2; [|apply (Hrange key 1%nat Hr) | apply (Hrange key' 1%nat Hr')].
  apply fmt_x_inj in E3; [|apply (Hrange key 2%nat Hr) | apply (Hrange key' 2%nat Hr')].
  apply fmt_x_inj in E4; [|apply (Hrange key 3%nat Hr) | apply (Hrange key' 3%nat Hr')].
  rewrite (Hsplit key) by lia. rewrite (Hsplit key') by lia.
  by rewrite E1, E2, E3, E4.
Qed.
End Names.

Section Running.
Context `{Platform}.

Lemma reachable_step_goroutine w : reachable w -> reachable (step_goroutine w).
Proof.
  intros Hw. unfold step_goroutine. destruct (pending w) as [|t rest] eqn:Hp; [done|].
  by apply (reach_goroutine w [] t rest).
Qed.


(** X22: the metadata of a variation is never without its file, nor is it
    anything but an image.  In every world of a running proxy, a content
    type that Redis holds for a variation of a URL starts with [image],
    and the file named by the digest of [variation + ":" + uri] is in the
    cache directory. *)
Theorem metadata_has_its_file (w : World) (v uri type : string) :
  reachable w -> is_variation v -> metadata_type w v uri = Some type ->
  image_type type
  /\ is_Some (files w !! generateKeyForCache (digest_input v uri)).
Proof.
  intros Hw%reachable_invariant Hv Hm.
  destruct (invariant_metadata_type w v uri type Hw Hm) as [Ht Hf]. split; [exact Ht|].
  by apply Hf.
Qed.

(** X23: nothing but images is served.  In every world of a running proxy,
    a request that [Img] answers with status 200 is answered with the three
    headers Content-Type, Last-Modified and Cache-Control, and the content
    type starts with [image]. *)
Theorem served_content_type_is_image (w : World) (r : Request) (resp : ResponseWriter)
    (w' : World) :
  reachable w -> Img newWriter r w = Done resp w' -> status resp = Some 200 ->
  exists type modified control,
    header resp = [("Content-Type", type); ("Last-Modified", modified);
                   ("Cache-Control", control)]
    /\ image_type type.
Proof.
  intros Hw%reachable_invariant E Hs.
  destruct (Img_tasks r w Hw) as (_ & _ & _ & Hresp). by apply (Hresp resp w').
Qed.

(** X24: what the proxy caches it does not find again, but for a
    coincidence of names.  In every world of a running proxy, every file of
    the cache directory is named by the digest of a variation, [":"] and a
    URL; a hit of [fetchImageFromCache] for a URL reads the file named by
    the digest of the URL alone, so there is a variation and a URL such
    that [variation + ":" + url] and the URL asked for have the same SHA-1
    digest. *)
Theorem cache_hit_needs_a_name_coincidence (w : World) (uri v : string) (h : Headers)
    (b : list byte) (w' : World) :
  reachable w -> fetchImageFromCache uri v w = Done (h, b, true) w' ->
  exists v' uri',
    is_variation v'
    /\ generateKeyForCache uri = generateKeyForCache (digest_input v' uri')
    /\ Sha1.sum uri = Sha1.sum (digest_input v' uri').
Proof.
  intros Hw%reachable_invariant. destruct Hw as [_ _ _ Hfiles].
  rewrite fetchImageFromCache_eq. cbv zeta.
  destruct (metadata_type w v uri) as [type|]; [|discriminate].
  destruct (files w !! generateKeyForCache uri) as [f|] eqn:Ef; [|discriminate].
  intros _. destruct (Hfiles _ _ Ef) as (v' & uri' & Hv' & Hname).
  exists v', uri'. split; [exact Hv'|]. split; [exact Hname|].
  by apply generateKeyForCache_inj.
Qed.
End Running.


Lemma metadata_has_its_file_witness :
  let w := step_goroutine (step_goroutine
             (world_of (Img newWriter (Testbed.request "50" "50")
                          (Testbed.fresh Testbed.srv)))) in
  metadata_type w "orig" Testbed.url = Some "image/gif"
  /\ image_type "image/gif"
  /\ is_Some (files w !! generateKeyForCache (digest_input "orig" Testbed.url)).
Proof.
  intros w.
  assert (Hw : reachable w)
    by apply reachable_step_goroutine, reachable_step_goroutine, reach_request, reach_start.
  assert (Hm : metadata_type w "orig" Testbed.url = Some "image/gif")
    by (vm_compute; reflexivity).
  split; [exact Hm|].
  exact (metadata_has_its_file w "orig" Testbed.url "image/gif" Hw (or_introl eq_refl) Hm).
Defined.

Lemma served_content_type_is_image_witness :
  let w := Testbed.fresh Testbed.srv in
  exists resp w' type modified control,
    Img newWriter (Testbed.request "50" "50") w = Done resp w'
    /\ status resp = Some 200
    /\ header resp = [("Content-Type", type); ("Last-Modified", modified);
                      ("Cache-Control", control)]
    /\ image_type type.
Proof.
  intros w.
  assert (Hw : reachable w) by apply reach_start.
  destruct (Img newWriter (Testbed.request "50" "50") w) as [resp w'|msg w'] eqn:E;
    [|vm_compute in E; discriminate].
  assert (Hs : status resp = Some 200).
  { vm_compute in E. by injection E as <- _. }
  destruct (served_content_type_is_image w _ resp w' Hw E Hs)
    as (type & modified & control & Hh & Ht).
  exists resp, w', type, modified, control. by repeat split.
Defined.

Lemma cache_hit_needs_a_name_coincidence_witness :
  let o := fun _ : string =>
             GetOk (mkResponse 200 10 "image/gif" (ReadOk (Testbed.gif 200 100))) in
  let other := "orig:http://a/b.gif" in
  let r := mkRequest "6f7269673a687474703a2f2f612f622e676966" "50" "50" "" in
  let w1 := step_goroutine (step_goroutine
              (world_of (Img newWriter (Testbed.request "50" "50") (Testbed.fresh o)))) in
  let w := step_goroutine (step_goroutine (world_of (Img newWriter r w1))) in
  hex_DecodeString (encoded_url r) = Some other
  /\ exists h b w',
       fetchImageFromCache other "orig" w = Done (h, b, true) w'
       /\ exists v' uri',
            is_variation v'
            /\ generateKeyForCache other = generateKeyForCache (digest_input v' uri')
            /\ Sha1.sum other = Sha1.sum (digest_input v' uri').
Proof.
  intros o other r w1 w. split; [reflexivity|].
  assert (Hw : reachable w).
  { apply reachable_step_goroutine, reachable_step_goroutine, reach_request.
    apply reachable_step_goroutine, reachable_step_goroutine, reach_request, reach_start. }
  destruct (fetchImageFromCache other "orig" w) as [[[h b] [|]] w'|msg w'] eqn:E;
    try (vm_compute in E; discriminate).
  exists h, b, w'. split; [reflexivity|].
  exact (cache_hit_needs_a_name_coincidence w other "orig" h b w' Hw E).
Defined.
